(** * TextImageGen: text lines to transparent PNG captions

    A shallow embedding of the two command-line tools of the repository,

    - [txt2png.cpp], which shells out to the ImageMagick CLI, and
    - [text2png.cpp], which draws with Cairo / FreeType / FontConfig,

    followed by the properties of their documented behaviour.

    Conventions of the embedding.
    - [std::string] is [string]; [std::vector<std::string>] is [list string].
    - [int] is [Z].  Signed overflow is undefined in C++, so the model is
      the program on runs where no [int] computation overflows.
    - A [double] is the rational number it stands for, in [Q].  Where the
      program turns a double into an integer ([std::round], [ceil]) or
      compares two doubles to choose a branch, every operation that leads
      there is rounded to the nearest binary64 number, ties to even
      ([Cxx.to_double]), as the hardware does; an [int] converts to a double
      without rounding.  The positions and colour channels that are only
      handed on to Cairo are kept as the exact value, which the double
      approximates to within the rounding of its operations; the verbose
      report prints a channel [k / 255.0] of a byte [k] as
      [static_cast<int>(channel * 255)], which is [k] again in doubles as
      in exact arithmetic ([DoubleFacts.byte_channel_prints_back]).
      Infinities and NaN are not modelled: the model is the program on runs
      where no double overflows.
      [std::cos] and [std::sin] are parameters, total functions on the
      finite doubles with finite values.
    - Everything outside the two files (the C library, the shell, the
      ImageMagick CLI, Cairo, FreeType, FontConfig, the file system) is a
      field of an environment record; output streams and the commands handed
      to the shell are collected in an explicit world state. *)

From Stdlib Require Import ZArith QArith Qround Qabs Qpower Bool List Lia.
From Stdlib Require Import Lqa.
From Stdlib Require Reals Lra.
From Stdlib Require Import Ascii String DecimalString DecimalPos DecimalZ.
From Stdlib Require Import Permutation Sorted.
Import ListNotations.

Open Scope string_scope.
Open Scope Z_scope.

(** ** Pieces of the C and C++ libraries the programs use *)

Module Cxx.

(** The double-quote and newline characters, and the texts made of one. *)
Definition dquote_char : ascii := "034"%char.
Definition backslash_char : ascii := "092"%char.
Definition DQ : string := String dquote_char EmptyString.
Definition NL : string := String "010"%char EmptyString.

(** [std::isspace] in the "C" locale (the programs never call [setlocale]):
    space, and the five controls from horizontal tab to carriage return. *)
Definition isspace (c : ascii) : bool :=
  let n := nat_of_ascii c in
  ((n =? 32) || ((9 <=? n) && (n <=? 13)))%nat.

(** [operator<<] and [std::to_string] on an integer: decimal digits, with a
    minus sign for a negative number. *)
Definition string_of_Z (z : Z) : string :=
  NilZero.string_of_int (Z.to_int z).

(** Concatenation of a list of texts. *)
Fixpoint concat_str (l : list string) : string :=
  match l with
  | [] => ""
  | s :: l' => s ++ concat_str l'
  end.

(** Repeated [std::getline(in, line)] until it fails: the text is cut at
    every newline; characters after the last newline form a last line, and
    nothing follows a final newline. *)
Fixpoint getlines_from (cur : string) (s : string) : list string :=
  match s with
  | EmptyString =>
      match cur with
      | EmptyString => []
      | _ => [cur]
      end
  | String c s' =>
      if Ascii.eqb c "010"%char
      then cur :: getlines_from "" s'
      else getlines_from (cur ++ String c "") s'
  end.

Definition getlines (s : string) : list string := getlines_from "" s.

(** *** Doubles

    The place of the leading bit of a rational [q] that is not 0: the [e]
    with [2^e <= |q| < 2^(e+1)].  The difference of the bit lengths of the
    numerator and the denominator is [e] or [e + 1]. *)
Definition binade (q : Q) : Z :=
  let l := Z.log2 (Z.abs (Qnum q)) - Z.log2 (Zpos (Qden q)) in
  if Qle_bool (2 ^ l) (Qabs q) then l else l - 1.

(** The integer nearest to [x], the even one of the two when [x] is half
    way between them. *)
Definition nearest_even (x : Q) : Z :=
  let f := Qfloor x in
  match Qcompare (x - inject_Z f) (1 # 2) with
  | Lt => f
  | Gt => f + 1
  | Eq => if Z.even f then f else f + 1
  end.

(** The result of an operation on doubles whose exact value is [q]: the
    nearest binary64 number, ties to even.  A binary64 number is
    [m * 2^e] with [|m| < 2^53] and [-1074 <= e]; the numbers around [q]
    are apart by [2^e] for [e] 52 under the leading bit of [q], and by
    [2^-1074] among the subnormal numbers. *)
Definition to_double (q : Q) : Q :=
  if Qeq_bool q 0 then 0%Q
  else
    let e := Z.max (binade q - 52) (-1074) in
    Qred (inject_Z (nearest_even (q / 2 ^ e)) * 2 ^ e).

(** [std::round] on a double followed by [static_cast<int>]: the nearest
    integer, halves away from zero. *)
Definition round_to_int (x : Q) : Z :=
  if Qle_bool 0 x then Qfloor (x + (1 # 2)) else Qceiling (x - (1 # 2)).

(** [static_cast<int>] on a double: the fractional part is dropped. *)
Definition trunc_to_int (x : Q) : Z :=
  if Qle_bool 0 x then Qfloor x else Qceiling x.

(** [x < y] on doubles. *)
Definition Qltb (x y : Q) : bool := negb (Qle_bool y x).

End Cxx.

(** ** txt2png.cpp *)

Module Txt2png.
Import Cxx.

(** *** Trim helpers *)

(** The position [std::find_if(first, last, not-isspace)] stops at, as the
    number of characters before it. *)
Fixpoint find_if_not_space (l : list ascii) : nat :=
  match l with
  | [] => 0%nat
  | c :: l' => if isspace c then S (find_if_not_space l') else 0%nat
  end.

(** [s.erase(s.begin(), find_if(s.begin(), s.end(), ...))], on the
    characters of [s]. *)
Definition ltrim_chars (l : list ascii) : list ascii :=
  skipn (find_if_not_space l) l.

Definition ltrim (s : string) : string :=
  string_of_list_ascii (ltrim_chars (list_ascii_of_string s)).

(** [s.erase(find_if(s.rbegin(), s.rend(), ...).base(), s.end())], on the
    characters of [s]: the reverse iterator found after [n] steps from
    [rbegin] has base [end - n]. *)
Definition rtrim_chars (l : list ascii) : list ascii :=
  firstn (List.length l - find_if_not_space (rev l)) l.

Definition rtrim (s : string) : string :=
  string_of_list_ascii (rtrim_chars (list_ascii_of_string s)).

Definition trim (s : string) : string := rtrim (ltrim s).

(** *** Escaping for [label:"..."] *)

(** The loop of [escape_for_label], one iteration per character of [s], with
    [out] the text built so far. *)
Fixpoint escape_loop (s : string) (out : string) : string :=
  match s with
  | EmptyString => out
  | String c s' =>
      let out1 :=
        if (Ascii.eqb c backslash_char || Ascii.eqb c dquote_char)%bool
        then out ++ String backslash_char ""
        else out in
      escape_loop s' (out1 ++ String c "")
  end.

Definition escape_for_label (s : string) : string := escape_loop s "".

(** *** The outside world of txt2png *)

Record Env := {
  (** [std::system(cmd)]: the status it returns, taken as a function of
      the command (the commands of two lines differ in their output
      file). *)
  system : string -> Z;
  (** [popen(cmd, "r")] read to the end: [None] when the pipe cannot be
      opened. *)
  popen : string -> option string;
  (** [std::ifstream in(path)]: the content of the file, [None] when it
      cannot be opened. *)
  ifstream : string -> option string
}.

(** What a run leaves behind: the two output streams and the commands given
    to [std::system] for rendering, oldest first. *)
Record World := {
  w_stdout : string;
  w_stderr : string;
  w_commands : list string
}.

Definition world0 : World :=
  {| w_stdout := ""; w_stderr := ""; w_commands := [] |}.

Definition put_stdout (s : string) (w : World) : World :=
  {| w_stdout := w_stdout w ++ s; w_stderr := w_stderr w;
     w_commands := w_commands w |}.

Definition put_stderr (s : string) (w : World) : World :=
  {| w_stdout := w_stdout w; w_stderr := w_stderr w ++ s;
     w_commands := w_commands w |}.

Definition ran_command (c : string) (w : World) : World :=
  {| w_stdout := w_stdout w; w_stderr := w_stderr w;
     w_commands := w_commands w ++ [c] |}.

Definition detect_imagemagick (env : Env) : string :=
  let try_cmd exe := system env (exe ++ " -version > /dev/null 2>&1") =? 0 in
  if try_cmd "magick" then "magick"
  else if try_cmd "convert" then "convert"
  else "".

Definition run_and_capture (env : Env) (cmd : string) : string :=
  match popen env (cmd ++ " 2>/dev/null") with
  | None => ""
  | Some out => out
  end.

(** *** Font catalogue *)

(** The [.] of an ECMAScript [std::regex] matches every character but a
    line terminator. *)
Definition is_line_terminator (c : ascii) : bool :=
  (Ascii.eqb c "010"%char || Ascii.eqb c "013"%char)%bool.

Fixpoint has_line_terminator (s : string) : bool :=
  match s with
  | EmptyString => false
  | String c s' => (is_line_terminator c || has_line_terminator s')%bool
  end.

(** [std::regex_search(line, m, re)] for [re = ^\s*Font:\s*(.+)\s*$],
    followed by [trim(m[1].str())] and the test that the name is not empty.
    The line must be white space, then [Font:], then a rest that is white
    space around a non-empty stretch without line terminators.  Whenever the
    rest has a character that is not white space, that stretch covers the
    trimmed rest, so the trimmed capture is the trimmed rest; a rest of
    white space only gives an empty name. *)
Definition font_line_name (line : string) : option string :=
  let s := ltrim line in
  if prefix "Font:" s then
    let name := trim (substring 5 (String.length s - 5) s) in
    if String.eqb name "" then None
    else if has_line_terminator name then None
    else Some name
  else None.

Fixpoint collect_im_names (lines : list string) (fonts : list string)
  : list string :=
  match lines with
  | [] => fonts
  | line :: rest =>
      match font_line_name line with
      | Some name => collect_im_names rest (fonts ++ [name])
      | None => collect_im_names rest fonts
      end
  end.

(** [line.find(':')], and the text before it. *)
Fixpoint before_colon (line : string) : string :=
  match line with
  | EmptyString => EmptyString
  | String c s' => if Ascii.eqb c ":"%char then EmptyString
                   else String c (before_colon s')
  end.

Fixpoint collect_fc_families (lines : list string) (fonts : list string)
  : list string :=
  match lines with
  | [] => fonts
  | line :: rest =>
      let fam := trim (before_colon line) in
      if String.eqb fam "" then collect_fc_families rest fonts
      else collect_fc_families rest (fonts ++ [fam])
  end.

(** The loop under the comment "dedup while preserving order". *)
Fixpoint dedup_loop (fonts : list string) (dedup : list string)
  : list string :=
  match fonts with
  | [] => dedup
  | f :: rest =>
      if existsb (String.eqb f) dedup then dedup_loop rest dedup
      else dedup_loop rest (dedup ++ [f])
  end.

Definition collect_fonts (env : Env) (im_exe : string) : list string :=
  let fonts :=
    let out := run_and_capture env (im_exe ++ " -list font") in
    if String.eqb out "" then []
    else collect_im_names (getlines out) [] in
  match fonts with
  | _ :: _ => fonts
  | [] =>
      let out := run_and_capture env "fc-list : family" in
      if String.eqb out "" then fonts
      else dedup_loop (collect_fc_families (getlines out) fonts) []
  end.

Record Options := {
  input_path : string;
  prefix : string;
  start_index : Z;
  font_name : string;
  font_index : Z;
  point_size : Z;
  fill_color : string;
  outline_color : string;
  outline_thickness : Z;
  list_fonts : bool;
  use_offset_outline : bool;
  offset_directions : Z;
  dry_run : bool;
  im_exe : string
}.

(** The values of a default-constructed [Options]. *)
Definition default_options : Options := {|
  input_path := "";
  prefix := "";
  start_index := 1;
  font_name := "";
  font_index := -1;
  point_size := 64;
  fill_color := "#FFFFFF";
  outline_color := "#000000";
  outline_thickness := 4;
  list_fonts := false;
  use_offset_outline := false;
  offset_directions := 36;
  dry_run := false;
  im_exe := ""
|}.

(** *** Command builders *)

Definition font_arg (font : string) : string :=
  if String.eqb font "" then "" else " -font " ++ DQ ++ font ++ DQ.

Definition build_cmd_stroke (im_exe text font : string) (point_size : Z)
    (fill_color outline_color : string) (outline_thickness : Z)
    (out_path : string) : string :=
  let cmd := im_exe ++ " -background none"
      ++ " -fill " ++ DQ ++ fill_color ++ DQ
      ++ " -stroke " ++ DQ ++ outline_color ++ DQ
      ++ " -strokewidth " ++ string_of_Z outline_thickness in
  let cmd := cmd ++ font_arg font in
  cmd ++ " -pointsize " ++ string_of_Z point_size
      ++ " label:" ++ DQ ++ escape_for_label text ++ DQ
      ++ " PNG32:" ++ DQ ++ out_path ++ DQ.

Section Libm.

(** [std::cos] and [std::sin] on doubles. *)
Variables cos sin : Q -> Q.

(** The decimal constant [3.14159265358979323846] of the source, and the
    double the compiler makes of it. *)
Definition pi_literal : Q := 314159265358979323846 # 100000000000000000000.
Definition pi_double : Q := to_double pi_literal.

(** [(2.0 * 3.14159265358979323846 * k) / directions]: two products and a
    quotient of doubles, each rounded. *)
Definition offset_angle (directions k : Z) : Q :=
  to_double
    (to_double (to_double (2 * pi_double) * inject_Z k)
     / inject_Z directions).

(** [static_cast<int>(std::round(r * std::cos(angle)))]. *)
Definition offset_dx (r : Q) (directions k : Z) : Z :=
  round_to_int (to_double (r * cos (offset_angle directions k))).

Definition offset_dy (r : Q) (directions k : Z) : Z :=
  round_to_int (to_double (r * sin (offset_angle directions k))).

(** [for (int k = 0; k < directions; ++k)] of [build_cmd_offset], entered at
    [k] with [cmd] the command text so far.  [fuel] bounds the number of
    iterations; [build_cmd_offset] gives it the number the loop needs. *)
Fixpoint offset_loop (fuel : nat) (r : Q) (directions k : Z) (cmd : string)
  : string :=
  match fuel with
  | O => cmd
  | S fuel' =>
      if k <? directions then
        let dx := offset_dx r directions k in
        let dy := offset_dy r directions k in
        offset_loop fuel' r directions (k + 1)
          (cmd ++ " mpr:outline -background none -gravity center -geometry +"
               ++ string_of_Z dx ++ "+" ++ string_of_Z dy
               ++ " -compose over -composite")
      else cmd
  end.

Definition build_cmd_offset (im_exe text font : string) (point_size : Z)
    (fill_color outline_color : string) (outline_thickness directions : Z)
    (out_path : string) : string :=
  let esc := escape_for_label text in
  let cmd := im_exe ++ " -background none" in
  let cmd := cmd ++ font_arg font in
  let cmd := cmd ++ " -pointsize " ++ string_of_Z point_size
      ++ " -fill " ++ DQ ++ outline_color ++ DQ
      ++ " label:" ++ DQ ++ esc ++ DQ
      ++ " -write mpr:outline +delete "
      ++ " mpr:outline" in
  let r := inject_Z outline_thickness in
  let cmd := offset_loop (Z.to_nat directions) r directions 0 cmd in
  let cmd := cmd ++ " ( -background none" in
  let cmd := cmd ++ font_arg font in
  cmd ++ " -pointsize " ++ string_of_Z point_size
      ++ " -fill " ++ DQ ++ fill_color ++ DQ
      ++ " label:" ++ DQ ++ esc ++ DQ
      ++ " ) -gravity center -compose over -composite"
      ++ " PNG32:" ++ DQ ++ out_path ++ DQ.

(** *** The batch driver *)

(** The command [main] builds for the trimmed line [t] numbered [lineno]:
    the body of the loop from [outname] to the choice of the builder. *)
Definition line_command (opt : Options) (font t : string) (lineno : Z)
  : string :=
  let out_path := prefix opt ++ string_of_Z lineno ++ ".png" in
  if negb (use_offset_outline opt) then
    build_cmd_stroke (im_exe opt) t font (point_size opt)
      (fill_color opt) (outline_color opt) (outline_thickness opt) out_path
  else
    build_cmd_offset (im_exe opt) t font (point_size opt)
      (fill_color opt) (outline_color opt) (outline_thickness opt)
      (offset_directions opt) out_path.

(** The command of a job, a line number with a trimmed line. *)
Definition job_command (opt : Options) (font : string) (j : Z * string)
  : string :=
  line_command opt font (snd j) (fst j).

(** The [while (std::getline(in, line))] loop of [main] over the lines still
    to read.  The result is [Some 7] when the loop left [main] through
    [return 7] and [None] when it ran to the end of the input, with the
    final value of [made]. *)
Fixpoint line_loop (env : Env) (opt : Options) (font : string)
    (lines : list string) (lineno made : Z) (w : World)
  : option Z * Z * World :=
  match lines with
  | [] => (None, made, w)
  | line :: rest =>
      let t := trim line in
      if String.eqb t "" then line_loop env opt font rest (lineno + 1) made w
      else
        let cmd := line_command opt font t lineno in
        if dry_run opt then
          line_loop env opt font rest (lineno + 1) made
            (put_stdout (cmd ++ NL) w)
        else
          let rc := system env cmd in
          let w := ran_command cmd w in
          if negb (rc =? 0) then
            (Some 7, made,
             put_stderr ("Command failed (rc=" ++ string_of_Z rc ++ "): "
                         ++ cmd ++ NL) w)
          else line_loop env opt font rest (lineno + 1) (made + 1) w
  end.

Definition set_im_exe (exe : string) (opt : Options) : Options := {|
  input_path := input_path opt;
  prefix := prefix opt;
  start_index := start_index opt;
  font_name := font_name opt;
  font_index := font_index opt;
  point_size := point_size opt;
  fill_color := fill_color opt;
  outline_color := outline_color opt;
  outline_thickness := outline_thickness opt;
  list_fonts := list_fonts opt;
  use_offset_outline := use_offset_outline opt;
  offset_directions := offset_directions opt;
  dry_run := dry_run opt;
  im_exe := exe
|}.

(** The loop of [--list-fonts]: [for (size_t i = 0; i < fonts.size(); ++i)]
    entered at [i] with the fonts from [i] on. *)
Fixpoint print_fonts (fonts : list string) (i : Z) (w : World) : World :=
  match fonts with
  | [] => w
  | f :: rest =>
      print_fonts rest (i + 1)
        (put_stdout (string_of_Z (i + 1) ++ ": " ++ f ++ NL) w)
  end.

(** "Resolve font by index if provided": the font given to the builders,
    or the world after the complaint that leads to [return 5].  On the way
    the font list is collected again when it is empty. *)
Definition resolve_font (env : Env) (opt : Options) (fonts : list string)
    (w : World) : string + World :=
  if 0 <? font_index opt then
    let fonts :=
      match fonts with
      | [] => collect_fonts env (im_exe opt)
      | _ => fonts
      end in
    if ((font_index opt <? 1)
        || (Z.of_nat (List.length fonts) <? font_index opt))%bool
    then inr (put_stderr
           ("Invalid --font-index " ++ string_of_Z (font_index opt)
            ++ " (have " ++ string_of_Z (Z.of_nat (List.length fonts))
            ++ " fonts)" ++ NL) w)
    else inl (nth (Z.to_nat (font_index opt - 1)) fonts "")
  else inl (font_name opt).

(** The end of [main] after the loop. *)
Definition finish (opt : Options) (r : option Z * Z * World) : Z * World :=
  match r with
  | (Some code, _, w) => (code, w)
  | (None, made, w) =>
      (0, if dry_run opt then w
          else put_stderr ("Wrote " ++ string_of_Z made ++ " PNG files."
                           ++ NL) w)
  end.

(** [main], from the point where [parse_args] has returned [true] and filled
    [opt].  The result is the exit status and the world left behind. *)
Definition main (env : Env) (opt : Options) : Z * World :=
  let w := world0 in
  let opt := set_im_exe (detect_imagemagick env) opt in
  if String.eqb (im_exe opt) "" then
    (3, put_stderr ("Error: Could not find ImageMagick CLI ('magick' or 'convert') in PATH." ++ NL) w)
  else
    let fonts := collect_fonts env (im_exe opt) in
    if list_fonts opt then
      match fonts with
      | [] => (4, put_stderr ("No fonts found via ImageMagick or fontconfig." ++ NL) w)
      | _ => (0, print_fonts fonts 0 w)
      end
    else
      match resolve_font env opt fonts w with
      | inr w' => (5, w')
      | inl font =>
          match ifstream env (input_path opt) with
          | None =>
              (6, put_stderr ("Error: cannot open input file: "
                              ++ input_path opt ++ NL) w)
          | Some content =>
              finish opt
                (line_loop env opt font (getlines content)
                   (start_index opt) 0 w)
          end
      end.

End Libm.

End Txt2png.

(** ** text2png.cpp *)

Module Text2png.
Import Cxx.

Record TextOptions := {
  font_name : string;
  font_size : Z;
  text_r : Q; text_g : Q; text_b : Q;
  outline_r : Q; outline_g : Q; outline_b : Q;
  bg_r : Q; bg_g : Q; bg_b : Q; bg_a : Q;
  outline_width : Z;
  padding : Z;
  output_prefix : string;
  verbose : bool
}.

(** The values of a default-constructed [TextOptions]. *)
Definition default_options : TextOptions := {|
  font_name := "DejaVu Sans";
  font_size := 48;
  text_r := 1; text_g := 1; text_b := 1;
  outline_r := 0; outline_g := 0; outline_b := 0;
  bg_r := 0; bg_g := 0; bg_b := 0; bg_a := 0;
  outline_width := 2;
  padding := 20;
  output_prefix := "output";
  verbose := false
|}.

(** Assignments to the fields of [opts]. *)
Definition set_font_name (v : string) (o : TextOptions) : TextOptions :=
  {| font_name := v; font_size := font_size o;
     text_r := text_r o; text_g := text_g o; text_b := text_b o;
     outline_r := outline_r o; outline_g := outline_g o;
     outline_b := outline_b o;
     bg_r := bg_r o; bg_g := bg_g o; bg_b := bg_b o; bg_a := bg_a o;
     outline_width := outline_width o; padding := padding o;
     output_prefix := output_prefix o; verbose := verbose o |}.

Definition set_font_size (v : Z) (o : TextOptions) : TextOptions :=
  {| font_name := font_name o; font_size := v;
     text_r := text_r o; text_g := text_g o; text_b := text_b o;
     outline_r := outline_r o; outline_g := outline_g o;
     outline_b := outline_b o;
     bg_r := bg_r o; bg_g := bg_g o; bg_b := bg_b o; bg_a := bg_a o;
     outline_width := outline_width o; padding := padding o;
     output_prefix := output_prefix o; verbose := verbose o |}.

Definition set_text_rgb (r g b : Q) (o : TextOptions) : TextOptions :=
  {| font_name := font_name o; font_size := font_size o;
     text_r := r; text_g := g; text_b := b;
     outline_r := outline_r o; outline_g := outline_g o;
     outline_b := outline_b o;
     bg_r := bg_r o; bg_g := bg_g o; bg_b := bg_b o; bg_a := bg_a o;
     outline_width := outline_width o; padding := padding o;
     output_prefix := output_prefix o; verbose := verbose o |}.

Definition set_outline_rgb (r g b : Q) (o : TextOptions) : TextOptions :=
  {| font_name := font_name o; font_size := font_size o;
     text_r := text_r o; text_g := text_g o; text_b := text_b o;
     outline_r := r; outline_g := g; outline_b := b;
     bg_r := bg_r o; bg_g := bg_g o; bg_b := bg_b o; bg_a := bg_a o;
     outline_width := outline_width o; padding := padding o;
     output_prefix := output_prefix o; verbose := verbose o |}.

Definition set_bg_rgba (r g b a : Q) (o : TextOptions) : TextOptions :=
  {| font_name := font_name o; font_size := font_size o;
     text_r := text_r o; text_g := text_g o; text_b := text_b o;
     outline_r := outline_r o; outline_g := outline_g o;
     outline_b := outline_b o;
     bg_r := r; bg_g := g; bg_b := b; bg_a := a;
     outline_width := outline_width o; padding := padding o;
     output_prefix := output_prefix o; verbose := verbose o |}.

Definition set_outline_width (v : Z) (o : TextOptions) : TextOptions :=
  {| font_name := font_name o; font_size := font_size o;
     text_r := text_r o; text_g := text_g o; text_b := text_b o;
     outline_r := outline_r o; outline_g := outline_g o;
     outline_b := outline_b o;
     bg_r := bg_r o; bg_g := bg_g o; bg_b := bg_b o; bg_a := bg_a o;
     outline_width := v; padding := padding o;
     output_prefix := output_prefix o; verbose := verbose o |}.

Definition set_padding (v : Z) (o : TextOptions) : TextOptions :=
  {| font_name := font_name o; font_size := font_size o;
     text_r := text_r o; text_g := text_g o; text_b := text_b o;
     outline_r := outline_r o; outline_g := outline_g o;
     outline_b := outline_b o;
     bg_r := bg_r o; bg_g := bg_g o; bg_b := bg_b o; bg_a := bg_a o;
     outline_width := outline_width o; padding := v;
     output_prefix := output_prefix o; verbose := verbose o |}.

Definition set_output_prefix (v : string) (o : TextOptions) : TextOptions :=
  {| font_name := font_name o; font_size := font_size o;
     text_r := text_r o; text_g := text_g o; text_b := text_b o;
     outline_r := outline_r o; outline_g := outline_g o;
     outline_b := outline_b o;
     bg_r := bg_r o; bg_g := bg_g o; bg_b := bg_b o; bg_a := bg_a o;
     outline_width := outline_width o; padding := padding o;
     output_prefix := v; verbose := verbose o |}.

Definition set_verbose (v : bool) (o : TextOptions) : TextOptions :=
  {| font_name := font_name o; font_size := font_size o;
     text_r := text_r o; text_g := text_g o; text_b := text_b o;
     outline_r := outline_r o; outline_g := outline_g o;
     outline_b := outline_b o;
     bg_r := bg_r o; bg_g := bg_g o; bg_b := bg_b o; bg_a := bg_a o;
     outline_width := outline_width o; padding := padding o;
     output_prefix := output_prefix o; verbose := v |}.

(** *** Cairo: what is measured and what is drawn *)

Record cairo_text_extents_t := {
  x_bearing : Q;
  y_bearing : Q;
  width : Q;
  height : Q;
  x_advance : Q;
  y_advance : Q
}.

(** The calls made on the drawing context [cr] of the image surface. *)
Inductive cairo_op : Type :=
| cairo_set_source_rgba (r g b a : Q)
| cairo_set_source_rgb (r g b : Q)
| cairo_paint
| cairo_set_font_face (font_file : string)
| cairo_set_font_size (size : Z)
| cairo_set_font_options_default_antialias
| cairo_move_to (x y : Q)
| cairo_text_path (text : string)
| cairo_set_line_width (w : Z)
| cairo_stroke_preserve
| cairo_fill.

(** An image surface: its pixel dimensions and what was drawn on it. *)
Record Surface := {
  surface_width : Z;
  surface_height : Z;
  surface_ops : list cairo_op
}.

(** *** The outside world of text2png *)

Record Backend := {
  (** [FT_Init_FreeType] succeeded (returned 0). *)
  FT_Init_FreeType : bool;
  (** [FcFontMatch] on the parsed name, then [FC_FILE] of the match: the
      font file, [None] when there is no match or no file. *)
  FcFontMatch_file : string -> option string;
  (** [FT_New_Face] on a font file succeeded (returned 0). *)
  FT_New_Face : string -> bool;
  (** [cairo_text_extents] for a font file, a font size and a text. *)
  cairo_text_extents : string -> Z -> string -> cairo_text_extents_t;
  (** [cairo_surface_write_to_png]: [None] for [CAIRO_STATUS_SUCCESS],
      otherwise the text [cairo_status_to_string] gives for the status. *)
  cairo_surface_write_to_png : Surface -> string -> option string;
  (** [FcInitLoadConfigAndFonts] returned a configuration. *)
  FcInitLoadConfigAndFonts : bool;
  (** [FcFontList]: [None] for a null font set, otherwise for each font
      its [FC_FAMILY] at index 0, [None] when it has none. *)
  FcFontList : option (list (option string));
  (** [sscanf(text, format, ...)] for a format of [n] conversions [%02x]:
      the values stored, in order; the value [sscanf] returns is their
      number when there is at least one. *)
  sscanf_x2 : nat -> string -> list Z;
  (** [std::stoi]: [None] when it throws. *)
  stoi : string -> option Z;
  (** [std::ifstream file(path)]: the content, [None] when it cannot be
      opened. *)
  ifstream : string -> option string
}.

(** What a run leaves behind: the two output streams and the PNG files
    written, oldest first, each with the surface it was written from. *)
Record World := {
  w_stdout : string;
  w_stderr : string;
  w_files : list (string * Surface)
}.

Definition world0 : World :=
  {| w_stdout := ""; w_stderr := ""; w_files := [] |}.

Definition put_stdout (s : string) (w : World) : World :=
  {| w_stdout := w_stdout w ++ s; w_stderr := w_stderr w;
     w_files := w_files w |}.

Definition put_stderr (s : string) (w : World) : World :=
  {| w_stdout := w_stdout w; w_stderr := w_stderr w ++ s;
     w_files := w_files w |}.

Definition wrote_file (name : string) (s : Surface) (w : World) : World :=
  {| w_stdout := w_stdout w; w_stderr := w_stderr w;
     w_files := w_files w ++ [(name, s)] |}.

(** *** Font listing *)

(** [std::set<std::string>] is kept as the ascending list of its elements,
    the order in which a range-for visits them; [std::less<std::string>]
    compares texts character by character as unsigned bytes.  [insert]
    leaves the set as it is when the element is already there. *)
Fixpoint set_insert (x : string) (s : list string) : list string :=
  match s with
  | [] => [x]
  | y :: s' =>
      match String.compare x y with
      | Lt => x :: s
      | Eq => s
      | Gt => y :: set_insert x s'
      end
  end.

(** The loop [for (int i = 0; i < font_set->nfont; i++)] of [list_fonts]
    over the families still to visit. *)
Fixpoint insert_families (families : list (option string))
    (unique_fonts : list string) : list string :=
  match families with
  | [] => unique_fonts
  | Some font_name :: rest =>
      insert_families rest (set_insert font_name unique_fonts)
  | None :: rest => insert_families rest unique_fonts
  end.

(** The loop printing [unique_fonts], entered with [index]. *)
Fixpoint print_indexed (names : list string) (index : Z) (w : World)
  : World :=
  match names with
  | [] => w
  | font_name :: rest =>
      print_indexed rest (index + 1)
        (put_stdout (string_of_Z index ++ ": " ++ font_name ++ NL) w)
  end.

Definition list_fonts (b : Backend) (w : World) : World :=
  if negb (FcInitLoadConfigAndFonts b) then
    put_stderr ("Could not initialize FontConfig" ++ NL) w
  else
    match FcFontList b with
    | Some families => print_indexed (insert_families families []) 1 w
    | None => w
    end.

(** *** Canvas sizing and rendering *)

(** The value of [full_width] before the minimum is applied: a sum of two
    doubles and two [int]s, from the left, each addition rounded. *)
Definition content_width (e : cairo_text_extents_t) (opts : TextOptions)
  : Q :=
  to_double
    (to_double
       (to_double (Qabs (x_bearing e) + width e)
        + inject_Z (padding opts * 2))
     + inject_Z (outline_width opts * 2)).

Definition content_height (e : cairo_text_extents_t) (opts : TextOptions)
  : Q :=
  to_double
    (to_double
       (to_double (Qabs (y_bearing e) + height e)
        + inject_Z (padding opts * 2))
     + inject_Z (outline_width opts * 2)).

(** The doubles the compiler makes of the constants [1.5] and [1.2]. *)
Definition literal_1_5 : Q := to_double (3 # 2).
Definition literal_1_2 : Q := to_double (6 # 5).

(** The values of [full_width] and [full_height] when the surface is
    created. *)
Definition full_width (e : cairo_text_extents_t) (opts : TextOptions) : Q :=
  let full_width := content_width e opts in
  if Qltb full_width (to_double (inject_Z (font_size opts) * literal_1_5))
  then to_double (inject_Z (font_size opts) * literal_1_5)
  else full_width.

Definition full_height (e : cairo_text_extents_t) (opts : TextOptions) : Q :=
  let full_height := content_height e opts in
  if Qltb full_height (inject_Z (font_size opts))
  then to_double (inject_Z (font_size opts) * literal_1_2)
  else full_height.

(** The arguments of [cairo_image_surface_create]. *)
Definition canvas_width (e : cairo_text_extents_t) (opts : TextOptions) : Z :=
  Qceiling (full_width e opts).

Definition canvas_height (e : cairo_text_extents_t) (opts : TextOptions)
  : Z :=
  Qceiling (full_height e opts).

Definition x_pos (e : cairo_text_extents_t) (opts : TextOptions) : Q :=
  inject_Z (padding opts + outline_width opts * 2) - x_bearing e.

Definition y_pos (e : cairo_text_extents_t) (opts : TextOptions) : Q :=
  inject_Z (padding opts + outline_width opts * 2) - y_bearing e
  + inject_Z (font_size opts).

Definition render_text_to_png (b : Backend) (text filename : string)
    (opts : TextOptions) (w : World) : World :=
  if negb (FT_Init_FreeType b) then
    put_stderr ("Could not init FreeType" ++ NL) w
  else
    match FcFontMatch_file b (font_name opts) with
    | None => put_stderr ("Could not find font: " ++ font_name opts ++ NL) w
    | Some font_file =>
        if negb (FT_New_Face b font_file) then
          put_stderr ("Could not load font file: " ++ font_file ++ NL) w
        else
          let extents :=
            cairo_text_extents b font_file (font_size opts) text in
          let background :=
            if Qltb 0 (bg_a opts)
            then [cairo_set_source_rgba (bg_r opts) (bg_g opts) (bg_b opts)
                    (bg_a opts); cairo_paint]
            else [cairo_set_source_rgba 0 0 0 0; cairo_paint] in
          let outline :=
            if 0 <? outline_width opts
            then [cairo_set_source_rgb (outline_r opts) (outline_g opts)
                    (outline_b opts);
                  cairo_set_line_width (outline_width opts);
                  cairo_stroke_preserve]
            else [] in
          let surface := {|
            surface_width := canvas_width extents opts;
            surface_height := canvas_height extents opts;
            surface_ops :=
              background
              ++ [cairo_set_font_face font_file;
                  cairo_set_font_size (font_size opts);
                  cairo_set_font_options_default_antialias;
                  cairo_move_to (x_pos extents opts) (y_pos extents opts);
                  cairo_text_path text]
              ++ outline
              ++ [cairo_set_source_rgb (text_r opts) (text_g opts)
                    (text_b opts);
                  cairo_fill] |} in
          match cairo_surface_write_to_png b surface filename with
          | None => wrote_file filename surface w
          | Some status =>
              put_stderr ("Error writing PNG: " ++ status ++ NL) w
          end
    end.

(** *** Command line *)

(** How a run that does not reach a [return] of [main] ends: by an
    exception that nothing catches ([std::stoi] on a text that is no
    number), or by reading a variable that was never written, from where on
    C++ gives the run no meaning (a real run goes on with whatever the
    variable held).  The world is what was printed and written up to
    there. *)
Inductive Abort : Type :=
| UncaughtException
| UninitializedRead.

Inductive Run (A : Type) : Type :=
| Normal (a : A)
| Aborted (why : Abort) (w : World).
Arguments Normal {A} a.
Arguments Aborted {A} why w.

Definition print_final_config (opts : TextOptions) (w : World) : World :=
  let channel (x : Q) := string_of_Z (trunc_to_int (x * 255)) in
  put_stdout
    (NL ++ "=== Final Configuration ===" ++ NL
     ++ "Font Name: " ++ font_name opts ++ NL
     ++ "Font Size: " ++ string_of_Z (font_size opts) ++ NL
     ++ "Text Color: RGB(" ++ channel (text_r opts) ++ ","
     ++ channel (text_g opts) ++ "," ++ channel (text_b opts) ++ ")" ++ NL
     ++ "Outline Color: RGB(" ++ channel (outline_r opts) ++ ","
     ++ channel (outline_g opts) ++ "," ++ channel (outline_b opts) ++ ")"
     ++ NL
     ++ "Outline Width: " ++ string_of_Z (outline_width opts) ++ NL
     ++ "Background Color: RGBA(" ++ channel (bg_r opts) ++ ","
     ++ channel (bg_g opts) ++ "," ++ channel (bg_b opts) ++ ","
     ++ channel (bg_a opts) ++ ")" ++ NL
     ++ "Padding: " ++ string_of_Z (padding opts) ++ NL
     ++ "Verbose Mode: " ++ (if verbose opts then "ON" else "OFF") ++ NL
     ++ "Output Prefix: " ++ output_prefix opts ++ NL
     ++ "==========================" ++ NL ++ NL) w.

Definition usage (argv0 : string) (w : World) : World :=
  put_stderr
    ("Usage: " ++ argv0 ++ " <input_file> <output_prefix> [options]" ++ NL
     ++ "   or: " ++ argv0 ++ " --list-fonts" ++ NL
     ++ "Options:" ++ NL
     ++ "  --font-name FONT       Font name (default: DejaVu Sans)" ++ NL
     ++ "  --font-size SIZE       Font size (default: 48)" ++ NL
     ++ "  --text-color COLOR     Text color (default: #FFFFFF)" ++ NL
     ++ "  --outline-color COLOR  Outline color (default: #000000)" ++ NL
     ++ "  --outline-width WIDTH  Outline width (default: 2)" ++ NL
     ++ "  --bg-color COLOR       Background color (default: transparent, #00000000)" ++ NL
     ++ "  --padding PADDING      Padding around text (default: 20)" ++ NL
     ++ "  -v, --verbose          Enable verbose output" ++ NL) w.

(** [if (color[0] == '#') color = color.substr(1);] *)
Definition strip_hash (color : string) : string :=
  match color with
  | String c rest => if Ascii.eqb c "#"%char then rest else color
  | EmptyString => color
  end.

(** [r / 255.0] for an [unsigned int r]. *)
Definition channel_of (r : Z) : Q := inject_Z r / 255.

(** The branch of [--text-color], given the value of the option. *)
Definition text_color_option (b : Backend) (value : string)
    (opts : TextOptions) (w : World) : TextOptions * World :=
  let color := strip_hash value in
  if (String.length color =? 6)%nat then
    match sscanf_x2 b 3 color with
    | [r; g; bl] =>
        (set_text_rgb (channel_of r) (channel_of g) (channel_of bl) opts,
         if verbose opts then
           put_stdout ("Parsed: text-color = #" ++ color ++ " -> RGB("
                       ++ string_of_Z r ++ "," ++ string_of_Z g ++ ","
                       ++ string_of_Z bl ++ ")" ++ NL) w
         else w)
    | _ =>
        (opts,
         put_stderr ("Warning: Could not parse text color: " ++ color ++ NL)
           w)
    end
  else
    (opts,
     put_stderr ("Warning: Invalid text color format: " ++ color
                 ++ " (expected #RRGGBB)" ++ NL) w).

(** The branch of [--outline-color]. *)
Definition outline_color_option (b : Backend) (value : string)
    (opts : TextOptions) (w : World) : TextOptions * World :=
  let color := strip_hash value in
  if (String.length color =? 6)%nat then
    match sscanf_x2 b 3 color with
    | [r; g; bl] =>
        (set_outline_rgb (channel_of r) (channel_of g) (channel_of bl) opts,
         if verbose opts then
           put_stdout ("Parsed: outline-color = #" ++ color ++ " -> RGB("
                       ++ string_of_Z r ++ "," ++ string_of_Z g ++ ","
                       ++ string_of_Z bl ++ ")" ++ NL) w
         else w)
    | _ =>
        (opts,
         put_stderr ("Warning: Could not parse outline color: " ++ color
                     ++ NL) w)
    end
  else
    (opts,
     put_stderr ("Warning: Invalid outline color format: " ++ color
                 ++ " (expected #RRGGBB)" ++ NL) w).

(** The branch of [--bg-color].  The result of [sscanf] is not looked at:
    [r], [g] and [b] are read whether or not they were stored, and [a] keeps
    its initial 255 when no fourth value was stored.  Reading one of the
    three when [sscanf] stored fewer is reading a variable that was never
    written; the model ends the run there, with what was printed so far. *)
Definition bg_color_option (b : Backend) (value : string)
    (opts : TextOptions) (w : World) : Run (TextOptions * World) :=
  let color := strip_hash value in
  if ((String.length color =? 6) || (String.length color =? 8))%nat then
    let stored :=
      if (String.length color =? 8)%nat then sscanf_x2 b 4 color
      else sscanf_x2 b 3 color in
    match stored with
    | r :: g :: bl :: more =>
        let a := match more with
                 | a :: _ => a
                 | [] => 255
                 end in
        Normal
          (set_bg_rgba (channel_of r) (channel_of g) (channel_of bl)
             (channel_of a) opts,
           if verbose opts then
             put_stdout ("Parsed: bg-color = #" ++ color ++ " -> RGB("
                         ++ string_of_Z r ++ "," ++ string_of_Z g ++ ","
                         ++ string_of_Z bl ++ "), A=" ++ string_of_Z a ++ NL)
               w
           else w)
    | _ => Aborted UninitializedRead w
    end
  else Normal (opts, w).

(** [for (int i = 3; i < argc; i++)] over the arguments from [argv[i]] on.
    An option that takes a value is recognised only when a value follows
    it; an argument that is no recognised option is passed over. *)
Fixpoint parse_options (b : Backend) (args : list string)
    (opts : TextOptions) (w : World) : Run (TextOptions * World) :=
  match args with
  | [] => Normal (opts, w)
  | opt :: rest =>
      let flag_or_skip :=
        if (String.eqb opt "-v" || String.eqb opt "--verbose")%bool
        then parse_options b rest (set_verbose true opts)
               (put_stdout ("Verbose mode enabled" ++ NL) w)
        else parse_options b rest opts w in
      match rest with
      | [] => flag_or_skip
      | value :: rest' =>
          let say (what : string) :=
            if verbose opts then put_stdout (what ++ NL) w else w in
          if String.eqb opt "--font-name" then
            let o := set_font_name value opts in
            parse_options b rest' o
              (say ("Parsed: font-name = " ++ font_name o))
          else if String.eqb opt "--font-size" then
            match stoi b value with
            | None => Aborted UncaughtException w
            | Some n =>
                let o := set_font_size n opts in
                parse_options b rest' o
                  (say ("Parsed: font-size = " ++ string_of_Z n))
            end
          else if String.eqb opt "--text-color" then
            let (o, w') := text_color_option b value opts w in
            parse_options b rest' o w'
          else if String.eqb opt "--outline-color" then
            let (o, w') := outline_color_option b value opts w in
            parse_options b rest' o w'
          else if String.eqb opt "--bg-color" then
            match bg_color_option b value opts w with
            | Normal (o, w') => parse_options b rest' o w'
            | Aborted why w' => Aborted why w'
            end
          else if String.eqb opt "--outline-width" then
            match stoi b value with
            | None => Aborted UncaughtException w
            | Some n =>
                let o := set_outline_width n opts in
                parse_options b rest' o
                  (say ("Parsed: outline-width = " ++ string_of_Z n))
            end
          else if String.eqb opt "--padding" then
            match stoi b value with
            | None => Aborted UncaughtException w
            | Some n =>
                let o := set_padding n opts in
                parse_options b rest' o
                  (say ("Parsed: padding = " ++ string_of_Z n))
            end
          else flag_or_skip
      end
  end.

(** *** The batch driver *)

(** The [while (std::getline(file, line))] loop of [main] over the lines
    still to read, entered with [line_number]. *)
Fixpoint line_loop (b : Backend) (opts : TextOptions) (lines : list string)
    (line_number : Z) (w : World) : World :=
  match lines with
  | [] => w
  | line :: rest =>
      if negb (String.eqb line "") then
        let output_filename :=
          output_prefix opts ++ string_of_Z line_number ++ ".png" in
        let w := render_text_to_png b line output_filename opts w in
        let w := put_stdout ("Created: " ++ output_filename ++ NL) w in
        line_loop b opts rest (line_number + 1) w
      else line_loop b opts rest line_number w
  end.

(** [main] on [argv]; the result is how the run ended (the exit status when
    [main] returned) and the world left behind. *)
Definition main (b : Backend) (argv : list string) : Run Z * World :=
  let w := world0 in
  match argv with
  | [] => (Normal 1, usage "" w)
  | [argv0] => (Normal 1, usage argv0 w)
  | argv0 :: argv1 :: more =>
      if String.eqb argv1 "--list-fonts" then (Normal 0, list_fonts b w)
      else
        match more with
        | [] => (Normal 1, usage argv0 w)
        | output_prefix :: args =>
            let input_file := argv1 in
            let opts := set_output_prefix output_prefix default_options in
            match parse_options b args opts w with
            | Aborted why w' => (Aborted why w', w')
            | Normal (opts, w) =>
                let w := if verbose opts then print_final_config opts w
                         else w in
                match ifstream b input_file with
                | None =>
                    (Normal 1,
                     put_stderr ("Could not open input file: " ++ input_file
                                 ++ NL) w)
                | Some content =>
                    (Normal 0, line_loop b opts (getlines content) 1 w)
                end
            end
        end
  end.

End Text2png.

(** ** The documented behaviour, in the words of the specification *)

Module Spec.
Import Cxx.

(** A text with a backslash put before each backslash and each double quote
    and every other character left as it is. *)
Definition needs_backslash (c : ascii) : bool :=
  (Ascii.eqb c backslash_char || Ascii.eqb c dquote_char)%bool.

Fixpoint insert_backslashes (s : string) : string :=
  match s with
  | EmptyString => EmptyString
  | String c s' =>
      if needs_backslash c
      then String backslash_char (String c (insert_backslashes s'))
      else String c (insert_backslashes s')
  end.

(** Reading an escaped text back: a backslash stands for the character that
    follows it. *)
Fixpoint remove_backslashes (s : string) : string :=
  match s with
  | EmptyString => EmptyString
  | String c s' =>
      if Ascii.eqb c backslash_char then
        match s' with
        | String c' s'' => String c' (remove_backslashes s'')
        | EmptyString => EmptyString
        end
      else String c (remove_backslashes s')
  end.

(** A text of white space only. *)
Fixpoint all_space (s : string) : bool :=
  match s with
  | EmptyString => true
  | String c s' => (isspace c && all_space s')%bool
  end.

(** The first and the last character of a text. *)
Definition first_char (s : string) : option ascii :=
  match s with
  | EmptyString => None
  | String c _ => Some c
  end.

Fixpoint last_char (s : string) : option ascii :=
  match s with
  | EmptyString => None
  | String c EmptyString => Some c
  | String _ s' => last_char s'
  end.

(** A text that neither begins nor ends with white space. *)
Definition no_outer_space (s : string) : Prop :=
  (forall c, first_char s = Some c -> isspace c = false) /\
  (forall c, last_char s = Some c -> isspace c = false).

(** The three parts of an offset-halo command: the text in the outline
    colour kept as the base layer [mpr:outline], one copy of the base layer
    composited over the canvas, centred and shifted by [(dx, dy)], and the
    text in the fill colour composited over everything, centred and not
    shifted, with the output file. *)
Definition outline_base (im_exe text font : string) (point_size : Z)
    (outline_color : string) : string :=
  im_exe ++ " -background none" ++ Txt2png.font_arg font
  ++ " -pointsize " ++ string_of_Z point_size
  ++ " -fill " ++ DQ ++ outline_color ++ DQ
  ++ " label:" ++ DQ ++ Txt2png.escape_for_label text ++ DQ
  ++ " -write mpr:outline +delete " ++ " mpr:outline".

Definition shifted_copy (shift : Z * Z) : string :=
  " mpr:outline -background none -gravity center -geometry +"
  ++ string_of_Z (fst shift) ++ "+" ++ string_of_Z (snd shift)
  ++ " -compose over -composite".

Definition fill_on_top (text font : string) (point_size : Z)
    (fill_color out_path : string) : string :=
  " ( -background none" ++ Txt2png.font_arg font
  ++ " -pointsize " ++ string_of_Z point_size
  ++ " -fill " ++ DQ ++ fill_color ++ DQ
  ++ " label:" ++ DQ ++ Txt2png.escape_for_label text ++ DQ
  ++ " ) -gravity center -compose over -composite"
  ++ " PNG32:" ++ DQ ++ out_path ++ DQ.

(** The shift the program gives the [k]-th copy out of [d] for a thickness
    [t], with the cosine and the sine of the C library. *)
Definition halo_shift (cos sin : Q -> Q) (t d k : Z) : Z * Z :=
  (Txt2png.offset_dx cos (inject_Z t) d k,
   Txt2png.offset_dy sin (inject_Z t) d k).

(** The shifts of the copies [0 .. d-1]. *)
Definition halo_shifts (cos sin : Q -> Q) (t d : Z) : list (Z * Z) :=
  map (fun k => halo_shift cos sin t d (Z.of_nat k)) (seq 0 (Z.to_nat d)).

(** [needle] occurs in [hay]. *)
Fixpoint occurs (needle hay : string) : bool :=
  (String.prefix needle hay
   || match hay with
      | EmptyString => false
      | String _ hay' => occurs needle hay'
      end)%bool.

(** A command that draws something in [color]. *)
Definition draws_in_color (color cmd : string) : bool :=
  occurs (" -fill " ++ DQ ++ color ++ DQ) cmd.

(** The value of a hexadecimal digit. *)
Definition hex_digit (c : ascii) : option Z :=
  let n := Z.of_nat (nat_of_ascii c) in
  if ((48 <=? n) && (n <=? 57))%bool then Some (n - 48)
  else if ((97 <=? n) && (n <=? 102))%bool then Some (n - 87)
  else if ((65 <=? n) && (n <=? 70))%bool then Some (n - 55)
  else None.

(** The bytes a text of hexadecimal digits denotes, two digits each;
    [None] for a text that is not an even number of hexadecimal digits. *)
Fixpoint hex_pairs (s : string) : option (list Z) :=
  match s with
  | EmptyString => Some []
  | String c1 (String c2 s') =>
      match hex_digit c1, hex_digit c2, hex_pairs s' with
      | Some a, Some b, Some l => Some ((16 * a + b) :: l)
      | _, _, _ => None
      end
  | String _ EmptyString => None
  end.

(** What the C standard asks of [sscanf] on such a text, one [%02x] for
    each pair of digits. *)
Definition sscanf_conforms (b : Text2png.Backend) : Prop :=
  forall s bytes,
    hex_pairs s = Some bytes ->
    Text2png.sscanf_x2 b (List.length bytes) s = bytes.

(** Texts in ascending order, characters compared as unsigned bytes. *)
Definition str_lt (a b : string) : Prop := String.compare a b = Lt.

(** A numbered listing: one line [index: name] for each name. *)
Definition listing (entries : list (Z * string)) : string :=
  concat_str
    (map (fun j => string_of_Z (fst j) ++ ": " ++ snd j ++ NL) entries).

(** The lines of a file, each with its position counted from [start]. *)
Definition numbered_from (start : Z) (lines : list string)
  : list (Z * string) :=
  combine (map (fun i => start + Z.of_nat i) (seq 0 (List.length lines)))
          lines.

(** The render jobs when the numbering reflects the position in the file:
    the lines that are not white space only, each trimmed and with its
    position. *)
Definition jobs_by_position (start : Z) (lines : list string)
  : list (Z * string) :=
  map (fun j => (fst j, Txt2png.trim (snd j)))
    (filter (fun j => negb (all_space (snd j))) (numbered_from start lines)).

(** The render jobs when the numbering is consecutive over the lines that
    are rendered: the non-empty lines, numbered from [start]. *)
Definition jobs_consecutive (start : Z) (lines : list string)
  : list (Z * string) :=
  numbered_from start (filter (fun l => negb (String.eqb l "")) lines).

(** The output file of a job. *)
Definition output_name (prefix : string) (n : Z) : string :=
  prefix ++ string_of_Z n ++ ".png".

End Spec.

(** ** Sample environments *)

(** ** The ring of the offset halo over the real numbers

    The shift of the [k]-th copy as a formula of real numbers: the point of
    the circle of radius [t] at the angle [2 pi k / d], each coordinate
    rounded to the nearest integer, halves away from zero. *)

Module Ideal.
Import Reals.
#[local] Open Scope R_scope.

(** [up x] is the integer with [x < up x <= x + 1], so [up x - 1] is the
    floor of [x]. *)
Definition round_half_away (x : R) : Z :=
  if Rle_dec 0 x then (up (x + / 2) - 1)%Z
  else (- (up (- x + / 2) - 1))%Z.

Definition ring_shift (t d k : Z) : Z * Z :=
  (round_half_away (IZR t * cos (2 * PI * IZR k / IZR d)),
   round_half_away (IZR t * sin (2 * PI * IZR k / IZR d))).

End Ideal.

Module Samples.
Import Cxx.

(** The cosine and the sine at the angle 0, as constant functions. *)
Definition cos_at_0 : Q -> Q := fun _ => 1%Q.
Definition sin_at_0 : Q -> Q := fun _ => 0%Q.

(** The six angles of [--offset-directions 6] as the program computes
    them, each with the values that glibc's [cos] and [sin] return there,
    written as [printf("%a")] prints them. *)
Definition six_directions : list (Q * (Q * Q)) :=
  [ (0%Q, (1%Q, 0%Q));
    (0x1.0c152382d7365p+0%xQ,
     (0x1.0000000000001p-1%xQ, 0x1.bb67ae8584caap-1%xQ));
    (0x1.0c152382d7365p+1%xQ,
     ((-0x1.ffffffffffffcp-2)%xQ, 0x1.bb67ae8584cabp-1%xQ));
    (0x1.921fb54442d18p+1%xQ,
     ((-1)%Q, 0x1.1a62633145c07p-53%xQ));
    (0x1.0c152382d7365p+2%xQ,
     ((-0x1.0000000000004p-1)%xQ, (-0x1.bb67ae8584ca8p-1)%xQ));
    (0x1.4f1a6c638d03fp+2%xQ,
     (0x1.0000000000001p-1%xQ, (-0x1.bb67ae8584caap-1)%xQ)) ].

Definition at_angle (x : Q) : option (Q * Q) :=
  option_map snd (find (fun entry => Qeq_bool (fst entry) x) six_directions).

(** A C library that is glibc at these six angles, with the values at the
    angle 0 elsewhere. *)
Definition libm_cos (x : Q) : Q :=
  match at_angle x with
  | Some (c, _) => c
  | None => 1%Q
  end.

Definition libm_sin (x : Q) : Q :=
  match at_angle x with
  | Some (_, s) => s
  | None => 0%Q
  end.

(** A machine with [magick], where the command writing [out2.png] fails
    with status 1, and an input file of three lines. *)
Definition three_lines : string :=
  "one" ++ NL ++ "  two " ++ NL ++ "three" ++ NL.

Definition second_fails : Txt2png.Env := {|
  Txt2png.system := fun cmd =>
    if String.eqb cmd "magick -version > /dev/null 2>&1" then 0
    else if Spec.occurs "out2.png" cmd then 1 else 0;
  Txt2png.popen := fun _ => None;
  Txt2png.ifstream := fun path =>
    if String.eqb path "in.txt" then Some three_lines else None
|}.

(** A machine whose ImageMagick lists one font twice. *)
Definition font_listed_twice : Txt2png.Env := {|
  Txt2png.system := fun _ => 0;
  Txt2png.popen := fun cmd =>
    if String.eqb cmd "magick -list font 2>/dev/null"
    then Some ("Path: System Fonts" ++ NL
               ++ "  Font: Helvetica" ++ NL ++ "    family: Helvetica" ++ NL
               ++ "  Font: Helvetica" ++ NL ++ "    family: Helvetica" ++ NL)
    else None;
  Txt2png.ifstream := fun _ => None
|}.

(** The options [--input in.txt --prefix out], and the same with
    [--list-fonts]. *)
Definition in_out : Txt2png.Options := {|
  Txt2png.input_path := "in.txt";
  Txt2png.prefix := "out";
  Txt2png.start_index := 1;
  Txt2png.font_name := "";
  Txt2png.font_index := -1;
  Txt2png.point_size := 64;
  Txt2png.fill_color := "#FFFFFF";
  Txt2png.outline_color := "#000000";
  Txt2png.outline_thickness := 4;
  Txt2png.list_fonts := false;
  Txt2png.use_offset_outline := false;
  Txt2png.offset_directions := 36;
  Txt2png.dry_run := false;
  Txt2png.im_exe := ""
|}.

Definition only_list_fonts : Txt2png.Options := {|
  Txt2png.input_path := "";
  Txt2png.prefix := "";
  Txt2png.start_index := 1;
  Txt2png.font_name := "";
  Txt2png.font_index := -1;
  Txt2png.point_size := 64;
  Txt2png.fill_color := "#FFFFFF";
  Txt2png.outline_color := "#000000";
  Txt2png.outline_thickness := 4;
  Txt2png.list_fonts := true;
  Txt2png.use_offset_outline := false;
  Txt2png.offset_directions := 36;
  Txt2png.dry_run := false;
  Txt2png.im_exe := ""
|}.

(** A scanner for texts of hexadecimal digits: on them it stores what
    [sscanf] stores for [n] conversions [%02x], two digits at a time.  It
    stops at the first character that is no hexadecimal digit, where
    [sscanf] would go on through white space, a sign or a [0x] prefix. *)
Fixpoint scan_hex (n : nat) (s : string) : list Z :=
  match n with
  | O => []
  | S n' =>
      match s with
      | EmptyString => []
      | String c1 rest =>
          match Spec.hex_digit c1 with
          | None => []
          | Some a =>
              match rest with
              | EmptyString => [a]
              | String c2 rest' =>
                  match Spec.hex_digit c2 with
                  | None => [a]
                  | Some b => (16 * a + b) :: scan_hex n' rest'
                  end
              end
          end
      end
  end.

(** The extents of a text with an ink box 40 wide and 55 high that sits on
    the baseline. *)
Definition sample_extents : Text2png.cairo_text_extents_t := {|
  Text2png.x_bearing := 2;
  Text2png.y_bearing := -55;
  Text2png.width := 40;
  Text2png.height := 55;
  Text2png.x_advance := 44;
  Text2png.y_advance := 0
|}.

(** A machine where everything works, with an input file of two lines, and
    one where no font matches. *)
Definition two_lines : string := "one" ++ NL ++ "two" ++ NL.

Definition all_fine : Text2png.Backend := {|
  Text2png.FT_Init_FreeType := true;
  Text2png.FcFontMatch_file := fun _ => Some "/fonts/DejaVuSans.ttf";
  Text2png.FT_New_Face := fun _ => true;
  Text2png.cairo_text_extents := fun _ _ _ => sample_extents;
  Text2png.cairo_surface_write_to_png := fun _ _ => None;
  Text2png.FcInitLoadConfigAndFonts := true;
  Text2png.FcFontList :=
    Some [Some "Noto Sans"; Some "DejaVu Sans"; None; Some "Noto Sans";
          Some "noto sans"];
  Text2png.sscanf_x2 := scan_hex;
  Text2png.stoi := fun _ => None;
  Text2png.ifstream := fun _ => Some two_lines
|}.

Definition no_font : Text2png.Backend := {|
  Text2png.FT_Init_FreeType := true;
  Text2png.FcFontMatch_file := fun _ => None;
  Text2png.FT_New_Face := fun _ => true;
  Text2png.cairo_text_extents := fun _ _ _ => sample_extents;
  Text2png.cairo_surface_write_to_png := fun _ _ => None;
  Text2png.FcInitLoadConfigAndFonts := true;
  Text2png.FcFontList := Some [];
  Text2png.sscanf_x2 := scan_hex;
  Text2png.stoi := fun _ => None;
  Text2png.ifstream := fun _ => Some two_lines
|}.

(** The options [--font-size 100 --outline-width 0 --padding 0]. *)
Definition size_100_bare : Text2png.TextOptions :=
  Text2png.set_padding 0
    (Text2png.set_outline_width 0
       (Text2png.set_font_size 100 Text2png.default_options)).

End Samples.

(** ** The command line of txt2png *)

Module Txt2pngCli.
Import Cxx.

(** Assignments to the fields of [opt]. *)
Definition set_input_path (v : string) (opt : Txt2png.Options) : Txt2png.Options :=
  {| Txt2png.input_path := v;
     Txt2png.prefix := Txt2png.prefix opt;
     Txt2png.start_index := Txt2png.start_index opt;
     Txt2png.font_name := Txt2png.font_name opt;
     Txt2png.font_index := Txt2png.font_index opt;
     Txt2png.point_size := Txt2png.point_size opt;
     Txt2png.fill_color := Txt2png.fill_color opt;
     Txt2png.outline_color := Txt2png.outline_color opt;
     Txt2png.outline_thickness := Txt2png.outline_thickness opt;
     Txt2png.list_fonts := Txt2png.list_fonts opt;
     Txt2png.use_offset_outline := Txt2png.use_offset_outline opt;
     Txt2png.offset_directions := Txt2png.offset_directions opt;
     Txt2png.dry_run := Txt2png.dry_run opt;
     Txt2png.im_exe := Txt2png.im_exe opt |}.

Definition set_prefix (v : string) (opt : Txt2png.Options) : Txt2png.Options :=
  {| Txt2png.input_path := Txt2png.input_path opt;
     Txt2png.prefix := v;
     Txt2png.start_index := Txt2png.start_index opt;
     Txt2png.font_name := Txt2png.font_name opt;
     Txt2png.font_index := Txt2png.font_index opt;
     Txt2png.point_size := Txt2png.point_size opt;
     Txt2png.fill_color := Txt2png.fill_color opt;
     Txt2png.outline_color := Txt2png.outline_color opt;
     Txt2png.outline_thickness := Txt2png.outline_thickness opt;
     Txt2png.list_fonts := Txt2png.list_fonts opt;
     Txt2png.use_offset_outline := Txt2png.use_offset_outline opt;
     Txt2png.offset_directions := Txt2png.offset_directions opt;
     Txt2png.dry_run := Txt2png.dry_run opt;
     Txt2png.im_exe := Txt2png.im_exe opt |}.

Definition set_start_index (v : Z) (opt : Txt2png.Options) : Txt2png.Options :=
  {| Txt2png.input_path := Txt2png.input_path opt;
     Txt2png.prefix := Txt2png.prefix opt;
     Txt2png.start_index := v;
     Txt2png.font_name := Txt2png.font_name opt;
     Txt2png.font_index := Txt2png.font_index opt;
     Txt2png.point_size := Txt2png.point_size opt;
     Txt2png.fill_color := Txt2png.fill_color opt;
     Txt2png.outline_color := Txt2png.outline_color opt;
     Txt2png.outline_thickness := Txt2png.outline_thickness opt;
     Txt2png.list_fonts := Txt2png.list_fonts opt;
     Txt2png.use_offset_outline := Txt2png.use_offset_outline opt;
     Txt2png.offset_directions := Txt2png.offset_directions opt;
     Txt2png.dry_run := Txt2png.dry_run opt;
     Txt2png.im_exe := Txt2png.im_exe opt |}.

Definition set_font_name (v : string) (opt : Txt2png.Options) : Txt2png.Options :=
  {| Txt2png.input_path := Txt2png.input_path opt;
     Txt2png.prefix := Txt2png.prefix opt;
     Txt2png.start_index := Txt2png.start_index opt;
     Txt2png.font_name := v;
     Txt2png.font_index := Txt2png.font_index opt;
     Txt2png.point_size := Txt2png.point_size opt;
     Txt2png.fill_color := Txt2png.fill_color opt;
     Txt2png.outline_color := Txt2png.outline_color opt;
     Txt2png.outline_thickness := Txt2png.outline_thickness opt;
     Txt2png.list_fonts := Txt2png.list_fonts opt;
     Txt2png.use_offset_outline := Txt2png.use_offset_outline opt;
     Txt2png.offset_directions := Txt2png.offset_directions opt;
     Txt2png.dry_run := Txt2png.dry_run opt;
     Txt2png.im_exe := Txt2png.im_exe opt |}.

Definition set_font_index (v : Z) (opt : Txt2png.Options) : Txt2png.Options :=
  {| Txt2png.input_path := Txt2png.input_path opt;
     Txt2png.prefix := Txt2png.prefix opt;
     Txt2png.start_index := Txt2png.start_index opt;
     Txt2png.font_name := Txt2png.font_name opt;
     Txt2png.font_index := v;
     Txt2png.point_size := Txt2png.point_size opt;
     Txt2png.fill_color := Txt2png.fill_color opt;
     Txt2png.outline_color := Txt2png.outline_color opt;
     Txt2png.outline_thickness := Txt2png.outline_thickness opt;
     Txt2png.list_fonts := Txt2png.list_fonts opt;
     Txt2png.use_offset_outline := Txt2png.use_offset_outline opt;
     Txt2png.offset_directions := Txt2png.offset_directions opt;
     Txt2png.dry_run := Txt2png.dry_run opt;
     Txt2png.im_exe := Txt2png.im_exe opt |}.

Definition set_point_size (v : Z) (opt : Txt2png.Options) : Txt2png.Options :=
  {| Txt2png.input_path := Txt2png.input_path opt;
     Txt2png.prefix := Txt2png.prefix opt;
     Txt2png.start_index := Txt2png.start_index opt;
     Txt2png.font_name := Txt2png.font_name opt;
     Txt2png.font_index := Txt2png.font_index opt;
     Txt2png.point_size := v;
     Txt2png.fill_color := Txt2png.fill_color opt;
     Txt2png.outline_color := Txt2png.outline_color opt;
     Txt2png.outline_thickness := Txt2png.outline_thickness opt;
     Txt2png.list_fonts := Txt2png.list_fonts opt;
     Txt2png.use_offset_outline := Txt2png.use_offset_outline opt;
     Txt2png.offset_directions := Txt2png.offset_directions opt;
     Txt2png.dry_run := Txt2png.dry_run opt;
     Txt2png.im_exe := Txt2png.im_exe opt |}.

Definition set_fill_color (v : string) (opt : Txt2png.Options) : Txt2png.Options :=
  {| Txt2png.input_path := Txt2png.input_path opt;
     Txt2png.prefix := Txt2png.prefix opt;
     Txt2png.start_index := Txt2png.start_index opt;
     Txt2png.font_name := Txt2png.font_name opt;
     Txt2png.font_index := Txt2png.font_index opt;
     Txt2png.point_size := Txt2png.point_size opt;
     Txt2png.fill_color := v;
     Txt2png.outline_color := Txt2png.outline_color opt;
     Txt2png.outline_thickness := Txt2png.outline_thickness opt;
     Txt2png.list_fonts := Txt2png.list_fonts opt;
     Txt2png.use_offset_outline := Txt2png.use_offset_outline opt;
     Txt2png.offset_directions := Txt2png.offset_directions opt;
     Txt2png.dry_run := Txt2png.dry_run opt;
     Txt2png.im_exe := Txt2png.im_exe opt |}.

Definition set_outline_color (v : string) (opt : Txt2png.Options) : Txt2png.Options :=
  {| Txt2png.input_path := Txt2png.input_path opt;
     Txt2png.prefix := Txt2png.prefix opt;
     Txt2png.start_index := Txt2png.start_index opt;
     Txt2png.font_name := Txt2png.font_name opt;
     Txt2png.font_index := Txt2png.font_index opt;
     Txt2png.point_size := Txt2png.point_size opt;
     Txt2png.fill_color := Txt2png.fill_color opt;
     Txt2png.outline_color := v;
     Txt2png.outline_thickness := Txt2png.outline_thickness opt;
     Txt2png.list_fonts := Txt2png.list_fonts opt;
     Txt2png.use_offset_outline := Txt2png.use_offset_outline opt;
     Txt2png.offset_directions := Txt2png.offset_directions opt;
     Txt2png.dry_run := Txt2png.dry_run opt;
     Txt2png.im_exe := Txt2png.im_exe opt |}.

Definition set_outline_thickness (v : Z) (opt : Txt2png.Options) : Txt2png.Options :=
  {| Txt2png.input_path := Txt2png.input_path opt;
     Txt2png.prefix := Txt2png.prefix opt;
     Txt2png.start_index := Txt2png.start_index opt;
     Txt2png.font_name := Txt2png.font_name opt;
     Txt2png.font_index := Txt2png.font_index opt;
     Txt2png.point_size := Txt2png.point_size opt;
     Txt2png.fill_color := Txt2png.fill_color opt;
     Txt2png.outline_color := Txt2png.outline_color opt;
     Txt2png.outline_thickness := v;
     Txt2png.list_fonts := Txt2png.list_fonts opt;
     Txt2png.use_offset_outline := Txt2png.use_offset_outline opt;
     Txt2png.offset_directions := Txt2png.offset_directions opt;
     Txt2png.dry_run := Txt2png.dry_run opt;
     Txt2png.im_exe := Txt2png.im_exe opt |}.

Definition set_list_fonts (v : bool) (opt : Txt2png.Options) : Txt2png.Options :=
  {| Txt2png.input_path := Txt2png.input_path opt;
     Txt2png.prefix := Txt2png.prefix opt;
     Txt2png.start_index := Txt2png.start_index opt;
     Txt2png.font_name := Txt2png.font_name opt;
     Txt2png.font_index := Txt2png.font_index opt;
     Txt2png.point_size := Txt2png.point_size opt;
     Txt2png.fill_color := Txt2png.fill_color opt;
     Txt2png.outline_color := Txt2png.outline_color opt;
     Txt2png.outline_thickness := Txt2png.outline_thickness opt;
     Txt2png.list_fonts := v;
     Txt2png.use_offset_outline := Txt2png.use_offset_outline opt;
     Txt2png.offset_directions := Txt2png.offset_directions opt;
     Txt2png.dry_run := Txt2png.dry_run opt;
     Txt2png.im_exe := Txt2png.im_exe opt |}.

Definition set_use_offset_outline (v : bool) (opt : Txt2png.Options) : Txt2png.Options :=
  {| Txt2png.input_path := Txt2png.input_path opt;
     Txt2png.prefix := Txt2png.prefix opt;
     Txt2png.start_index := Txt2png.start_index opt;
     Txt2png.font_name := Txt2png.font_name opt;
     Txt2png.font_index := Txt2png.font_index opt;
     Txt2png.point_size := Txt2png.point_size opt;
     Txt2png.fill_color := Txt2png.fill_color opt;
     Txt2png.outline_color := Txt2png.outline_color opt;
     Txt2png.outline_thickness := Txt2png.outline_thickness opt;
     Txt2png.list_fonts := Txt2png.list_fonts opt;
     Txt2png.use_offset_outline := v;
     Txt2png.offset_directions := Txt2png.offset_directions opt;
     Txt2png.dry_run := Txt2png.dry_run opt;
     Txt2png.im_exe := Txt2png.im_exe opt |}.

Definition set_offset_directions (v : Z) (opt : Txt2png.Options) : Txt2png.Options :=
  {| Txt2png.input_path := Txt2png.input_path opt;
     Txt2png.prefix := Txt2png.prefix opt;
     Txt2png.start_index := Txt2png.start_index opt;
     Txt2png.font_name := Txt2png.font_name opt;
     Txt2png.font_index := Txt2png.font_index opt;
     Txt2png.point_size := Txt2png.point_size opt;
     Txt2png.fill_color := Txt2png.fill_color opt;
     Txt2png.outline_color := Txt2png.outline_color opt;
     Txt2png.outline_thickness := Txt2png.outline_thickness opt;
     Txt2png.list_fonts := Txt2png.list_fonts opt;
     Txt2png.use_offset_outline := Txt2png.use_offset_outline opt;
     Txt2png.offset_directions := v;
     Txt2png.dry_run := Txt2png.dry_run opt;
     Txt2png.im_exe := Txt2png.im_exe opt |}.

Definition set_dry_run (v : bool) (opt : Txt2png.Options) : Txt2png.Options :=
  {| Txt2png.input_path := Txt2png.input_path opt;
     Txt2png.prefix := Txt2png.prefix opt;
     Txt2png.start_index := Txt2png.start_index opt;
     Txt2png.font_name := Txt2png.font_name opt;
     Txt2png.font_index := Txt2png.font_index opt;
     Txt2png.point_size := Txt2png.point_size opt;
     Txt2png.fill_color := Txt2png.fill_color opt;
     Txt2png.outline_color := Txt2png.outline_color opt;
     Txt2png.outline_thickness := Txt2png.outline_thickness opt;
     Txt2png.list_fonts := Txt2png.list_fonts opt;
     Txt2png.use_offset_outline := Txt2png.use_offset_outline opt;
     Txt2png.offset_directions := Txt2png.offset_directions opt;
     Txt2png.dry_run := v;
     Txt2png.im_exe := Txt2png.im_exe opt |}.

Definition print_help (argv0 : string) (w : Txt2png.World) : Txt2png.World :=
  Txt2png.put_stdout
    ("Usage:" ++ NL
     ++ "  " ++ argv0 ++ " --input FILE [options]" ++ NL ++ NL
     ++ "Options:" ++ NL
     ++ "  --input FILE            Input text file (one image per non-empty line)" ++ NL
     ++ "  --prefix STR            Output prefix. Files are '<prefix><N>.png' (default: none)" ++ NL
     ++ "  --start-index N         First line number for filenames (default: 1)" ++ NL
     ++ "  --font NAME             Font family/name to use" ++ NL
     ++ "  --font-index N          Pick font by 1-based index from --list-fonts" ++ NL
     ++ "  --size N                Point size (default: 64)" ++ NL
     ++ "  --color HEX             Text fill color (default: #FFFFFF)" ++ NL
     ++ "  --outline-color HEX     Outline (stroke) color (default: #000000)" ++ NL
     ++ "  --outline N             Outline thickness in px (default: 4)" ++ NL
     ++ "  --list-fonts            Print available fonts with indices and exit" ++ NL
     ++ "  --outline-method METHOD Outline method: 'stroke' (default) or 'offset'" ++ NL
     ++ "  --offset-directions N   Directions for 'offset' halo (default: 36)" ++ NL
     ++ "  --dry-run               Show commands but do not execute" ++ NL
     ++ "  --help                  Show this help" ++ NL ++ NL
     ++ "Notes:" ++ NL
     ++ "  * Requires ImageMagick CLI ('magick' or 'convert') in PATH." ++ NL
     ++ "  * PNGs are written with transparent background (PNG32:)." ++ NL
     ++ "  * The 'offset' method duplicates the text in a ring to fake an outline. Slower." ++ NL)
    w.

(** How [parse_args] ends: it returns [true] or [false], with the options
    as it leaves them, or the program is left through [std::exit(0)] after
    the help, or [std::stoi] throws and nothing catches the exception. *)
Inductive Parse : Type :=
| Parsed (ok : bool) (opt : Txt2png.Options) (w : Txt2png.World)
| HelpExit (w : Txt2png.World)
| StoiThrew (w : Txt2png.World).

(** [for (int i = 1; i < argc; ++i)] of [parse_args] over the arguments
    from [argv[i]] on, followed by the test after the loop.  [stoi] is
    [std::stoi], [None] when it throws. *)
Fixpoint parse_args (stoi : string -> option Z) (argv0 : string)
    (args : list string) (opt : Txt2png.Options) (w : Txt2png.World)
  : Parse :=
  match args with
  | [] =>
      if (String.eqb (Txt2png.input_path opt) ""
          && negb (Txt2png.list_fonts opt))%bool
      then Parsed false opt
             (Txt2png.put_stderr
                ("Error: --input FILE required (unless using --list-fonts)"
                 ++ NL) w)
      else Parsed true opt w
  | a :: rest =>
      let missing (flag : string) :=
        Parsed false opt
          (Txt2png.put_stderr ("Missing value for " ++ flag ++ NL) w) in
      if (String.eqb a "--help" || String.eqb a "-h")%bool then
        HelpExit (print_help argv0 w)
      else if String.eqb a "--input" then
        match rest with
        | [] => missing "--input"
        | v :: rest' => parse_args stoi argv0 rest' (set_input_path v opt) w
        end
      else if String.eqb a "--prefix" then
        match rest with
        | [] => missing "--prefix"
        | v :: rest' => parse_args stoi argv0 rest' (set_prefix v opt) w
        end
      else if String.eqb a "--start-index" then
        match rest with
        | [] => missing "--start-index"
        | v :: rest' =>
            match stoi v with
            | None => StoiThrew w
            | Some n => parse_args stoi argv0 rest' (set_start_index n opt) w
            end
        end
      else if String.eqb a "--font" then
        match rest with
        | [] => missing "--font"
        | v :: rest' => parse_args stoi argv0 rest' (set_font_name v opt) w
        end
      else if String.eqb a "--font-index" then
        match rest with
        | [] => missing "--font-index"
        | v :: rest' =>
            match stoi v with
            | None => StoiThrew w
            | Some n => parse_args stoi argv0 rest' (set_font_index n opt) w
            end
        end
      else if String.eqb a "--size" then
        match rest with
        | [] => missing "--size"
        | v :: rest' =>
            match stoi v with
            | None => StoiThrew w
            | Some n => parse_args stoi argv0 rest' (set_point_size n opt) w
            end
        end
      else if String.eqb a "--color" then
        match rest with
        | [] => missing "--color"
        | v :: rest' => parse_args stoi argv0 rest' (set_fill_color v opt) w
        end
      else if String.eqb a "--outline-color" then
        match rest with
        | [] => missing "--outline-color"
        | v :: rest' =>
            parse_args stoi argv0 rest' (set_outline_color v opt) w
        end
      else if String.eqb a "--outline" then
        match rest with
        | [] => missing "--outline"
        | v :: rest' =>
            match stoi v with
            | None => StoiThrew w
            | Some n =>
                parse_args stoi argv0 rest' (set_outline_thickness n opt) w
            end
        end
      else if String.eqb a "--list-fonts" then
        parse_args stoi argv0 rest (set_list_fonts true opt) w
      else if String.eqb a "--outline-method" then
        match rest with
        | [] => missing "--outline-method"
        | m :: rest' =>
            if String.eqb m "stroke" then
              parse_args stoi argv0 rest' (set_use_offset_outline false opt) w
            else if String.eqb m "offset" then
              parse_args stoi argv0 rest' (set_use_offset_outline true opt) w
            else
              Parsed false opt
                (Txt2png.put_stderr ("Unknown outline method: " ++ m ++ NL) w)
        end
      else if String.eqb a "--offset-directions" then
        match rest with
        | [] => missing "--offset-directions"
        | v :: rest' =>
            match stoi v with
            | None => StoiThrew w
            | Some n =>
                parse_args stoi argv0 rest' (set_offset_directions n opt) w
            end
        end
      else if String.eqb a "--dry-run" then
        parse_args stoi argv0 rest (set_dry_run true opt) w
      else
        Parsed false opt
          (Txt2png.put_stderr ("Unknown option: " ++ a ++ NL) w)
  end.

(** How the program ends: [main] returns a status (or [std::exit] is
    called with it), or an exception leaves [main]. *)
Inductive Ending : Type :=
| Exit (code : Z)
| Terminate.

(** [main(argc, argv)] as a whole, for [argv = argv0 :: args].
    [parse_args] writes nothing when it returns [true] (see
    [parse_args_true_is_silent] below), so what follows it starts from the
    empty world, as [Txt2png.main] does. *)
Definition main_argv (stoi : string -> option Z) (cos sin : Q -> Q)
    (env : Txt2png.Env) (argv0 : string) (args : list string)
  : Ending * Txt2png.World :=
  match parse_args stoi argv0 args Txt2png.default_options Txt2png.world0 with
  | Parsed false _ w =>
      (Exit 2, Txt2png.put_stderr ("Use --help for usage." ++ NL) w)
  | Parsed true opt _ =>
      let (code, w) := Txt2png.main cos sin env opt in (Exit code, w)
  | HelpExit w => (Exit 0, w)
  | StoiThrew w => (Terminate, w)
  end.

End Txt2pngCli.

(** ** More of the documented behaviour *)

Module Checks.
Import Cxx.

(** A text that can stand between the double quotes of [label:"..."]:
    read from the left, a backslash takes the next character with it, and
    outside such a pair there is no double quote; the text does not end in
    the middle of a pair. *)
Fixpoint well_quoted (s : string) : bool :=
  match s with
  | EmptyString => true
  | String c s' =>
      if Ascii.eqb c backslash_char then
        match s' with
        | EmptyString => false
        | String _ s'' => well_quoted s''
        end
      else if Ascii.eqb c dquote_char then false
      else well_quoted s'
  end.

(** A list without the repetitions of its elements: each element stays
    where it occurs first. *)
Fixpoint first_occurrences (l : list string) : list string :=
  match l with
  | [] => []
  | x :: r =>
      x :: filter (fun y => negb (String.eqb y x)) (first_occurrences r)
  end.

(** The options [parse_args] knows. *)
Definition txt2png_flags : list string :=
  ["--help"; "-h"; "--input"; "--prefix"; "--start-index"; "--font";
   "--font-index"; "--size"; "--color"; "--outline-color"; "--outline";
   "--list-fonts"; "--outline-method"; "--offset-directions"; "--dry-run"].

(** The options the loop of text2png's [main] knows. *)
Definition text2png_flags : list string :=
  ["--font-name"; "--font-size"; "--text-color"; "--outline-color";
   "--bg-color"; "--outline-width"; "--padding"; "-v"; "--verbose"].

(** The options of txt2png that stand alone, and those that take a value
    of any form. *)
Definition txt2png_switches : list string := ["--list-fonts"; "--dry-run"].

Definition txt2png_value_flags : list string :=
  ["--input"; "--prefix"; "--start-index"; "--font"; "--font-index";
   "--size"; "--color"; "--outline-color"; "--outline";
   "--offset-directions"].

(** A well-formed command line of txt2png: options it knows, each one that
    takes a value followed by one, and [--outline-method] followed by
    [stroke] or [offset]. *)
Inductive accepted : list string -> Prop :=
| accepted_end : accepted []
| accepted_switch (a : string) (rest : list string) :
    In a txt2png_switches -> accepted rest -> accepted (a :: rest)
| accepted_value (a v : string) (rest : list string) :
    In a txt2png_value_flags -> accepted rest -> accepted (a :: v :: rest)
| accepted_method (m : string) (rest : list string) :
    In m ["stroke"; "offset"] -> accepted rest ->
    accepted ("--outline-method" :: m :: rest).

(** [opt'] has the value of [opt] in every field whose option does not
    occur among [args]; the name of the ImageMagick program has no option
    and is the same in the two. *)
Definition kept (args : list string) (opt opt' : Txt2png.Options) : Prop :=
  (~ In "--input" args -> Txt2png.input_path opt' = Txt2png.input_path opt)
  /\ (~ In "--prefix" args -> Txt2png.prefix opt' = Txt2png.prefix opt)
  /\ (~ In "--start-index" args ->
      Txt2png.start_index opt' = Txt2png.start_index opt)
  /\ (~ In "--font" args -> Txt2png.font_name opt' = Txt2png.font_name opt)
  /\ (~ In "--font-index" args ->
      Txt2png.font_index opt' = Txt2png.font_index opt)
  /\ (~ In "--size" args -> Txt2png.point_size opt' = Txt2png.point_size opt)
  /\ (~ In "--color" args ->
      Txt2png.fill_color opt' = Txt2png.fill_color opt)
  /\ (~ In "--outline-color" args ->
      Txt2png.outline_color opt' = Txt2png.outline_color opt)
  /\ (~ In "--outline" args ->
      Txt2png.outline_thickness opt' = Txt2png.outline_thickness opt)
  /\ (~ In "--list-fonts" args ->
      Txt2png.list_fonts opt' = Txt2png.list_fonts opt)
  /\ (~ In "--outline-method" args ->
      Txt2png.use_offset_outline opt' = Txt2png.use_offset_outline opt)
  /\ (~ In "--offset-directions" args ->
      Txt2png.offset_directions opt' = Txt2png.offset_directions opt)
  /\ (~ In "--dry-run" args -> Txt2png.dry_run opt' = Txt2png.dry_run opt)
  /\ Txt2png.im_exe opt' = Txt2png.im_exe opt.

(** What the call of [render_text_to_png] for a job adds to the files. *)
Definition added (b : Text2png.Backend) (opts : Text2png.TextOptions)
    (prefix : string) (j : Z * string) : list (string * Text2png.Surface) :=
  Text2png.w_files
    (Text2png.render_text_to_png b (snd j)
       (Spec.output_name prefix (fst j)) opts Text2png.world0).

End Checks.

(** ** More sample environments *)

Module MoreSamples.
Import Cxx.

(** A machine with [magick] where every command succeeds, with the input
    file of three lines and no font list. *)
Definition all_succeed : Txt2png.Env := {|
  Txt2png.system := fun _ => 0;
  Txt2png.popen := fun _ => None;
  Txt2png.ifstream := fun path =>
    if String.eqb path "in.txt" then Some Samples.three_lines else None
|}.

(** The same machine with two fonts in ImageMagick's list. *)
Definition two_fonts : Txt2png.Env := {|
  Txt2png.system := fun _ => 0;
  Txt2png.popen := fun cmd =>
    if String.eqb cmd "magick -list font 2>/dev/null"
    then Some ("  Font: Courier" ++ NL ++ "  Font: Helvetica" ++ NL)
    else None;
  Txt2png.ifstream := fun path =>
    if String.eqb path "in.txt" then Some Samples.three_lines else None
|}.

(** The options [--input in.txt --prefix out] with [--dry-run], and with
    [--font-index 2] and [--font-index 3]. *)
Definition in_out_dry : Txt2png.Options :=
  Txt2pngCli.set_dry_run true Samples.in_out.

Definition in_out_font_2 : Txt2png.Options :=
  Txt2pngCli.set_font_index 2 Samples.in_out.

Definition in_out_font_3 : Txt2png.Options :=
  Txt2pngCli.set_font_index 3 Samples.in_out.

(** An input file of two lines followed by two empty lines, on a machine
    with [magick] where every command succeeds, and on one where Cairo,
    FreeType and FontConfig work. *)
Definition trailing_empty_lines : string :=
  "one" ++ NL ++ "two" ++ NL ++ NL ++ NL.

Definition txt2png_trailing : Txt2png.Env := {|
  Txt2png.system := fun _ => 0;
  Txt2png.popen := fun _ => None;
  Txt2png.ifstream := fun path =>
    if String.eqb path "in.txt" then Some trailing_empty_lines else None
|}.

Definition text2png_trailing : Text2png.Backend := {|
  Text2png.FT_Init_FreeType := true;
  Text2png.FcFontMatch_file := fun _ => Some "/fonts/DejaVuSans.ttf";
  Text2png.FT_New_Face := fun _ => true;
  Text2png.cairo_text_extents := fun _ _ _ => Samples.sample_extents;
  Text2png.cairo_surface_write_to_png := fun _ _ => None;
  Text2png.FcInitLoadConfigAndFonts := true;
  Text2png.FcFontList := Some [];
  Text2png.sscanf_x2 := Samples.scan_hex;
  Text2png.stoi := fun _ => None;
  Text2png.ifstream := fun path =>
    if String.eqb path "in.txt" then Some trailing_empty_lines else None
|}.

(** A machine whose ImageMagick lists no font and whose [fc-list] reports
    a family twice. *)
Definition fontconfig_only : Txt2png.Env := {|
  Txt2png.system := fun _ => 0;
  Txt2png.popen := fun cmd =>
    if String.eqb cmd "fc-list : family 2>/dev/null"
    then Some ("DejaVu Sans:style=Book" ++ NL ++ "Noto Sans" ++ NL
               ++ "DejaVu Sans:style=Bold" ++ NL)
    else None;
  Txt2png.ifstream := fun _ => None
|}.

(** The doubles nearest to 0.1 and 14.9 as bearing and ink extent, with
    the options [--font-size 10 --outline-width 0 --padding 0]. *)
Definition extents_01_149 : Text2png.cairo_text_extents_t := {|
  Text2png.x_bearing := 0x1.999999999999ap-4%xQ;
  Text2png.y_bearing := (-0x1.999999999999ap-4)%xQ;
  Text2png.width := 0x1.dcccccccccccdp+3%xQ;
  Text2png.height := 0x1.dcccccccccccdp+3%xQ;
  Text2png.x_advance := 15;
  Text2png.y_advance := 0
|}.

Definition size_10_bare : Text2png.TextOptions :=
  Text2png.set_padding 0
    (Text2png.set_outline_width 0
       (Text2png.set_font_size 10 Text2png.default_options)).

(** A machine with [magick] and an input file with the line [Hi], and
    [std::stoi] on the texts ["1"] and ["6"]. *)
Definition hi_file : Txt2png.Env := {|
  Txt2png.system := fun _ => 0;
  Txt2png.popen := fun _ => None;
  Txt2png.ifstream := fun path =>
    if String.eqb path "in.txt" then Some ("Hi" ++ NL) else None
|}.

Definition stoi_1_6 (s : string) : option Z :=
  if String.eqb s "1" then Some 1
  else if String.eqb s "6" then Some 6
  else None.

(** [std::stoi] on the texts ["2"] and ["64"]; it throws on the others. *)
Definition stoi_2_64 (s : string) : option Z :=
  if String.eqb s "2" then Some 2
  else if String.eqb s "64" then Some 64
  else None.

End MoreSamples.

(** * Properties *)

(** ** Texts *)

Module StringFacts.

Lemma append_nil_r (s : string) : s ++ "" = s.
Proof. induction s as [|c s IH]; simpl; [reflexivity | now rewrite IH]. Qed.

Lemma append_assoc (a b c : string) : (a ++ b) ++ c = a ++ (b ++ c).
Proof. induction a as [|x a IH]; simpl; [reflexivity | now rewrite IH]. Qed.

Lemma length_append (a b : string) :
  String.length (a ++ b) = (String.length a + String.length b)%nat.
Proof. induction a as [|x a IH]; simpl; [reflexivity | now rewrite IH]. Qed.

Lemma list_of_append (a b : string) :
  list_ascii_of_string (a ++ b)
  = (list_ascii_of_string a ++ list_ascii_of_string b)%list.
Proof. induction a as [|x a IH]; simpl; [reflexivity | now rewrite IH]. Qed.

Lemma string_of_app (l1 l2 : list ascii) :
  string_of_list_ascii (l1 ++ l2)
  = string_of_list_ascii l1 ++ string_of_list_ascii l2.
Proof. induction l1 as [|x l1 IH]; simpl; [reflexivity | now rewrite IH]. Qed.

Lemma append_inv_head (a b c : string) : a ++ b = a ++ c -> b = c.
Proof.
  induction a as [|x a IH]; simpl; intros H; [exact H|].
  injection H as H. now apply IH.
Qed.

End StringFacts.

#[local] Ltac assoc_str := repeat rewrite StringFacts.append_assoc.

(** ** Escaping *)

Module EscapeFacts.
Import Cxx Txt2png Spec StringFacts.

Lemma escape_loop_spec (s out : string) :
  escape_loop s out = out ++ insert_backslashes s.
Proof.
  revert out. induction s as [|c s IH]; intros out; simpl.
  - now rewrite append_nil_r.
  - rewrite IH. unfold needs_backslash.
    destruct (Ascii.eqb c backslash_char || Ascii.eqb c dquote_char)%bool;
      assoc_str; reflexivity.
Qed.

Lemma escape_is_insert (s : string) :
  escape_for_label s = insert_backslashes s.
Proof. unfold escape_for_label. now rewrite escape_loop_spec. Qed.

Lemma insert_length (s : string) :
  (String.length s <= String.length (insert_backslashes s)
   <= 2 * String.length s)%nat.
Proof.
  induction s as [|c s IH]; simpl; [lia|].
  destruct (needs_backslash c); simpl; lia.
Qed.

Lemma remove_insert (s : string) :
  remove_backslashes (insert_backslashes s) = s.
Proof.
  induction s as [|c s IH]; simpl; [reflexivity|].
  destruct (needs_backslash c) eqn:E; simpl.
  - now rewrite IH.
  - unfold needs_backslash in E. apply orb_false_iff in E as [E _].
    rewrite E. now rewrite IH.
Qed.

End EscapeFacts.

(** ** Rounding to a double

    [to_double] against what rounding to nearest is: the result is a
    double within half a step of the exact value, with an even mantissa at
    a tie; rounding never crosses a double, and so leaves a double as it
    is. *)

Module DoubleFacts.
Import Cxx.

#[local] Open Scope Q_scope.

Lemma two_not_0 : ~ 2 == 0.
Proof. discriminate. Qed.

Lemma pow2_pos (e : Z) : 0 < 2 ^ e.
Proof. apply Qpower_0_lt. reflexivity. Qed.

Lemma pow2_le (a b : Z) : (a <= b)%Z -> 2 ^ a <= 2 ^ b.
Proof. intros H. apply Qpower_le_compat_l; [exact H | discriminate]. Qed.

Lemma pow2_Z (n : Z) : (0 <= n)%Z -> inject_Z (2 ^ n) == 2 ^ n.
Proof. intros H. now rewrite Zpower_Qpower. Qed.

(** [binade q] is not above the place of the leading bit of [q]. *)
Lemma binade_le (q : Q) : ~ q == 0 -> 2 ^ binade q <= Qabs q.
Proof.
  intros Hq. unfold binade.
  set (n := Z.abs (Qnum q)). set (d := Zpos (Qden q)).
  set (l := (Z.log2 n - Z.log2 d)%Z).
  destruct (Qle_bool (2 ^ l) (Qabs q)) eqn:E.
  - now apply Qle_bool_iff.
  - assert (Hn : (0 < n)%Z).
    { unfold n. destruct q as [[|p|p] dq]; cbn; try lia.
      exfalso. apply Hq. reflexivity. }
    assert (Hd : (0 < d)%Z) by (unfold d; lia).
    destruct (Z.log2_spec n Hn) as [Hn1 _].
    destruct (Z.log2_spec d Hd) as [_ Hd2].
    pose proof (Z.log2_nonneg n) as Hln.
    pose proof (Z.log2_nonneg d) as Hld.
    assert (Habs : Qabs q == inject_Z n / inject_Z d).
    { unfold n, d. destruct q as [qn qd]. unfold Qabs. cbn [Qnum Qden].
      unfold Qeq, Qdiv, Qmult, Qinv, inject_Z. cbn. lia. }
    rewrite Habs.
    replace (l - 1)%Z with (Z.log2 n - Z.succ (Z.log2 d))%Z by (unfold l; lia).
    rewrite Qpower_minus by discriminate.
    rewrite <- !pow2_Z by lia.
    assert (H1 : inject_Z (2 ^ Z.log2 n) <= inject_Z n)
      by (rewrite <- Zle_Qle; exact Hn1).
    assert (H2 : inject_Z d <= inject_Z (2 ^ Z.succ (Z.log2 d)))
      by (rewrite <- Zle_Qle; lia).
    assert (H3 : 0 < inject_Z d) by (rewrite Zlt_Qlt in Hd; exact Hd).
    assert (H4 : 0 < inject_Z (2 ^ Z.log2 n)).
    { change 0 with (inject_Z 0). rewrite <- Zlt_Qlt. lia. }
    apply Qle_shift_div_l; [exact H3|].
    apply Qle_trans with (inject_Z (2 ^ Z.log2 n)); [|exact H1].
    unfold Qdiv. rewrite <- Qmult_assoc.
    rewrite <- (Qmult_1_r (inject_Z (2 ^ Z.log2 n))) at 2.
    apply Qmult_le_l; [exact H4|].
    rewrite Qmult_comm. apply Qle_shift_div_r.
    + eapply Qlt_le_trans; [exact H3 | exact H2].
    + now rewrite Qmult_1_l.
Qed.

Lemma nearest_even_le (x : Q) (m : Z) :
  x <= inject_Z m -> (nearest_even x <= m)%Z.
Proof.
  intros H. unfold nearest_even.
  pose proof (Qfloor_le x) as Hf.
  assert (Hfm : (Qfloor x <= m)%Z).
  { rewrite Zle_Qle. eapply Qle_trans; eassumption. }
  assert (Hup : 0 < x - inject_Z (Qfloor x) -> (Qfloor x + 1 <= m)%Z).
  { intros Hpos.
    assert (Hlt : inject_Z (Qfloor x) < inject_Z m) by lra.
    rewrite <- Zlt_Qlt in Hlt. lia. }
  destruct (Qcompare (x - inject_Z (Qfloor x)) (1 # 2)) eqn:E.
  - apply Qeq_alt in E. destruct (Z.even (Qfloor x)); [exact Hfm|].
    apply Hup. lra.
  - exact Hfm.
  - apply Qgt_alt in E. apply Hup. lra.
Qed.

Lemma nearest_even_ge (x : Q) (m : Z) :
  inject_Z m <= x -> (m <= nearest_even x)%Z.
Proof.
  intros H. unfold nearest_even.
  assert (Hfm : (m <= Qfloor x)%Z).
  { rewrite <- (Qfloor_Z m). now apply Qfloor_resp_le. }
  destruct (Qcompare (x - inject_Z (Qfloor x)) (1 # 2)).
  - destruct (Z.even (Qfloor x)); lia.
  - exact Hfm.
  - lia.
Qed.

Lemma to_double_0 (q : Q) : q == 0 -> to_double q = 0.
Proof.
  intros H. unfold to_double.
  replace (Qeq_bool q 0) with true; [reflexivity|].
  symmetry. now apply Qeq_bool_iff.
Qed.

Lemma to_double_value (q : Q) :
  ~ q == 0 ->
  let e := Z.max (binade q - 52) (-1074) in
  to_double q == inject_Z (nearest_even (q / 2 ^ e)) * 2 ^ e.
Proof.
  intros H e. unfold to_double.
  replace (Qeq_bool q 0) with false.
  - apply Qred_correct.
  - symmetry. apply not_true_iff_false. intros E.
    apply Qeq_bool_iff in E. contradiction.
Qed.

(** A double [m * 2^g]: [|m| < 2^53] and [g] not under the least
    exponent. *)
Definition grid (m g : Z) : Q := inject_Z m * 2 ^ g.

Lemma grid_scaled (m g e : Z) :
  (e <= g)%Z -> grid m g / 2 ^ e == inject_Z (m * 2 ^ (g - e)).
Proof.
  intros H. unfold grid. rewrite inject_Z_mult, pow2_Z by lia.
  rewrite Qpower_minus by discriminate.
  field. pose proof (pow2_pos e). lra.
Qed.

Lemma div_pow2_le (x y : Q) (e : Z) : x <= y -> x / 2 ^ e <= y / 2 ^ e.
Proof.
  intros H. apply Qle_shift_div_l; [apply pow2_pos|].
  unfold Qdiv. rewrite <- Qmult_assoc, (Qmult_comm (/ _)), Qmult_inv_r.
  - now rewrite Qmult_1_r.
  - pose proof (pow2_pos e). lra.
Qed.

Lemma mul_pow2_le (x y : Q) (e : Z) : x <= y -> x * 2 ^ e <= y * 2 ^ e.
Proof. intros H. apply Qmult_le_compat_r; [exact H|]. pose proof (pow2_pos e). lra. Qed.

Lemma grid_bound (m g : Z) :
  (Z.abs m < 2 ^ 53)%Z -> Qabs (grid m g) < 2 ^ (g + 53).
Proof.
  intros H. unfold grid. rewrite Qabs_Qmult.
  rewrite (Qabs_pos (2 ^ g)) by (pose proof (pow2_pos g); lra).
  rewrite Qpower_plus by discriminate. rewrite (Qmult_comm (2 ^ g)).
  apply Qmult_lt_compat_r; [apply pow2_pos|].
  rewrite <- pow2_Z by lia.
  assert (E : Qabs (inject_Z m) == inject_Z (Z.abs m)).
  { unfold Qabs, inject_Z. reflexivity. }
  rewrite E. now rewrite <- Zlt_Qlt.
Qed.

(** Rounding never crosses a double: what is not above a double is not
    above it after rounding. *)
Lemma to_double_le_grid (q : Q) (m g : Z) :
  (-1074 <= g)%Z -> (Z.abs m < 2 ^ 53)%Z ->
  q <= grid m g -> to_double q <= grid m g.
Proof.
  intros Hg Hm Hq.
  destruct (Qeq_dec q 0) as [H0|H0].
  { rewrite (to_double_0 q H0). now rewrite <- H0. }
  rewrite (to_double_value q H0).
  set (e := Z.max (binade q - 52) (-1074)).
  destruct (Z.le_gt_cases e g) as [Heg|Heg].
  - assert (Hn : (nearest_even (q / 2 ^ e) <= m * 2 ^ (g - e))%Z).
    { apply nearest_even_le. rewrite <- grid_scaled by exact Heg.
      now apply div_pow2_le. }
    apply Qle_trans with (inject_Z (m * 2 ^ (g - e)) * 2 ^ e).
    + apply mul_pow2_le. now rewrite <- Zle_Qle.
    + rewrite <- grid_scaled by exact Heg.
      unfold Qdiv. rewrite <- Qmult_assoc, (Qmult_comm (/ _)), Qmult_inv_r.
      * rewrite Qmult_1_r. apply Qle_refl.
      * pose proof (pow2_pos e). lra.
  - assert (He : e = (binade q - 52)%Z) by (unfold e in *; lia).
    pose proof (binade_le q H0) as Hb.
    pose proof (grid_bound m g Hm) as Hgb.
    assert (Hpow : 2 ^ (g + 53) <= 2 ^ binade q) by (apply pow2_le; lia).
    assert (Hneg : q <= - 2 ^ binade q).
    { destruct (Qlt_le_dec q 0) as [Hlt|Hge].
      - rewrite Qabs_neg in Hb by lra. lra.
      - rewrite Qabs_pos in Hb by exact Hge.
        assert (Hgr : grid m g <= Qabs (grid m g)) by apply Qle_Qabs.
        lra. }
    assert (Hn : (nearest_even (q / 2 ^ e) <= - 2 ^ 52)%Z).
    { apply nearest_even_le.
      assert (Hsc : - 2 ^ binade q / 2 ^ e == inject_Z (- 2 ^ 52)).
      { rewrite He. rewrite inject_Z_opp, pow2_Z by lia.
        replace (binade q) with ((binade q - 52) + 52)%Z at 1 by lia.
        rewrite Qpower_plus by discriminate.
        field. pose proof (pow2_pos (binade q - 52)). lra. }
      rewrite <- Hsc. now apply div_pow2_le. }
    apply Qle_trans with (inject_Z (- 2 ^ 52) * 2 ^ e).
    + apply mul_pow2_le. now rewrite <- Zle_Qle.
    + rewrite inject_Z_opp, pow2_Z by lia.
      assert (Hlow : - 2 ^ (g + 53) < grid m g).
      { pose proof (Qle_Qabs (- grid m g)) as Ha.
        rewrite Qabs_opp in Ha. lra. }
      assert (Hpow2 : 2 ^ (g + 53) <= 2 ^ 52 * 2 ^ e).
      { rewrite <- Qpower_plus by discriminate. apply pow2_le. lia. }
      lra.
Qed.


Lemma to_double_ge_grid (q : Q) (m g : Z) :
  (-1074 <= g)%Z -> (Z.abs m < 2 ^ 53)%Z ->
  grid m g <= q -> grid m g <= to_double q.
Proof.
  intros Hg Hm Hq.
  destruct (Qeq_dec q 0) as [H0|H0].
  { rewrite (to_double_0 q H0). now rewrite <- H0. }
  rewrite (to_double_value q H0).
  set (e := Z.max (binade q - 52) (-1074)).
  destruct (Z.le_gt_cases e g) as [Heg|Heg].
  - assert (Hn : (m * 2 ^ (g - e) <= nearest_even (q / 2 ^ e))%Z).
    { apply nearest_even_ge. rewrite <- grid_scaled by exact Heg.
      now apply div_pow2_le. }
    apply Qle_trans with (inject_Z (m * 2 ^ (g - e)) * 2 ^ e).
    + rewrite <- grid_scaled by exact Heg.
      unfold Qdiv. rewrite <- Qmult_assoc, (Qmult_comm (/ _)), Qmult_inv_r.
      * rewrite Qmult_1_r. apply Qle_refl.
      * pose proof (pow2_pos e). lra.
    + apply mul_pow2_le. now rewrite <- Zle_Qle.
  - assert (He : e = (binade q - 52)%Z) by (unfold e in *; lia).
    pose proof (binade_le q H0) as Hb.
    pose proof (grid_bound m g Hm) as Hgb.
    assert (Hpow : 2 ^ (g + 53) <= 2 ^ binade q) by (apply pow2_le; lia).
    assert (Hlow : - 2 ^ (g + 53) < grid m g).
    { pose proof (Qle_Qabs (- grid m g)) as Ha.
      rewrite Qabs_opp in Ha. lra. }
    assert (Hpos : 2 ^ binade q <= q).
    { destruct (Qlt_le_dec q 0) as [Hlt|Hge].
      - rewrite Qabs_neg in Hb by lra. lra.
      - now rewrite Qabs_pos in Hb by exact Hge. }
    assert (Hn : (2 ^ 52 <= nearest_even (q / 2 ^ e))%Z).
    { apply nearest_even_ge.
      assert (Hsc : 2 ^ binade q / 2 ^ e == inject_Z (2 ^ 52)).
      { rewrite He. rewrite pow2_Z by lia.
        replace (binade q) with ((binade q - 52) + 52)%Z at 1 by lia.
        rewrite Qpower_plus by discriminate.
        field. pose proof (pow2_pos (binade q - 52)). lra. }
      rewrite <- Hsc. now apply div_pow2_le. }
    apply Qle_trans with (inject_Z (2 ^ 52) * 2 ^ e).
    + rewrite pow2_Z by lia.
      assert (Hpow2 : 2 ^ (g + 53) <= 2 ^ 52 * 2 ^ e).
      { rewrite <- Qpower_plus by discriminate. apply pow2_le. lia. }
      pose proof (Qle_Qabs (grid m g)). lra.
    + apply mul_pow2_le. now rewrite <- Zle_Qle.
Qed.

(** A double is left as it is. *)
Lemma to_double_grid (m g : Z) :
  (-1074 <= g)%Z -> (Z.abs m < 2 ^ 53)%Z ->
  to_double (grid m g) == grid m g.
Proof.
  intros Hg Hm. apply Qle_antisym.
  - apply to_double_le_grid; [exact Hg | exact Hm | apply Qle_refl].
  - apply to_double_ge_grid; [exact Hg | exact Hm | apply Qle_refl].
Qed.

Lemma grid_Z (m : Z) : grid m 0 == inject_Z m.
Proof. unfold grid. change (2 ^ 0) with 1. ring. Qed.

Lemma to_double_le_Z (q : Q) (m : Z) :
  (Z.abs m < 2 ^ 53)%Z -> q <= inject_Z m -> to_double q <= inject_Z m.
Proof.
  intros Hm H. rewrite <- grid_Z in *.
  apply to_double_le_grid; [lia | exact Hm | exact H].
Qed.

Lemma to_double_ge_Z (q : Q) (m : Z) :
  (Z.abs m < 2 ^ 53)%Z -> inject_Z m <= q -> inject_Z m <= to_double q.
Proof.
  intros Hm H. rewrite <- grid_Z in *.
  apply to_double_ge_grid; [lia | exact Hm | exact H].
Qed.

Lemma to_double_Z (q : Q) (m : Z) :
  (Z.abs m < 2 ^ 53)%Z -> q == inject_Z m -> to_double q == inject_Z m.
Proof.
  intros Hm H. apply Qle_antisym.
  - apply to_double_le_Z; [exact Hm|]. rewrite H. apply Qle_refl.
  - apply to_double_ge_Z; [exact Hm|]. rewrite H. apply Qle_refl.
Qed.

(** [binade q] is the place of the leading bit of [q]. *)
Lemma binade_lt (q : Q) : ~ q == 0 -> Qabs q < 2 ^ (binade q + 1).
Proof.
  intros Hq. unfold binade.
  set (n := Z.abs (Qnum q)). set (d := Zpos (Qden q)).
  set (l := (Z.log2 n - Z.log2 d)%Z).
  destruct (Qle_bool (2 ^ l) (Qabs q)) eqn:E.
  - assert (Hn : (0 < n)%Z).
    { unfold n. destruct q as [[|p|p] dq]; cbn; try lia.
      exfalso. apply Hq. reflexivity. }
    assert (Hd : (0 < d)%Z) by (unfold d; lia).
    destruct (Z.log2_spec n Hn) as [_ Hn2].
    destruct (Z.log2_spec d Hd) as [Hd1 _].
    pose proof (Z.log2_nonneg n) as Hln.
    pose proof (Z.log2_nonneg d) as Hld.
    assert (Habs : Qabs q == inject_Z n / inject_Z d).
    { unfold n, d. destruct q as [qn qd]. unfold Qabs. cbn [Qnum Qden].
      unfold Qeq, Qdiv, Qmult, Qinv, inject_Z. cbn. lia. }
    rewrite Habs.
    replace (l + 1)%Z with (Z.succ (Z.log2 n) - Z.log2 d)%Z
      by (unfold l; lia).
    rewrite Qpower_minus by discriminate.
    rewrite <- !pow2_Z by lia.
    assert (H1 : inject_Z n < inject_Z (2 ^ Z.succ (Z.log2 n)))
      by (rewrite <- Zlt_Qlt; exact Hn2).
    assert (H2 : inject_Z (2 ^ Z.log2 d) <= inject_Z d)
      by (rewrite <- Zle_Qle; exact Hd1).
    assert (H3 : 0 < inject_Z (2 ^ Z.log2 d)).
    { change 0 with (inject_Z 0). rewrite <- Zlt_Qlt. lia. }
    assert (H4 : 0 < inject_Z d) by lra.
    assert (H5 : 0 < inject_Z n).
    { change 0 with (inject_Z 0). now rewrite <- Zlt_Qlt. }
    apply Qlt_shift_div_r; [exact H4|].
    apply Qlt_le_trans with (inject_Z (2 ^ Z.succ (Z.log2 n))); [exact H1|].
    set (a := inject_Z (2 ^ Z.succ (Z.log2 n))) in *.
    assert (Ha : 0 < a) by lra.
    unfold Qdiv. rewrite <- Qmult_assoc.
    rewrite <- (Qmult_1_r a) at 1.
    apply Qmult_le_l; [exact Ha|].
    rewrite Qmult_comm. apply Qle_shift_div_l; [exact H3|].
    now rewrite Qmult_1_l.
  - replace (l - 1 + 1)%Z with l by lia.
    apply Qnot_le_lt. intros H. apply Qle_bool_iff in H. congruence.
Qed.

(** The nearest integer is within a half, and even at a half. *)
Lemma nearest_even_close (x : Q) :
  Qabs (inject_Z (nearest_even x) - x) <= 1 # 2.
Proof.
  unfold nearest_even.
  pose proof (Qfloor_le x) as H1. pose proof (Qlt_floor x) as H2.
  rewrite inject_Z_plus in H2. change (inject_Z 1) with 1 in H2.
  apply Qabs_Qle_condition.
  destruct (Qcompare (x - inject_Z (Qfloor x)) (1 # 2)) eqn:E.
  - apply Qeq_alt in E. destruct (Z.even (Qfloor x)).
    + split; lra.
    + rewrite inject_Z_plus. change (inject_Z 1) with 1. split; lra.
  - apply Qlt_alt in E. split; lra.
  - apply Qgt_alt in E. rewrite inject_Z_plus. change (inject_Z 1) with 1.
    split; lra.
Qed.

Lemma nearest_even_tie (x : Q) :
  x - inject_Z (Qfloor x) == 1 # 2 -> Z.even (nearest_even x) = true.
Proof.
  intros H. unfold nearest_even.
  apply Qeq_alt in H. rewrite H.
  destruct (Z.even (Qfloor x)) eqn:E; [exact E|].
  rewrite Z.even_add, E. reflexivity.
Qed.

(** The result is a double, [m * 2^e] with [|m| <= 2^53] and [e] not under
    the least exponent, and it is within half a step [2^e] of the exact
    value, where [2^e] is the distance of the doubles around it. *)
Lemma to_double_is_nearest (q : Q) :
  ~ q == 0 ->
  let e := Z.max (binade q - 52) (-1074) in
  exists m : Z,
    to_double q == grid m e
    /\ (Z.abs m <= 2 ^ 53)%Z
    /\ Qabs (to_double q - q) <= (1 # 2) * 2 ^ e.
Proof.
  intros Hq e. exists (nearest_even (q / 2 ^ e)).
  pose proof (pow2_pos e) as He.
  assert (Hval : to_double q == grid (nearest_even (q / 2 ^ e)) e)
    by (apply to_double_value; exact Hq).
  split; [exact Hval|]. split.
  - pose proof (binade_lt q Hq) as Hb.
    assert (Hpow : 2 ^ (binade q + 1) <= 2 ^ 53 * 2 ^ e).
    { rewrite <- Qpower_plus by discriminate. apply pow2_le.
      unfold e. lia. }
    assert (Hup : q / 2 ^ e <= inject_Z (2 ^ 53)).
    { rewrite pow2_Z by lia. apply Qle_shift_div_r; [exact He|].
      pose proof (Qle_Qabs q). lra. }
    assert (Hlow : inject_Z (- 2 ^ 53) <= q / 2 ^ e).
    { rewrite inject_Z_opp, pow2_Z by lia.
      apply Qle_shift_div_l; [exact He|].
      pose proof (Qle_Qabs (- q)) as Ha. rewrite Qabs_opp in Ha. lra. }
    apply nearest_even_le in Hup. apply nearest_even_ge in Hlow. lia.
  - rewrite Hval. unfold grid.
    pose proof (nearest_even_close (q / 2 ^ e)) as Hc.
    assert (E : inject_Z (nearest_even (q / 2 ^ e)) * 2 ^ e - q
                == (inject_Z (nearest_even (q / 2 ^ e)) - q / 2 ^ e)
                   * 2 ^ e).
    { field. lra. }
    rewrite E, Qabs_Qmult, (Qabs_pos (2 ^ e)) by lra.
    apply Qmult_le_compat_r; [exact Hc | lra].
Qed.

(** A colour channel [k / 255.0] of a byte [k], multiplied by 255 and cut
    to an [int], is [k] again: the rounding of the quotient and of the
    product never takes the result under [k]. *)
Lemma byte_channel_prints_back :
  forallb
    (fun k =>
       Z.eqb (trunc_to_int (to_double (to_double (inject_Z k / 255) * 255)))
         k)
    (map Z.of_nat (seq 0 256))
  = true.
Proof. vm_compute. reflexivity. Qed.

(** *** Rounding to an integer *)

Lemma round_to_int_le (x : Q) (m : Z) :
  x <= inject_Z m -> (round_to_int x <= m)%Z.
Proof.
  intros H. unfold round_to_int. destruct (Qle_bool 0 x).
  - assert (Hm : Qfloor (inject_Z m + (1 # 2)) = m).
    { apply Z.le_antisymm.
      - assert (Hlt : inject_Z (Qfloor (inject_Z m + (1 # 2)))
                      < inject_Z (m + 1)).
        { pose proof (Qfloor_le (inject_Z m + (1 # 2))).
          rewrite inject_Z_plus. change (inject_Z 1) with 1. lra. }
        rewrite <- Zlt_Qlt in Hlt. lia.
      - rewrite <- (Qfloor_Z m) at 1. apply Qfloor_resp_le. lra. }
    rewrite <- Hm. apply Qfloor_resp_le. lra.
  - rewrite <- (Qceiling_Z m). apply Qceiling_resp_le. lra.
Qed.

Lemma round_to_int_ge (x : Q) (m : Z) :
  inject_Z m <= x -> (m <= round_to_int x)%Z.
Proof.
  intros H. unfold round_to_int. destruct (Qle_bool 0 x).
  - rewrite <- (Qfloor_Z m) at 1. apply Qfloor_resp_le. lra.
  - assert (Hm : Qceiling (inject_Z m - (1 # 2)) = m).
    { apply Z.le_antisymm.
      - rewrite <- (Qceiling_Z m) at 2. apply Qceiling_resp_le. lra.
      - assert (Hlt : inject_Z (m - 1)
                      < inject_Z (Qceiling (inject_Z m - (1 # 2)))).
        { pose proof (Qle_ceiling (inject_Z m - (1 # 2))).
          replace (m - 1)%Z with (m + -1)%Z by lia.
          rewrite inject_Z_plus. change (inject_Z (-1)) with (-1 # 1). lra. }
        rewrite <- Zlt_Qlt in Hlt. lia. }
    rewrite <- Hm. apply Qceiling_resp_le. lra.
Qed.

Lemma round_to_int_Z (x : Q) (m : Z) :
  x == inject_Z m -> round_to_int x = m.
Proof.
  intros H. apply Z.le_antisymm.
  - apply round_to_int_le. rewrite H. apply Qle_refl.
  - apply round_to_int_ge. rewrite H. apply Qle_refl.
Qed.

End DoubleFacts.

(** ** The ring over the real numbers at a tie *)

Module IdealFacts.
Import Reals Lra.

#[local] Open Scope R_scope.

Lemma up_floor (r : R) (z : Z) : IZR z <= r < IZR z + 1 -> up r = (z + 1)%Z.
Proof.
  intros [H1 H2]. symmetry. apply tech_up; rewrite plus_IZR; lra.
Qed.

Lemma sqrt_3_bounds : 1 <= sqrt 3 < 3.
Proof.
  split.
  - rewrite <- sqrt_1 at 1. apply sqrt_le_1_alt. lra.
  - replace 3 with (sqrt 9) at 2.
    + apply sqrt_lt_1_alt. lra.
    + replace 9 with (3 * 3) by lra. apply sqrt_square. lra.
Qed.

(** At a third of the turn the cosine is [-1/2]: with a radius of 1 the
    first coordinate lies half way between 0 and -1 and is rounded away
    from zero. *)
Lemma ring_shift_third_of_turn : Ideal.ring_shift 1 6 2 = (-1, 1)%Z.
Proof.
  unfold Ideal.ring_shift.
  replace (2 * PI * 2 / 6) with (2 * (PI / 3)) by field.
  rewrite cos_2PI3, sin_2PI3.
  pose proof sqrt_3_bounds as H3.
  unfold Ideal.round_half_away.
  destruct (Rle_dec 0 (1 * (-1 / 2))) as [H|_]; [lra|].
  destruct (Rle_dec 0 (1 * (sqrt 3 / 2))) as [_|H]; [|lra].
  rewrite (up_floor _ 1) by (simpl; lra).
  rewrite (up_floor _ 1) by (simpl; lra).
  reflexivity.
Qed.

End IdealFacts.

(** ** The command builders of txt2png *)

Module CommandFacts.
Import Cxx Txt2png Spec StringFacts EscapeFacts.

Section WithLibm.
Variables cos sin : Q -> Q.

Lemma offset_loop_app (fuel : nat) (r : Q) (d k : Z) (cmd : string) :
  offset_loop cos sin fuel r d k cmd
  = cmd ++ offset_loop cos sin fuel r d k "".
Proof.
  revert k cmd. induction fuel as [|fuel IH]; intros k cmd; simpl.
  - now rewrite append_nil_r.
  - destruct (k <? d); [|now rewrite append_nil_r].
    rewrite IH. rewrite (IH _ (String _ _)). assoc_str. reflexivity.
Qed.

(** The loop stops by its own test: with [d - k] iterations allowed it has
    made one copy for each of [k, ..., d-1] when [k < d] fails. *)
Lemma offset_loop_copies (n : nat) (t d k : Z) :
  k + Z.of_nat n = d ->
  offset_loop cos sin n (inject_Z t) d k ""
  = concat_str
      (map (fun i => shifted_copy (halo_shift cos sin t d (k + Z.of_nat i)))
         (seq 0 n)).
Proof.
  revert k. induction n as [|n IH]; intros k Hk; [reflexivity|].
  cbn [offset_loop].
  replace (k <? d) with true by (symmetry; apply Z.ltb_lt; lia).
  rewrite offset_loop_app. rewrite IH by lia.
  cbn [seq map concat_str]. rewrite <- seq_shift, map_map.
  rewrite Z.add_0_r. f_equal.
  f_equal. apply map_ext. intros i. do 2 f_equal. lia.
Qed.

Lemma offset_loop_none (fuel : nat) (r : Q) (d k : Z) (cmd : string) :
  d <= k -> offset_loop cos sin fuel r d k cmd = cmd.
Proof.
  intros H. destruct fuel; [reflexivity|]. simpl.
  replace (k <? d) with false by (symmetry; apply Z.ltb_ge; lia).
  reflexivity.
Qed.

(** The shape of every offset-halo command. *)
Lemma build_cmd_offset_shape (im_exe text font : string) (point_size : Z)
    (fill_color outline_color : string) (t d : Z) (out_path : string) :
  build_cmd_offset cos sin im_exe text font point_size fill_color
    outline_color t d out_path
  = outline_base im_exe text font point_size outline_color
    ++ concat_str (map shifted_copy (halo_shifts cos sin t d))
    ++ fill_on_top text font point_size fill_color out_path.
Proof.
  unfold build_cmd_offset, outline_base, fill_on_top, halo_shifts.
  rewrite offset_loop_app.
  destruct (Z.le_gt_cases d 0) as [H|H].
  - replace (Z.to_nat d) with 0%nat by lia. cbn [offset_loop seq map concat_str].
    assoc_str. reflexivity.
  - rewrite (offset_loop_copies (Z.to_nat d) t d 0) by lia.
    rewrite map_map. assoc_str. reflexivity.
Qed.

(** With a thickness of zero every copy is shifted by nothing. *)
Lemma halo_shift_zero (d k : Z) : halo_shift cos sin 0 d k = (0, 0).
Proof.
  assert (Hr : forall c : Q,
             round_to_int (to_double (inject_Z 0 * c)) = 0).
  { intros c. rewrite DoubleFacts.to_double_0; [reflexivity|].
    apply Qmult_0_l. }
  unfold halo_shift, offset_dx, offset_dy. now rewrite !Hr.
Qed.

Lemma halo_shifts_zero (d : Z) :
  halo_shifts cos sin 0 d = repeat (0, 0) (Z.to_nat d).
Proof.
  unfold halo_shifts. generalize 0%nat as start.
  induction (Z.to_nat d) as [|n IH]; intros start; [reflexivity|].
  cbn [seq map repeat]. now rewrite halo_shift_zero, IH.
Qed.

Lemma halo_shifts_length (t d : Z) :
  List.length (halo_shifts cos sin t d) = Z.to_nat d.
Proof. unfold halo_shifts. now rewrite length_map, length_seq. Qed.

Lemma halo_shifts_nth (t d k : Z) :
  0 <= k < d ->
  nth_error (halo_shifts cos sin t d) (Z.to_nat k)
  = Some (halo_shift cos sin t d k).
Proof.
  intros H. unfold halo_shifts.
  rewrite nth_error_map, nth_error_seq.
  replace (Z.to_nat k <? Z.to_nat d)%nat with true
    by (symmetry; apply Nat.ltb_lt; lia).
  cbn. now rewrite Z2Nat.id by lia.
Qed.

(** The angle of the first copy is the double 0. *)
Lemma offset_angle_first (d : Z) : offset_angle d 0 = 0%Q.
Proof.
  unfold offset_angle.
  rewrite (DoubleFacts.to_double_0 (_ * inject_Z 0)) by apply Qmult_0_r.
  apply DoubleFacts.to_double_0. apply Qmult_0_l.
Qed.

(** With [cos 0 = 1] and [sin 0 = 0], which the C standard asks of the
    library, the first copy is shifted by the thickness to the right. *)
Lemma halo_shift_first (t d : Z) :
  Z.abs t < 2 ^ 53 -> (cos 0 == 1)%Q -> (sin 0 == 0)%Q ->
  halo_shift cos sin t d 0 = (t, 0).
Proof.
  intros Ht Hc Hs. unfold halo_shift, offset_dx, offset_dy.
  rewrite offset_angle_first. f_equal.
  - apply DoubleFacts.round_to_int_Z. apply DoubleFacts.to_double_Z.
    + exact Ht.
    + rewrite Hc. apply Qmult_1_r.
  - rewrite DoubleFacts.to_double_0; [reflexivity|].
    rewrite Hs. apply Qmult_0_r.
Qed.

(** The product of the thickness and a value between -1 and 1, rounded to
    a double and then to an integer, stays between minus the thickness and
    the thickness. *)
Lemma rounded_product_bounded (t : Z) (c : Q) :
  0 <= t < 2 ^ 53 -> (-1 <= c <= 1)%Q ->
  - t <= round_to_int (to_double (inject_Z t * c)) <= t.
Proof.
  intros Ht [Hc1 Hc2].
  assert (H0 : (0 <= inject_Z t)%Q).
  { change 0%Q with (inject_Z 0). rewrite <- Zle_Qle. lia. }
  assert (Hup : (inject_Z t * c <= inject_Z t)%Q).
  { rewrite <- (Qmult_1_r (inject_Z t)) at 2.
    rewrite !(Qmult_comm (inject_Z t)).
    now apply Qmult_le_compat_r. }
  assert (Hlow : (inject_Z (- t) <= inject_Z t * c)%Q).
  { rewrite inject_Z_opp.
    assert (E : (- inject_Z t == -1 * inject_Z t)%Q) by ring.
    rewrite E, (Qmult_comm (inject_Z t)).
    now apply Qmult_le_compat_r. }
  split.
  - apply DoubleFacts.round_to_int_ge. apply DoubleFacts.to_double_ge_Z.
    + lia.
    + exact Hlow.
  - apply DoubleFacts.round_to_int_le. apply DoubleFacts.to_double_le_Z.
    + lia.
    + exact Hup.
Qed.

Lemma halo_shift_bounded (t d k : Z) :
  0 <= t < 2 ^ 53 ->
  (forall x, -1 <= cos x <= 1)%Q -> (forall x, -1 <= sin x <= 1)%Q ->
  - t <= fst (halo_shift cos sin t d k) <= t
  /\ - t <= snd (halo_shift cos sin t d k) <= t.
Proof.
  intros Ht Hcos Hsin. unfold halo_shift, offset_dx, offset_dy.
  cbn [fst snd]. split; apply rounded_product_bounded; auto.
Qed.

End WithLibm.

(** Claim C2, as the code has it.  For a thickness [t >= 0] (an [int]) and
    [d >= 1] directions the offset-halo command is the outline-colour base
    layer, then exactly [d] copies of it composited with [-compose over],
    centred, and after them the text in the fill colour, centred and not
    shifted, on top.  The [k]-th copy ([k = 0 .. d-1]) is shifted by
    [(round (t * c), round (t * s))], where [c] and [s] are what the
    cosine and the sine of the C library return at the double
    [(2.0 * 3.14159265358979323846 * k) / d] and each product is rounded
    to a double before [std::round].  For a library with [cos 0 = 1] and
    [sin 0 = 0] the first copy is shifted by [(t, 0)], and for one that
    stays between -1 and 1 no copy is shifted by more than [t] in either
    direction.  The shift need not be the rounding of the real number
    [t cos (2 pi k / d)]: see [offset_halo_tie_is_rounded_to_zero]. *)
Theorem offset_halo_composites_d_shifted_copies
    (cos sin : Q -> Q) (im_exe text font : string) (point_size : Z)
    (fill_color outline_color : string) (t d : Z) (out_path : string) :
  0 <= t <= 2147483647 -> 1 <= d ->
  exists copies : list (Z * Z),
    build_cmd_offset cos sin im_exe text font point_size fill_color
      outline_color t d out_path
    = outline_base im_exe text font point_size outline_color
      ++ concat_str (map shifted_copy copies)
      ++ fill_on_top text font point_size fill_color out_path
    /\ Z.of_nat (List.length copies) = d
    /\ (forall k, 0 <= k < d ->
          let angle :=
            to_double
              (to_double (to_double (2 * pi_double) * inject_Z k)
               / inject_Z d) in
          nth_error copies (Z.to_nat k)
          = Some (round_to_int (to_double (inject_Z t * cos angle)),
                  round_to_int (to_double (inject_Z t * sin angle))))
    /\ ((cos 0 == 1)%Q -> (sin 0 == 0)%Q ->
        nth_error copies 0 = Some (t, 0))
    /\ ((forall x, -1 <= cos x <= 1)%Q -> (forall x, -1 <= sin x <= 1)%Q ->
        forall dx dy, In (dx, dy) copies ->
          - t <= dx <= t /\ - t <= dy <= t).
Proof.
  intros Ht Hd.
  assert (Ht53 : 0 <= t < 2 ^ 53).
  { change (2 ^ 53) with 9007199254740992. lia. }
  exists (halo_shifts cos sin t d).
  split; [apply build_cmd_offset_shape|].
  split; [rewrite halo_shifts_length; lia|].
  split; [intros k Hk angle; now rewrite halo_shifts_nth|].
  split.
  - intros Hc Hs. change 0%nat with (Z.to_nat 0).
    rewrite halo_shifts_nth by lia.
    rewrite halo_shift_first; [reflexivity | lia | exact Hc | exact Hs].
  - intros Hcos Hsin dx dy Hin. unfold halo_shifts in Hin.
    apply in_map_iff in Hin. destruct Hin as [k [Hk _]].
    pose proof (halo_shift_bounded cos sin t d (Z.of_nat k) Ht53 Hcos Hsin)
      as Hb.
    rewrite Hk in Hb. exact Hb.
Qed.

(** Six directions and a thickness of 1, with the values of glibc. *)
Lemma offset_halo_composites_d_shifted_copies_witness :
  exists copies : list (Z * Z),
    build_cmd_offset Samples.libm_cos Samples.libm_sin "magick" "Hi" "" 64
      "#FFFFFF" "#000000" 1 6 "1.png"
    = outline_base "magick" "Hi" "" 64 "#000000"
      ++ concat_str (map shifted_copy copies)
      ++ fill_on_top "Hi" "" 64 "#FFFFFF" "1.png"
    /\ Z.of_nat (List.length copies) = 6
    /\ nth_error copies 0 = Some (1, 0)
    /\ nth_error copies 2 = Some (0, 1)
    /\ forall dx dy, In (dx, dy) copies -> - 1 <= dx <= 1 /\ - 1 <= dy <= 1.
Proof.
  assert (Hcos : (forall x, -1 <= Samples.libm_cos x <= 1)%Q).
  { intros x. unfold Samples.libm_cos, Samples.at_angle.
    cbn [find Samples.six_directions fst snd option_map].
    repeat (destruct (Qeq_bool _ x);
            [cbn [option_map snd fst]; split; discriminate|]).
    cbn [option_map]. split; discriminate. }
  assert (Hsin : (forall x, -1 <= Samples.libm_sin x <= 1)%Q).
  { intros x. unfold Samples.libm_sin, Samples.at_angle.
    cbn [find Samples.six_directions fst snd option_map].
    repeat (destruct (Qeq_bool _ x);
            [cbn [option_map snd fst]; split; discriminate|]).
    cbn [option_map]. split; discriminate. }
  destruct (offset_halo_composites_d_shifted_copies
              Samples.libm_cos Samples.libm_sin "magick" "Hi" "" 64
              "#FFFFFF" "#000000" 1 6 "1.png")
    as (copies & Hcmd & Hlen & Hnth & Hfirst & Hbound); [lia | lia |].
  exists copies.
  split; [exact Hcmd|]. split; [exact Hlen|].
  split; [apply Hfirst; reflexivity|].
  split; [|apply Hbound; assumption].
  change 2%nat with (Z.to_nat 2). rewrite Hnth by lia.
  vm_compute. reflexivity.
Defined.

(** Against claim C2 as stated.  With a thickness of 1 and six directions
    the third copy ([k = 2]) stands at a third of the turn, where the
    cosine is [-1/2]: the formula of real numbers gives the shift
    [(-1, 1)].  The double nearest to that angle lies under it, glibc's
    cosine there is [-0x1.ffffffffffffcp-2], above [-1/2], and the program
    shifts the copy by [(0, 1)].  The command is the one the program
    prints for an input file with the line [Hi] and the options
    [--outline-method offset --outline 1 --offset-directions 6
    --dry-run]. *)
Lemma offset_halo_tie_is_rounded_to_zero :
  Ideal.ring_shift 1 6 2 = (-1, 1)
  /\ halo_shifts Samples.libm_cos Samples.libm_sin 1 6
     = [(1, 0); (1, 1); (0, 1); (-1, 0); (-1, -1); (1, -1)]
  /\ Txt2pngCli.main_argv MoreSamples.stoi_1_6 Samples.libm_cos
       Samples.libm_sin MoreSamples.hi_file "txt2png"
       ["--input"; "in.txt"; "--outline-method"; "offset"; "--outline"; "1";
        "--offset-directions"; "6"; "--dry-run"]
     = (Txt2pngCli.Exit 0,
        {| w_stdout :=
             build_cmd_offset Samples.libm_cos Samples.libm_sin "magick"
               "Hi" "" 64 "#FFFFFF" "#000000" 1 6 "1.png" ++ NL;
           w_stderr := "";
           w_commands := [] |})
  /\ build_cmd_offset Samples.libm_cos Samples.libm_sin "magick" "Hi" "" 64
       "#FFFFFF" "#000000" 1 6 "1.png"
     = "magick -background none -pointsize 64 -fill " ++ DQ ++ "#000000" ++ DQ
       ++ " label:" ++ DQ ++ "Hi" ++ DQ
       ++ " -write mpr:outline +delete  mpr:outline"
       ++ " mpr:outline -background none -gravity center -geometry +1+0 -compose over -composite"
       ++ " mpr:outline -background none -gravity center -geometry +1+1 -compose over -composite"
       ++ " mpr:outline -background none -gravity center -geometry +0+1 -compose over -composite"
       ++ " mpr:outline -background none -gravity center -geometry +-1+0 -compose over -composite"
       ++ " mpr:outline -background none -gravity center -geometry +-1+-1 -compose over -composite"
       ++ " mpr:outline -background none -gravity center -geometry +1+-1 -compose over -composite"
       ++ " ( -background none -pointsize 64 -fill " ++ DQ ++ "#FFFFFF" ++ DQ
       ++ " label:" ++ DQ ++ "Hi" ++ DQ
       ++ " ) -gravity center -compose over -composite PNG32:" ++ DQ
       ++ "1.png" ++ DQ.
Proof.
  split; [exact IdealFacts.ring_shift_third_of_turn|].
  split; [vm_compute; reflexivity|].
  split; vm_compute; reflexivity.
Qed.

(** Claim C3, as the code has it.  With [directions <= 0] no shifted copy
    is composited, and with a thickness of 0 every composited copy is
    shifted by [+0+0]; in both cases the command still draws the text in
    the outline colour as the base layer, under the text in the fill
    colour. *)
Theorem offset_halo_degenerate_keeps_base_layer
    (cos sin : Q -> Q) (im_exe text font : string) (point_size : Z)
    (fill_color outline_color : string) (t d : Z) (out_path : string) :
  (d <= 0 ->
   build_cmd_offset cos sin im_exe text font point_size fill_color
     outline_color t d out_path
   = outline_base im_exe text font point_size outline_color
     ++ fill_on_top text font point_size fill_color out_path)
  /\
  (t = 0 ->
   build_cmd_offset cos sin im_exe text font point_size fill_color
     outline_color t d out_path
   = outline_base im_exe text font point_size outline_color
     ++ concat_str (repeat (shifted_copy (0, 0)) (Z.to_nat d))
     ++ fill_on_top text font point_size fill_color out_path).
Proof.
  split; intros H; rewrite build_cmd_offset_shape.
  - unfold halo_shifts. replace (Z.to_nat d) with 0%nat by lia.
    reflexivity.
  - subst t. rewrite halo_shifts_zero, map_repeat. reflexivity.
Qed.

Lemma offset_halo_degenerate_keeps_base_layer_witness :
  (0 <= 0 ->
   build_cmd_offset Samples.cos_at_0 Samples.sin_at_0 "magick" "Hi" "" 64
     "#FFFFFF" "#000000" 0 0 "out1.png"
   = outline_base "magick" "Hi" "" 64 "#000000"
     ++ fill_on_top "Hi" "" 64 "#FFFFFF" "out1.png")
  /\
  (0 = 0 ->
   build_cmd_offset Samples.cos_at_0 Samples.sin_at_0 "magick" "Hi" "" 64
     "#FFFFFF" "#000000" 0 0 "out1.png"
   = outline_base "magick" "Hi" "" 64 "#000000"
     ++ concat_str (repeat (shifted_copy (0, 0)) (Z.to_nat 0))
     ++ fill_on_top "Hi" "" 64 "#FFFFFF" "out1.png").
Proof.
  apply (offset_halo_degenerate_keeps_base_layer
           Samples.cos_at_0 Samples.sin_at_0 "magick" "Hi" "" 64
           "#FFFFFF" "#000000" 0 0 "out1.png").
Defined.

(** Against claim C3 as stated: with [directions = 0], and with a thickness
    of 0, the command still has a layer in the outline colour; with a
    thickness of -4 and one direction, whose only angle is 0, the copy in
    the outline colour is even shifted by 4 pixels. *)
Lemma offset_halo_zero_directions_draws_outline :
  build_cmd_offset Samples.cos_at_0 Samples.sin_at_0 "magick" "Hi" "" 64
    "#FFFFFF" "#000000" 4 0 "out1.png"
  = "magick -background none -pointsize 64 -fill " ++ DQ ++ "#000000" ++ DQ
    ++ " label:" ++ DQ ++ "Hi" ++ DQ
    ++ " -write mpr:outline +delete  mpr:outline"
    ++ " ( -background none -pointsize 64 -fill " ++ DQ ++ "#FFFFFF" ++ DQ
    ++ " label:" ++ DQ ++ "Hi" ++ DQ
    ++ " ) -gravity center -compose over -composite PNG32:" ++ DQ
    ++ "out1.png" ++ DQ
  /\ draws_in_color "#000000"
       (build_cmd_offset Samples.cos_at_0 Samples.sin_at_0 "magick" "Hi" "" 64
          "#FFFFFF" "#000000" 4 0 "out1.png") = true
  /\ draws_in_color "#000000"
       (build_cmd_offset Samples.cos_at_0 Samples.sin_at_0 "magick" "Hi" "" 64
          "#FFFFFF" "#000000" 0 1 "out1.png") = true
  /\ occurs " mpr:outline -background none -gravity center -geometry +0+0 -compose over -composite"
       (build_cmd_offset Samples.cos_at_0 Samples.sin_at_0 "magick" "Hi" "" 64
          "#FFFFFF" "#000000" 0 1 "out1.png") = true
  /\ occurs " mpr:outline -background none -gravity center -geometry +-4+0 -compose over -composite"
       (build_cmd_offset Samples.cos_at_0 Samples.sin_at_0 "magick" "Hi" "" 64
          "#FFFFFF" "#000000" (-4) 1 "out1.png") = true.
Proof.
  split; [vm_compute; reflexivity|].
  split; [vm_compute; reflexivity|].
  split; [vm_compute; reflexivity|].
  split; vm_compute; reflexivity.
Qed.

(** Claim C9.  [escape_for_label] puts one backslash before each backslash
    and each double quote and leaves every other character, the shell's
    [$], backquote and [;] among them, as it is; the result is at most twice
    as long as the text, reads back as the text, and is the only form in
    which the text enters the two commands. *)
Theorem escape_for_label_inserts_backslashes :
  (forall s, escape_for_label s = insert_backslashes s)
  /\ (forall s, remove_backslashes (escape_for_label s) = s)
  /\ (forall s, (String.length (escape_for_label s)
                 <= 2 * String.length s)%nat)
  /\ (forall c s,
        c <> backslash_char -> c <> dquote_char ->
        escape_for_label (String c s) = String c (escape_for_label s))
  /\ (forall c s,
        c = backslash_char \/ c = dquote_char ->
        escape_for_label (String c s)
        = String backslash_char (String c (escape_for_label s)))
  /\ escape_for_label "$`;" = "$`;"
  /\ (forall im_exe font point_size fill_color outline_color t out_path,
        exists head tail, forall text,
          build_cmd_stroke im_exe text font point_size fill_color
            outline_color t out_path
          = head ++ escape_for_label text ++ tail)
  /\ (forall cos sin im_exe font point_size fill_color outline_color t d
             out_path,
        exists head middle tail, forall text,
          build_cmd_offset cos sin im_exe text font point_size fill_color
            outline_color t d out_path
          = head ++ escape_for_label text ++ middle
            ++ escape_for_label text ++ tail).
Proof.
  repeat split.
  - apply escape_is_insert.
  - intros s. rewrite escape_is_insert. apply remove_insert.
  - intros s. rewrite escape_is_insert. apply insert_length.
  - intros c s Hb Hq. rewrite !escape_is_insert. cbn [insert_backslashes].
    unfold needs_backslash.
    apply Ascii.eqb_neq in Hb, Hq. now rewrite Hb, Hq.
  - intros c s H. rewrite !escape_is_insert. cbn [insert_backslashes].
    unfold needs_backslash.
    destruct H as [-> | ->]; reflexivity.
  - intros im font p fillc outc t out.
    exists (im ++ " -background none"
            ++ " -fill " ++ DQ ++ fillc ++ DQ
            ++ " -stroke " ++ DQ ++ outc ++ DQ
            ++ " -strokewidth " ++ string_of_Z t ++ font_arg font
            ++ " -pointsize " ++ string_of_Z p ++ " label:" ++ DQ).
    exists (DQ ++ " PNG32:" ++ DQ ++ out ++ DQ).
    intros text. unfold build_cmd_stroke. assoc_str. reflexivity.
  - intros cos sin im font p fillc outc t d out.
    exists (im ++ " -background none" ++ font_arg font
            ++ " -pointsize " ++ string_of_Z p
            ++ " -fill " ++ DQ ++ outc ++ DQ ++ " label:" ++ DQ).
    exists (DQ ++ " -write mpr:outline +delete " ++ " mpr:outline"
            ++ concat_str (map shifted_copy (halo_shifts cos sin t d))
            ++ " ( -background none" ++ font_arg font
            ++ " -pointsize " ++ string_of_Z p
            ++ " -fill " ++ DQ ++ fillc ++ DQ ++ " label:" ++ DQ).
    exists (DQ ++ " ) -gravity center -compose over -composite"
            ++ " PNG32:" ++ DQ ++ out ++ DQ).
    intros text.
    rewrite build_cmd_offset_shape. unfold outline_base, fill_on_top.
    assoc_str. reflexivity.
Qed.

(** A dollar sign passes as it is and a backslash gets one before it. *)
Lemma escape_for_label_inserts_backslashes_witness :
  escape_for_label (String "$"%char "a")
  = String "$"%char (escape_for_label "a")
  /\ escape_for_label (String backslash_char "a")
     = String backslash_char (String backslash_char (escape_for_label "a")).
Proof.
  split.
  - apply (proj1 (proj2 (proj2 (proj2
             escape_for_label_inserts_backslashes)))); discriminate.
  - apply (proj1 (proj2 (proj2 (proj2 (proj2
             escape_for_label_inserts_backslashes))))).
    left. reflexivity.
Defined.

End CommandFacts.

(** ** Trimming *)

Module TrimFacts.
Import Cxx Txt2png Spec StringFacts.

Lemma ltrim_chars_split (l : list ascii) :
  l = (firstn (find_if_not_space l) l ++ ltrim_chars l)%list
  /\ forallb isspace (firstn (find_if_not_space l) l) = true.
Proof.
  unfold ltrim_chars. split; [now rewrite firstn_skipn|].
  induction l as [|c l IH]; [reflexivity|].
  cbn [find_if_not_space]. destruct (isspace c) eqn:E; [|reflexivity].
  cbn [firstn forallb]. now rewrite E, IH.
Qed.

Lemma ltrim_chars_head (l : list ascii) (c : ascii) (l' : list ascii) :
  ltrim_chars l = c :: l' -> isspace c = false.
Proof.
  unfold ltrim_chars. induction l as [|x l IH]; [discriminate|].
  cbn [find_if_not_space]. destruct (isspace x) eqn:E.
  - cbn [skipn]. exact IH.
  - cbn [skipn]. intros H. injection H as -> _. exact E.
Qed.

Lemma ltrim_chars_all_space (l : list ascii) :
  forallb isspace l = true -> ltrim_chars l = [].
Proof.
  unfold ltrim_chars. induction l as [|x l IH]; [reflexivity|].
  cbn [forallb find_if_not_space]. intros H.
  apply andb_true_iff in H as [Hx Hl]. rewrite Hx. cbn [skipn]. auto.
Qed.

Lemma rtrim_chars_rev (l : list ascii) :
  rtrim_chars l = rev (ltrim_chars (rev l)).
Proof.
  unfold rtrim_chars, ltrim_chars.
  rewrite skipn_rev, rev_involutive. reflexivity.
Qed.

Lemma rtrim_chars_split (l : list ascii) :
  exists trail, l = (rtrim_chars l ++ trail)%list
                /\ forallb isspace trail = true.
Proof.
  destruct (ltrim_chars_split (rev l)) as [Hs Hsp].
  exists (rev (firstn (find_if_not_space (rev l)) (rev l))). split.
  - rewrite rtrim_chars_rev, <- rev_app_distr, <- Hs.
    now rewrite rev_involutive.
  - rewrite forallb_forall in *. intros x Hx. apply Hsp.
    now apply in_rev.
Qed.

Lemma rtrim_chars_last (l pre : list ascii) (c : ascii) :
  rtrim_chars l = (pre ++ [c])%list -> isspace c = false.
Proof.
  rewrite rtrim_chars_rev. intros H.
  apply (f_equal (@rev ascii)) in H.
  rewrite rev_involutive, rev_app_distr in H. cbn in H.
  now apply ltrim_chars_head in H.
Qed.

Lemma ltrim_list (s : string) :
  list_ascii_of_string (ltrim s) = ltrim_chars (list_ascii_of_string s).
Proof. unfold ltrim. now rewrite list_ascii_of_string_of_list_ascii. Qed.

Lemma rtrim_list (s : string) :
  list_ascii_of_string (rtrim s) = rtrim_chars (list_ascii_of_string s).
Proof. unfold rtrim. now rewrite list_ascii_of_string_of_list_ascii. Qed.

Lemma trim_list (s : string) :
  list_ascii_of_string (trim s)
  = rtrim_chars (ltrim_chars (list_ascii_of_string s)).
Proof. unfold trim. now rewrite rtrim_list, ltrim_list. Qed.

Lemma all_space_list (s : string) :
  all_space s = forallb isspace (list_ascii_of_string s).
Proof. induction s as [|c s IH]; simpl; [reflexivity | now rewrite IH]. Qed.

Lemma first_char_list (s : string) :
  first_char s = hd_error (list_ascii_of_string s).
Proof. destruct s; reflexivity. Qed.

Lemma last_char_list (s : string) (c : ascii) :
  last_char s = Some c ->
  exists pre, list_ascii_of_string s = (pre ++ [c])%list.
Proof.
  induction s as [|x s IH]; [discriminate|].
  destruct s as [|y s].
  - cbn. intros H. injection H as ->. now exists [].
  - intros H. destruct (IH H) as [pre Hpre].
    exists (x :: pre). cbn [list_ascii_of_string] in *. now rewrite Hpre.
Qed.

Lemma string_of_list_inj (s : string) (l : list ascii) :
  list_ascii_of_string s = l -> s = string_of_list_ascii l.
Proof. intros <-. now rewrite string_of_list_ascii_of_string. Qed.

(** The trimmed text is the text without a stretch of white space at each
    end. *)
Lemma trim_split (s : string) :
  exists lead trail,
    s = lead ++ trim s ++ trail
    /\ all_space lead = true /\ all_space trail = true.
Proof.
  set (l := list_ascii_of_string s).
  destruct (ltrim_chars_split l) as [Hl Hlead].
  destruct (rtrim_chars_split (ltrim_chars l)) as [trail [Ht Htrail]].
  exists (string_of_list_ascii (firstn (find_if_not_space l) l)),
         (string_of_list_ascii trail).
  split; [|split].
  - rewrite (string_of_list_inj (trim s) _ (trim_list s)).
    rewrite <- !string_of_app. apply string_of_list_inj.
    fold l. now rewrite <- Ht.
  - now rewrite all_space_list, list_ascii_of_string_of_list_ascii.
  - now rewrite all_space_list, list_ascii_of_string_of_list_ascii.
Qed.

(** The trimmed text neither begins nor ends with white space. *)
Lemma trim_no_outer_space (s : string) : no_outer_space (trim s).
Proof.
  set (l := list_ascii_of_string s). split; intros c H.
  - rewrite first_char_list, trim_list in H. fold l in H.
    destruct (rtrim_chars_split (ltrim_chars l)) as [trail [Ht _]].
    destruct (rtrim_chars (ltrim_chars l)) as [|x r] eqn:E; [discriminate|].
    cbn in H. injection H as ->.
    cbn in Ht. now apply ltrim_chars_head in Ht.
  - apply last_char_list in H as [pre H]. rewrite trim_list in H.
    now apply rtrim_chars_last in H.
Qed.

(** A text trims to nothing exactly when it is white space only. *)
Lemma trim_empty_iff (s : string) : trim s = "" <-> all_space s = true.
Proof.
  set (l := list_ascii_of_string s). split; intros H.
  - destruct (trim_split s) as [lead [trail [Hs [Hl Ht]]]].
    rewrite H in Hs. cbn in Hs. rewrite Hs.
    rewrite all_space_list, list_of_append, forallb_app.
    now rewrite <- !all_space_list, Hl, Ht.
  - rewrite all_space_list in H. fold l in H.
    rewrite (string_of_list_inj (trim s) _ (trim_list s)). fold l.
    rewrite (ltrim_chars_all_space l H). reflexivity.
Qed.

Lemma trim_eqb_empty (s : string) :
  String.eqb (trim s) "" = all_space s.
Proof.
  destruct (all_space s) eqn:E.
  - apply String.eqb_eq. now apply trim_empty_iff.
  - apply String.eqb_neq. intros H. apply trim_empty_iff in H. congruence.
Qed.

End TrimFacts.

(** ** Render jobs *)

Module JobFacts.
Import Cxx Spec.

Lemma numbered_from_cons (start : Z) (l : string) (rest : list string) :
  numbered_from start (l :: rest) = (start, l) :: numbered_from (start + 1) rest.
Proof.
  unfold numbered_from. cbn [List.length seq map combine].
  rewrite Z.add_0_r. f_equal. f_equal.
  rewrite <- seq_shift, map_map. apply map_ext. intros i. lia.
Qed.

Lemma jobs_by_position_cons (start : Z) (l : string) (rest : list string) :
  jobs_by_position start (l :: rest)
  = if all_space l then jobs_by_position (start + 1) rest
    else (start, Txt2png.trim l) :: jobs_by_position (start + 1) rest.
Proof.
  unfold jobs_by_position. rewrite numbered_from_cons. cbn [filter snd].
  destruct (all_space l); reflexivity.
Qed.

Lemma jobs_consecutive_cons (start : Z) (l : string) (rest : list string) :
  jobs_consecutive start (l :: rest)
  = if String.eqb l "" then jobs_consecutive start rest
    else (start, l) :: jobs_consecutive (start + 1) rest.
Proof.
  unfold jobs_consecutive. cbn [filter].
  destruct (String.eqb l ""); cbn [negb]; [reflexivity|].
  apply numbered_from_cons.
Qed.

Lemma jobs_by_position_app (start : Z) (l1 l2 : list string) :
  jobs_by_position start (l1 ++ l2)
  = (jobs_by_position start l1
     ++ jobs_by_position (start + Z.of_nat (List.length l1)) l2)%list.
Proof.
  revert start. induction l1 as [|x l1 IH]; intros start.
  - cbn. now rewrite Z.add_0_r.
  - cbn [app List.length]. rewrite !jobs_by_position_cons, IH.
    replace (start + 1 + Z.of_nat (List.length l1))
      with (start + Z.of_nat (S (List.length l1))) by lia.
    destruct (all_space x); reflexivity.
Qed.

(** Numbers by position: a number is used exactly when the line at that
    position is not white space only. *)
Lemma position_numbers (start : Z) (lines : list string) (n : Z) :
  In n (map fst (jobs_by_position start lines)) <->
  exists i l, nth_error lines i = Some l /\ all_space l = false
              /\ n = start + Z.of_nat i.
Proof.
  revert start. induction lines as [|x lines IH]; intros start.
  - cbn. split; [tauto|]. intros [i [l [H _]]]. destruct i; discriminate.
  - rewrite jobs_by_position_cons. split.
    + intros H.
      assert (Hrest : In n (map fst (jobs_by_position (start + 1) lines))
                      -> exists i l, nth_error (x :: lines) i = Some l
                           /\ all_space l = false /\ n = start + Z.of_nat i).
      { intros H'. apply IH in H' as [i [l [Hi [Hl Hn]]]].
        exists (S i), l. repeat split; [exact Hi | exact Hl | lia]. }
      destruct (all_space x) eqn:E; [now apply Hrest|].
      destruct H as [H|H]; [|now apply Hrest].
      exists 0%nat, x. cbn in *. repeat split; [exact E | lia].
    + intros [i [l [Hi [Hl Hn]]]]. destruct i as [|i].
      * cbn in Hi. injection Hi as ->. rewrite Hl. left. cbn. lia.
      * assert (In n (map fst (jobs_by_position (start + 1) lines))).
        { apply IH. exists i, l. repeat split; [exact Hi | exact Hl | lia]. }
        destruct (all_space x); [assumption | now right].
Qed.

(** Consecutive numbers: the numbers used are those from [start] up to the
    number of non-empty lines. *)
Lemma consecutive_numbers (start : Z) (lines : list string) (n : Z) :
  In n (map fst (jobs_consecutive start lines)) <->
  start <= n < start + Z.of_nat (List.length (jobs_consecutive start lines)).
Proof.
  revert start. induction lines as [|x lines IH]; intros start.
  - cbn. lia.
  - rewrite jobs_consecutive_cons. destruct (String.eqb x ""); [apply IH|].
    cbn [map fst In List.length]. rewrite IH. lia.
Qed.

Lemma consecutive_length (start start' : Z) (lines : list string) :
  List.length (jobs_consecutive start lines)
  = List.length (jobs_consecutive start' lines).
Proof.
  unfold jobs_consecutive, numbered_from.
  now rewrite !length_combine, !length_map, !length_seq.
Qed.

(** An empty line with a line to render somewhere after it tells the two
    numberings apart. *)
Lemma numberings_differ (start : Z) (before rest : list string)
    (l : string) :
  In l rest -> all_space l = false ->
  map fst (jobs_by_position start (before ++ "" :: rest))
  <> map fst (jobs_consecutive start (before ++ "" :: rest)).
Proof.
  intros Hin Hl Heq.
  set (lines := (before ++ "" :: rest)%list) in *.
  set (hole := start + Z.of_nat (List.length before)).
  apply In_nth_error in Hin as [j Hj].
  assert (Hlater : In (hole + 1 + Z.of_nat j)
                     (map fst (jobs_by_position start lines))).
  { apply position_numbers.
    exists (List.length before + S j)%nat, l. repeat split.
    - unfold lines. rewrite nth_error_app2 by lia.
      replace (List.length before + S j - List.length before)%nat
        with (S j) by lia. exact Hj.
    - exact Hl.
    - unfold hole. lia. }
  assert (Hhole : ~ In hole (map fst (jobs_by_position start lines))).
  { intros H. apply position_numbers in H as [i [x [Hi [Hx Hn]]]].
    assert (i = List.length before) by (unfold hole in Hn; lia). subst i.
    unfold lines in Hi. rewrite nth_error_app2 in Hi by lia.
    rewrite Nat.sub_diag in Hi. cbn in Hi. injection Hi as <-.
    discriminate. }
  rewrite Heq in Hlater, Hhole.
  apply Hhole. apply consecutive_numbers.
  apply consecutive_numbers in Hlater. unfold hole in *. lia.
Qed.

(** Numbers by position are not under the first position. *)
Lemma position_numbers_ge (start : Z) (lines : list string) (n : Z) :
  In n (map fst (jobs_by_position start lines)) -> start <= n.
Proof.
  intros H. apply position_numbers in H as [i [l [_ [_ Hn]]]]. lia.
Qed.

Lemma all_space_not_empty (l : string) : all_space l = false -> l <> "".
Proof. intros H ->. discriminate. Qed.

Lemma jobs_consecutive_none (start : Z) (lines : list string) :
  jobs_consecutive start lines = [] ->
  lines = repeat "" (List.length lines).
Proof.
  revert start. induction lines as [|x lines IH]; intros start H.
  - reflexivity.
  - rewrite jobs_consecutive_cons in H.
    destruct (String.eqb x "") eqn:E; [|discriminate].
    apply String.eqb_eq in E. subst x.
    cbn [List.length repeat]. f_equal. now apply (IH start).
Qed.

Lemma jobs_of_empty_lines (start : Z) (k : nat) :
  jobs_by_position start (repeat "" k) = []
  /\ jobs_consecutive start (repeat "" k) = [].
Proof.
  revert start. induction k as [|k IH]; intros start.
  - split; reflexivity.
  - cbn [repeat].
    rewrite jobs_by_position_cons, jobs_consecutive_cons.
    cbn [String.eqb]. destruct (IH (start + 1)) as [H1 _].
    destruct (IH start) as [_ H2]. split; assumption.
Qed.

(** The two numberings give the same numbers exactly on the inputs made of
    lines to render followed by empty lines only. *)
Lemma numberings_agree_iff (start : Z) (lines : list string) :
  map fst (jobs_by_position start lines)
  = map fst (jobs_consecutive start lines)
  <-> exists front k,
        lines = (front ++ repeat "" k)%list
        /\ Forall (fun l => all_space l = false) front.
Proof.
  split.
  - revert start. induction lines as [|x lines IH]; intros start H.
    + exists [], 0%nat. split; [reflexivity | constructor].
    + rewrite jobs_by_position_cons, jobs_consecutive_cons in H.
      destruct (all_space x) eqn:Ex.
      * destruct (String.eqb x "") eqn:E.
        -- apply String.eqb_eq in E. subst x.
           assert (Hnone : jobs_consecutive start lines = []).
           { destruct (jobs_consecutive start lines) as [|j js] eqn:Ej;
               [reflexivity | exfalso].
             assert (Hin : In start (map fst (jobs_consecutive start lines))).
             { apply consecutive_numbers. rewrite Ej. cbn [List.length].
               lia. }
             rewrite Ej, <- H in Hin.
             apply position_numbers_ge in Hin. lia. }
           apply jobs_consecutive_none in Hnone.
           exists [], (S (List.length lines)). split; [|constructor].
           cbn [app repeat]. now f_equal.
        -- exfalso.
           assert (Hin : In start
                           (map fst (jobs_by_position (start + 1) lines))).
           { rewrite H. left. reflexivity. }
           apply position_numbers_ge in Hin. lia.
      * pose proof (all_space_not_empty x Ex) as Hne.
        apply String.eqb_neq in Hne. rewrite Hne in H.
        cbn [map fst] in H. injection H as H.
        apply IH in H as [front [k [Hl Hf]]].
        exists (x :: front), k. split.
        -- cbn [app]. now f_equal.
        -- now constructor.
  - intros [front [k [-> Hf]]]. revert start.
    induction Hf as [|x front Hx Hf IH]; intros start.
    + cbn [app]. destruct (jobs_of_empty_lines start k) as [-> ->].
      reflexivity.
    + cbn [app]. rewrite jobs_by_position_cons, jobs_consecutive_cons.
      rewrite Hx. pose proof (all_space_not_empty x Hx) as Hne.
      apply String.eqb_neq in Hne. rewrite Hne.
      cbn [map fst]. f_equal. apply IH.
Qed.

End JobFacts.

(** ** The batch driver of txt2png *)

Module Txt2pngFacts.
Import Cxx Txt2png Spec StringFacts TrimFacts JobFacts.

Section Loop.
Variables cos sin : Q -> Q.
Variable env : Env.
Variable opt : Options.
Variable font : string.

#[local] Abbreviation job_command := (Txt2png.job_command cos sin opt font).

Lemma line_loop_blank (line : string) (rest : list string)
    (lineno made : Z) (w : World) :
  all_space line = true ->
  line_loop cos sin env opt font (line :: rest) lineno made w
  = line_loop cos sin env opt font rest (lineno + 1) made w.
Proof.
  intros H. cbn [line_loop]. now rewrite trim_eqb_empty, H.
Qed.

(** A dry run prints the command of every job and runs none. *)
Lemma line_loop_dry_run (lines : list string) (lineno made : Z) (w : World) :
  dry_run opt = true ->
  line_loop cos sin env opt font lines lineno made w
  = (None, made,
     {| w_stdout := w_stdout w
                    ++ concat_str (map (fun j => job_command j ++ NL)
                                     (jobs_by_position lineno lines));
        w_stderr := w_stderr w;
        w_commands := w_commands w |}).
Proof.
  intros Hdry. revert lineno made w.
  induction lines as [|line rest IH]; intros lineno made w.
  - cbn. destruct w; cbn. now rewrite append_nil_r.
  - rewrite jobs_by_position_cons. cbn [line_loop].
    rewrite trim_eqb_empty. destruct (all_space line); [apply IH|].
    rewrite Hdry, IH. cbn [map concat_str put_stdout w_stdout w_stderr
                             w_commands Txt2png.job_command fst snd].
    unfold Txt2png.job_command. assoc_str. reflexivity.
Qed.

(** When every command succeeds the loop runs the command of every job, in
    order, and counts them. *)
Lemma line_loop_all_succeed (lines : list string) (lineno made : Z)
    (w : World) :
  dry_run opt = false ->
  Forall (fun j => system env (job_command j) = 0)
    (jobs_by_position lineno lines) ->
  line_loop cos sin env opt font lines lineno made w
  = (None,
     made + Z.of_nat (List.length (jobs_by_position lineno lines)),
     {| w_stdout := w_stdout w;
        w_stderr := w_stderr w;
        w_commands := w_commands w
                      ++ map job_command (jobs_by_position lineno lines) |}).
Proof.
  intros Hdry. revert lineno made w.
  induction lines as [|line rest IH]; intros lineno made w Hok.
  - cbn. destruct w; cbn. now rewrite app_nil_r, Z.add_0_r.
  - rewrite jobs_by_position_cons in *. cbn [line_loop].
    rewrite trim_eqb_empty. destruct (all_space line); [now apply IH|].
    inversion Hok as [|j js Hj Hjs]; subst.
    unfold Txt2png.job_command in Hj. cbn [fst snd] in Hj.
    rewrite Hdry, Hj. cbn [Z.eqb negb].
    rewrite IH by assumption.
    cbn [ran_command w_stdout w_stderr w_commands List.length map].
    rewrite <- app_assoc. cbn [app]. unfold Txt2png.job_command at 3.
    cbn [fst snd]. do 2 f_equal. lia.
Qed.

(** The first command that fails ends the loop: it is reported with its
    status, [main] is left with status 7, and the lines after it are not
    looked at. *)
Lemma line_loop_abort (before : list string) (line : string)
    (after : list string) (lineno made : Z) (w : World) :
  dry_run opt = false ->
  Forall (fun j => system env (job_command j) = 0)
    (jobs_by_position lineno before) ->
  all_space line = false ->
  let failing :=
    job_command (lineno + Z.of_nat (List.length before), trim line) in
  system env failing <> 0 ->
  line_loop cos sin env opt font (before ++ line :: after) lineno made w
  = (Some 7,
     made + Z.of_nat (List.length (jobs_by_position lineno before)),
     {| w_stdout := w_stdout w;
        w_stderr := w_stderr w
                    ++ "Command failed (rc="
                    ++ string_of_Z (system env failing) ++ "): "
                    ++ failing ++ NL;
        w_commands := w_commands w
                      ++ map job_command (jobs_by_position lineno before)
                      ++ [failing] |}).
Proof.
  intros Hdry Hok Hline failing Hfail. subst failing.
  revert lineno made w Hok Hfail.
  induction before as [|b before IH]; intros lineno made w Hok Hfail.
  - cbn [app List.length Z.of_nat] in *. rewrite Z.add_0_r in *.
    cbn [line_loop]. rewrite trim_eqb_empty, Hline, Hdry.
    unfold Txt2png.job_command in *. cbn [fst snd] in *.
    apply Z.eqb_neq in Hfail. rewrite Hfail. cbn [negb].
    cbn. now rewrite Z.add_0_r.
  - cbn [app]. rewrite jobs_by_position_cons in *. cbn [line_loop].
    rewrite trim_eqb_empty.
    replace (lineno + Z.of_nat (List.length (b :: before)))
      with (lineno + 1 + Z.of_nat (List.length before)) in *
      by (cbn [List.length]; lia).
    destruct (all_space b); [now apply IH|].
    inversion Hok as [|j js Hj Hjs]; subst.
    unfold Txt2png.job_command in Hj. cbn [fst snd] in Hj.
    rewrite Hdry, Hj. cbn [Z.eqb negb].
    rewrite IH by assumption.
    cbn [ran_command w_stdout w_stderr w_commands List.length map].
    rewrite <- app_assoc. cbn [app]. unfold Txt2png.job_command at 5.
    cbn [fst snd]. do 2 f_equal. lia.
Qed.


End Loop.


End Txt2pngFacts.

(** ** The batch driver of text2png *)

Module Text2pngFacts.
Import Cxx Text2png Spec StringFacts JobFacts.

Lemma render_keeps_stdout (b : Backend) (text filename : string)
    (opts : TextOptions) (w : World) :
  w_stdout (render_text_to_png b text filename opts w) = w_stdout w.
Proof.
  unfold render_text_to_png.
  destruct (FT_Init_FreeType b); [|reflexivity]. cbn [negb].
  destruct (FcFontMatch_file b (font_name opts)); [|reflexivity].
  destruct (FT_New_Face b s); [|reflexivity]. cbn [negb].
  destruct (cairo_surface_write_to_png b _ filename); reflexivity.
Qed.

(** Every non-empty line is rendered and announced under the next number,
    whatever the renderer met. *)
Lemma line_loop_announces (b : Backend) (opts : TextOptions)
    (lines : list string) (n : Z) (w : World) :
  w_stdout (line_loop b opts lines n w)
  = w_stdout w
    ++ concat_str
         (map (fun j => "Created: " ++ output_name (output_prefix opts) (fst j)
                        ++ NL)
            (jobs_consecutive n lines)).
Proof.
  revert n w. induction lines as [|line rest IH]; intros n w.
  - cbn. now rewrite append_nil_r.
  - rewrite jobs_consecutive_cons. cbn [line_loop].
    destruct (String.eqb line ""); cbn [negb]; [apply IH|].
    rewrite IH. cbn [put_stdout w_stdout map concat_str fst].
    rewrite render_keeps_stdout. unfold output_name. assoc_str. reflexivity.
Qed.

Lemma line_loop_empty_line (b : Backend) (opts : TextOptions)
    (rest : list string) (n : Z) (w : World) :
  line_loop b opts ("" :: rest) n w = line_loop b opts rest n w.
Proof. reflexivity. Qed.

End Text2pngFacts.

(** ** Output names *)

Module NameFacts.
Import Cxx Spec StringFacts.

Lemma append_inv_tail (a b c : string) : a ++ c = b ++ c -> a = b.
Proof.
  revert b. induction a as [|x a IH]; intros b H.
  - destruct b as [|y b]; [reflexivity|].
    apply (f_equal String.length) in H. cbn in H.
    rewrite length_append in H. lia.
  - destruct b as [|y b].
    + apply (f_equal String.length) in H. cbn in H.
      rewrite length_append in H. lia.
    + cbn in H. injection H as -> H. f_equal. now apply IH.
Qed.

Lemma to_int_proper (z : Z) :
  Z.to_int z <> Decimal.Pos Decimal.Nil
  /\ Z.to_int z <> Decimal.Neg Decimal.Nil.
Proof.
  destruct z as [|p|p]; cbn; split; try discriminate;
    intros H; injection H as H;
    now apply DecimalPos.Unsigned.to_uint_nonnil in H.
Qed.

Lemma string_of_Z_inj (a b : Z) : string_of_Z a = string_of_Z b -> a = b.
Proof.
  unfold string_of_Z. intros H.
  apply (f_equal NilZero.int_of_string) in H.
  destruct (to_int_proper a) as [Ha1 Ha2].
  destruct (to_int_proper b) as [Hb1 Hb2].
  rewrite !NilZero.isi in H by assumption.
  injection H as H. now apply DecimalZ.to_int_inj.
Qed.

(** Two numbers give two file names. *)
Lemma output_name_inj (prefix : string) (a b : Z) :
  output_name prefix a = output_name prefix b -> a = b.
Proof.
  unfold output_name. intros H.
  apply append_inv_head, append_inv_tail in H.
  now apply string_of_Z_inj.
Qed.

Lemma map_output_name_inj (prefix : string) (l1 l2 : list Z) :
  map (output_name prefix) l1 = map (output_name prefix) l2 -> l1 = l2.
Proof.
  revert l2. induction l1 as [|a l1 IH]; intros [|b l2] H;
    try discriminate; [reflexivity|].
  cbn in H. injection H as Ha Hl.
  f_equal; [now apply output_name_inj in Ha | now apply IH].
Qed.

End NameFacts.

(** ** The two drivers, line by line *)

Module DriverFacts.
Import Cxx Spec StringFacts TrimFacts JobFacts NameFacts.

(** [main] of txt2png, once ImageMagick is found, no font list is asked for,
    the font is resolved and the input file is open, is the loop over the
    lines of the file. *)
Lemma txt2png_main_is_loop (cos sin : Q -> Q) (env : Txt2png.Env)
    (opt : Txt2png.Options) (exe font content : string) :
  Txt2png.detect_imagemagick env = exe -> exe <> "" ->
  Txt2png.list_fonts opt = false ->
  Txt2png.resolve_font env (Txt2png.set_im_exe exe opt)
    (Txt2png.collect_fonts env exe) Txt2png.world0 = inl font ->
  Txt2png.ifstream env (Txt2png.input_path opt) = Some content ->
  Txt2png.main cos sin env opt
  = Txt2png.finish (Txt2png.set_im_exe exe opt)
      (Txt2png.line_loop cos sin env (Txt2png.set_im_exe exe opt) font
         (getlines content) (Txt2png.start_index opt) 0 Txt2png.world0).
Proof.
  intros Hexe Hne Hlist Hfont Hfile. unfold Txt2png.main.
  rewrite Hexe. cbn [Txt2png.im_exe Txt2png.set_im_exe Txt2png.list_fonts
                       Txt2png.input_path Txt2png.start_index].
  apply String.eqb_neq in Hne. rewrite Hne, Hlist.
  fold (Txt2png.set_im_exe exe opt). rewrite Hfont, Hfile. reflexivity.
Qed.

(** Claim C6, as the code has it.  In txt2png, outside a dry run, the first
    line whose command returns a status other than 0 ends the run: the
    status and the command, which holds the text of the line and its
    numbered output file, are written to the error stream, [main] returns 7,
    no line after it is processed and nothing is run after the failing
    command, so the files written before stay.  In text2png a render that
    fails only writes a diagnostic: every non-empty line is processed and
    announced, and [main] returns 0. *)
Theorem render_failure_aborts_in_txt2png_only :
  (forall (cos sin : Q -> Q) (env : Txt2png.Env) (opt : Txt2png.Options)
          (exe font content : string) (before : list string)
          (line : string) (after : list string),
     Txt2png.detect_imagemagick env = exe -> exe <> "" ->
     Txt2png.list_fonts opt = false ->
     Txt2png.resolve_font env (Txt2png.set_im_exe exe opt)
       (Txt2png.collect_fonts env exe) Txt2png.world0 = inl font ->
     Txt2png.ifstream env (Txt2png.input_path opt) = Some content ->
     Txt2png.dry_run opt = false ->
     getlines content = (before ++ line :: after)%list ->
     let opt' := Txt2png.set_im_exe exe opt in
     let earlier := jobs_by_position (Txt2png.start_index opt) before in
     let failing :=
       Txt2png.line_command cos sin opt' font (Txt2png.trim line)
         (Txt2png.start_index opt + Z.of_nat (List.length before)) in
     Forall (fun j => Txt2png.system env
                        (Txt2png.job_command cos sin opt' font j) = 0)
       earlier ->
     all_space line = false ->
     Txt2png.system env failing <> 0 ->
     Txt2png.main cos sin env opt
     = (7,
        {| Txt2png.w_stdout := "";
           Txt2png.w_stderr :=
             "Command failed (rc="
             ++ string_of_Z (Txt2png.system env failing) ++ "): "
             ++ failing ++ NL;
           Txt2png.w_commands :=
             map (Txt2png.job_command cos sin opt' font) earlier
             ++ [failing] |}))
  /\
  (forall (b : Text2png.Backend) (argv0 input_file output_prefix : string)
          (args : list string) (opts : Text2png.TextOptions)
          (w : Text2png.World) (content : string),
     input_file <> "--list-fonts" ->
     Text2png.parse_options b args
       (Text2png.set_output_prefix output_prefix Text2png.default_options)
       Text2png.world0 = Text2png.Normal (opts, w) ->
     Text2png.ifstream b input_file = Some content ->
     let w1 := if Text2png.verbose opts
               then Text2png.print_final_config opts w else w in
     fst (Text2png.main b (argv0 :: input_file :: output_prefix :: args))
     = Text2png.Normal 0
     /\ Text2png.w_stdout
          (snd (Text2png.main b
                  (argv0 :: input_file :: output_prefix :: args)))
        = Text2png.w_stdout w1
          ++ concat_str
               (map (fun j => "Created: "
                        ++ output_name (Text2png.output_prefix opts) (fst j)
                        ++ NL)
                  (jobs_consecutive 1 (getlines content)))).
Proof.
  split.
  - intros cos sin env opt exe font content before line after
      Hexe Hne Hlist Hfont Hfile Hdry Hlines opt' earlier failing
      Hok Hline Hfail.
    subst failing earlier opt'.
    rewrite (txt2png_main_is_loop cos sin env opt exe font content)
      by assumption.
    rewrite Hlines.
    rewrite (Txt2pngFacts.line_loop_abort cos sin env
               (Txt2png.set_im_exe exe opt) font before line
               after (Txt2png.start_index opt) 0 Txt2png.world0);
      try assumption; reflexivity.
  - intros b argv0 input_file output_prefix args opts w content
      Hin Hparse Hfile w1.
    unfold Text2png.main. apply String.eqb_neq in Hin. rewrite Hin.
    rewrite Hparse, Hfile. cbn [fst snd]. split; [reflexivity|].
    apply Text2pngFacts.line_loop_announces.
Qed.

(** Three lines, the second failing: the first command and the failing one
    were run, the third line was not reached.  And two lines with a
    renderer that works. *)
Lemma render_failure_aborts_in_txt2png_only_witness :
  Txt2png.main Samples.cos_at_0 Samples.sin_at_0 Samples.second_fails
    Samples.in_out
  = (7,
     {| Txt2png.w_stdout := "";
        Txt2png.w_stderr :=
          "Command failed (rc=1): "
          ++ Txt2png.build_cmd_stroke "magick" "two" "" 64 "#FFFFFF"
               "#000000" 4 "out2.png" ++ NL;
        Txt2png.w_commands :=
          [Txt2png.build_cmd_stroke "magick" "one" "" 64 "#FFFFFF"
             "#000000" 4 "out1.png";
           Txt2png.build_cmd_stroke "magick" "two" "" 64 "#FFFFFF"
             "#000000" 4 "out2.png"] |})
  /\ fst (Text2png.main Samples.all_fine ["text2png"; "in.txt"; "out"])
     = Text2png.Normal 0.
Proof.
  split.
  - apply (proj1 render_failure_aborts_in_txt2png_only
             Samples.cos_at_0 Samples.sin_at_0 Samples.second_fails
             Samples.in_out "magick" "" Samples.three_lines
             ["one"] "  two " ["three"]).
    + reflexivity.
    + discriminate.
    + reflexivity.
    + reflexivity.
    + reflexivity.
    + reflexivity.
    + reflexivity.
    + repeat constructor.
    + reflexivity.
    + vm_compute. discriminate.
  - apply (proj2 render_failure_aborts_in_txt2png_only
             Samples.all_fine "text2png" "in.txt" "out" []
             (Text2png.set_output_prefix "out" Text2png.default_options)
             Text2png.world0 Samples.two_lines).
    + discriminate.
    + reflexivity.
    + reflexivity.
Defined.

(** Against claim C6 as stated: in text2png, with no font to be found, the
    render of the first line fails, and still the second line is processed
    and [main] returns 0. *)
Lemma text2png_goes_on_after_a_failed_render :
  Text2png.main Samples.no_font ["text2png"; "in.txt"; "out"]
  = (Text2png.Normal 0,
     {| Text2png.w_stdout :=
          "Created: out1.png" ++ NL ++ "Created: out2.png" ++ NL;
        Text2png.w_stderr :=
          "Could not find font: DejaVu Sans" ++ NL
          ++ "Could not find font: DejaVu Sans" ++ NL;
        Text2png.w_files := [] |}).
Proof. vm_compute. reflexivity. Qed.

(** Claim C7, as the code has it.  In txt2png a line that is skipped as
    blank still advances the counter, so the numbers are the positions in
    the file; in text2png an empty line does not advance it, so the numbers
    are consecutive over the lines rendered.  On an input with an empty
    line and a line to render after it the two give different file names.
    They give the same file names exactly on the inputs made of lines that
    are not blank followed by empty lines only, so blank lines at the end
    of the file do not tell the two drivers apart. *)
Theorem blank_line_numbering_differs :
  (forall cos sin env opt font line rest lineno made w,
     all_space line = true ->
     Txt2png.line_loop cos sin env opt font (line :: rest) lineno made w
     = Txt2png.line_loop cos sin env opt font rest (lineno + 1) made w)
  /\
  (forall cos sin env opt font lines lineno made w,
     Txt2png.dry_run opt = false ->
     Forall (fun j => Txt2png.system env
                        (Txt2png.job_command cos sin opt font j) = 0)
       (jobs_by_position lineno lines) ->
     Txt2png.w_commands
       (snd (Txt2png.line_loop cos sin env opt font lines lineno made w))
     = (Txt2png.w_commands w
        ++ map (Txt2png.job_command cos sin opt font)
             (jobs_by_position lineno lines))%list)
  /\
  (forall b opts rest n w,
     Text2png.line_loop b opts ("" :: rest) n w
     = Text2png.line_loop b opts rest n w)
  /\
  (forall b opts lines n w,
     Text2png.w_stdout (Text2png.line_loop b opts lines n w)
     = Text2png.w_stdout w
       ++ concat_str
            (map (fun j => "Created: "
                     ++ output_name (Text2png.output_prefix opts) (fst j)
                     ++ NL)
               (jobs_consecutive n lines)))
  /\
  (forall prefix start before rest line,
     In line rest -> all_space line = false ->
     map (fun j => output_name prefix (fst j))
       (jobs_by_position start (before ++ "" :: rest))
     <> map (fun j => output_name prefix (fst j))
          (jobs_consecutive start (before ++ "" :: rest)))
  /\
  (forall prefix start lines,
     map (fun j => output_name prefix (fst j))
       (jobs_by_position start lines)
     = map (fun j => output_name prefix (fst j))
         (jobs_consecutive start lines)
     <-> exists front k,
           lines = (front ++ repeat "" k)%list
           /\ Forall (fun l => all_space l = false) front).
Proof.
  split; [|split; [|split; [|split; [|split]]]].
  - intros. now apply Txt2pngFacts.line_loop_blank.
  - intros cos sin env opt font lines lineno made w Hdry Hok.
    now rewrite Txt2pngFacts.line_loop_all_succeed.
  - intros. reflexivity.
  - intros. apply Text2pngFacts.line_loop_announces.
  - intros prefix start before rest line Hin Hline Heq.
    rewrite <- !(map_map fst (output_name prefix)) in Heq.
    apply map_output_name_inj in Heq.
    now apply (numberings_differ start before rest line).
  - intros prefix start lines.
    rewrite <- (numberings_agree_iff start lines).
    rewrite <- !(map_map fst (output_name prefix)). split.
    + apply map_output_name_inj.
    + intros H. now rewrite H.
Qed.

Lemma blank_line_numbering_differs_witness :
  map (fun j => output_name "out" (fst j))
    (jobs_by_position 1 (["one"] ++ "" :: ["two"]))
  <> map (fun j => output_name "out" (fst j))
       (jobs_consecutive 1 (["one"] ++ "" :: ["two"])).
Proof.
  apply (proj1 (proj2 (proj2 (proj2 (proj2 blank_line_numbering_differs))))
           "out" 1 ["one"] ["two"] "two").
  - left. reflexivity.
  - reflexivity.
Defined.

(** Against claim C7 as stated: an input with blank lines on which the two
    drivers do not differ.  The file has the lines [one] and [two] and then
    two empty lines; txt2png runs the commands writing [out1.png] and
    [out2.png], and text2png writes [out1.png] and [out2.png]. *)
Lemma trailing_empty_lines_number_alike :
  getlines MoreSamples.trailing_empty_lines = ["one"; "two"; ""; ""]
  /\ map (fun j => output_name "out" (fst j))
       (jobs_by_position 1 (getlines MoreSamples.trailing_empty_lines))
     = ["out1.png"; "out2.png"]
  /\ map (fun j => output_name "out" (fst j))
       (jobs_consecutive 1 (getlines MoreSamples.trailing_empty_lines))
     = ["out1.png"; "out2.png"]
  /\ Txt2png.main Samples.cos_at_0 Samples.sin_at_0
       MoreSamples.txt2png_trailing Samples.in_out
     = (0,
        {| Txt2png.w_stdout := "";
           Txt2png.w_stderr := "Wrote 2 PNG files." ++ NL;
           Txt2png.w_commands :=
             [Txt2png.build_cmd_stroke "magick" "one" "" 64 "#FFFFFF"
                "#000000" 4 "out1.png";
              Txt2png.build_cmd_stroke "magick" "two" "" 64 "#FFFFFF"
                "#000000" 4 "out2.png"] |})
  /\ fst (Text2png.main MoreSamples.text2png_trailing
            ["text2png"; "in.txt"; "out"]) = Text2png.Normal 0
  /\ map fst
       (Text2png.w_files
          (snd (Text2png.main MoreSamples.text2png_trailing
                  ["text2png"; "in.txt"; "out"])))
     = ["out1.png"; "out2.png"]
  /\ Text2png.w_stdout
       (snd (Text2png.main MoreSamples.text2png_trailing
               ["text2png"; "in.txt"; "out"]))
     = "Created: out1.png" ++ NL ++ "Created: out2.png" ++ NL.
Proof.
  split; [vm_compute; reflexivity|].
  split; [vm_compute; reflexivity|].
  split; [vm_compute; reflexivity|].
  split; [vm_compute; reflexivity|].
  split; [vm_compute; reflexivity|].
  split; vm_compute; reflexivity.
Qed.



End DriverFacts.

(** ** Canvas sizing in text2png *)

Module CanvasFacts.
Import Cxx Text2png.

Open Scope Q_scope.

Lemma Qltb_true (x y : Q) : Qltb x y = true -> x < y.
Proof.
  unfold Qltb. intros H. apply negb_true_iff in H.
  apply Qnot_le_lt. intros Hle. apply Qle_bool_iff in Hle. congruence.
Qed.

Lemma Qltb_false (x y : Q) : Qltb x y = false -> y <= x.
Proof.
  unfold Qltb. intros H. apply negb_false_iff in H.
  now apply Qle_bool_iff.
Qed.

(** 1.5 times an [int] is a double: the minimum of the width is exact. *)
Lemma width_floor_exact (fs : Z) :
  (Z.abs fs <= 2147483647)%Z ->
  to_double (inject_Z fs * literal_1_5) == (3 # 2) * inject_Z fs.
Proof.
  intros H.
  assert (E : inject_Z fs * literal_1_5 == DoubleFacts.grid (3 * fs) (-1)).
  { unfold DoubleFacts.grid. change literal_1_5 with (3 # 2).
    change (2 ^ (-1)) with (1 # 2). rewrite inject_Z_mult.
    change (inject_Z 3) with 3. field. }
  assert (Hd : to_double (inject_Z fs * literal_1_5)
               == DoubleFacts.grid (3 * fs) (-1)).
  { apply Qle_antisym.
    - apply DoubleFacts.to_double_le_grid; [lia | | rewrite E; apply Qle_refl].
      change (2 ^ 53)%Z with 9007199254740992%Z. lia.
    - apply DoubleFacts.to_double_ge_grid; [lia | | rewrite E; apply Qle_refl].
      change (2 ^ 53)%Z with 9007199254740992%Z. lia. }
  rewrite Hd, <- E. change literal_1_5 with (3 # 2). ring.
Qed.

(** The constant [1.2] as a double is not under 1. *)
Lemma literal_1_2_ge_1 : 1 <= literal_1_2.
Proof. discriminate. Qed.

(** The width of the canvas covers the sum the program computes and 1.5
    times the font size. *)
Lemma canvas_width_bounds (e : cairo_text_extents_t) (opts : TextOptions) :
  (Z.abs (font_size opts) <= 2147483647)%Z ->
  content_width e opts <= inject_Z (canvas_width e opts)
  /\ (3 # 2) * inject_Z (font_size opts) <= inject_Z (canvas_width e opts).
Proof.
  intros Hfs. unfold canvas_width.
  pose proof (Qle_ceiling (full_width e opts)) as Hceil.
  pose proof (width_floor_exact (font_size opts) Hfs) as Hfloor.
  unfold full_width in *.
  destruct (Qltb (content_width e opts)
              (to_double (inject_Z (font_size opts) * literal_1_5))) eqn:E.
  - apply Qltb_true in E. split; lra.
  - apply Qltb_false in E. split; lra.
Qed.

(** The height of the canvas covers the sum the program computes and the
    font size itself, for a font size that is not negative. *)
Lemma canvas_height_bounds (e : cairo_text_extents_t) (opts : TextOptions) :
  (0 <= font_size opts <= 2147483647)%Z ->
  content_height e opts <= inject_Z (canvas_height e opts)
  /\ inject_Z (font_size opts) <= inject_Z (canvas_height e opts).
Proof.
  intros Hfs. unfold canvas_height.
  pose proof (Qle_ceiling (full_height e opts)) as Hceil.
  assert (H0 : 0 <= inject_Z (font_size opts)).
  { change 0 with (inject_Z 0). rewrite <- Zle_Qle. lia. }
  assert (Hgrow : inject_Z (font_size opts)
                  <= to_double (inject_Z (font_size opts) * literal_1_2)).
  { apply DoubleFacts.to_double_ge_Z.
    - change (2 ^ 53)%Z with 9007199254740992%Z. lia.
    - rewrite <- (Qmult_1_r (inject_Z (font_size opts))) at 1.
      rewrite !(Qmult_comm (inject_Z (font_size opts))).
      apply Qmult_le_compat_r; [apply literal_1_2_ge_1 | exact H0]. }
  unfold full_height in *.
  destruct (Qltb (content_height e opts) (inject_Z (font_size opts))) eqn:E.
  - apply Qltb_true in E. split; lra.
  - apply Qltb_false in E. split; lra.
Qed.

(** The height reaches 1.2 times the font size when the sum is lower than
    the font size, the one case in which the minimum is applied: the double
    of [1.2] is a little under 1.2, and the product with the font size is
    rounded, but [ceil] makes up for both. *)
Lemma canvas_height_floor_when_applied (e : cairo_text_extents_t)
    (opts : TextOptions) :
  (0 <= font_size opts <= 2147483647)%Z ->
  content_height e opts < inject_Z (font_size opts) ->
  (6 # 5) * inject_Z (font_size opts) <= inject_Z (canvas_height e opts).
Proof.
  intros Hfs H. unfold canvas_height, full_height.
  replace (Qltb (content_height e opts) (inject_Z (font_size opts)))
    with true.
  2:{ symmetry. unfold Qltb. apply negb_true_iff.
      destruct (Qle_bool (inject_Z (font_size opts)) (content_height e opts))
        eqn:E; [|reflexivity].
      apply Qle_bool_iff in E. exfalso. now apply (Qlt_not_le _ _ H). }
  set (fs := font_size opts) in *.
  set (n := Qceiling ((6 # 5) * inject_Z fs)).
  pose proof (Qle_ceiling ((6 # 5) * inject_Z fs)) as Hn1.
  pose proof (Qceiling_lt ((6 # 5) * inject_Z fs)) as Hn2.
  fold n in Hn1, Hn2.
  assert (Hz : (5 * n - 4 <= 6 * fs)%Z).
  { unfold Qlt, Qmult, inject_Z in Hn2. cbn [Qnum Qden Pos.mul] in Hn2.
    lia. }
  assert (Hpos : (6 * fs <= 5 * n)%Z).
  { unfold Qle, Qmult, inject_Z in Hn1. cbn [Qnum Qden Pos.mul] in Hn1.
    lia. }
  assert (Hgrid : DoubleFacts.grid (8 * n - 7) (-3)
                  <= inject_Z fs * literal_1_2).
  { unfold DoubleFacts.grid. change (2 ^ (-3)) with (1 # 8).
    change literal_1_2 with (5404319552844595 # 4503599627370496).
    unfold Qle, Qmult, inject_Z. cbn [Qnum Qden Pos.mul]. lia. }
  assert (Hd : DoubleFacts.grid (8 * n - 7) (-3)
               <= to_double (inject_Z fs * literal_1_2)).
  { apply DoubleFacts.to_double_ge_grid; [lia | | exact Hgrid].
    change (2 ^ 53)%Z with 9007199254740992%Z. lia. }
  assert (Hlt : inject_Z (n - 1) < to_double (inject_Z fs * literal_1_2)).
  { eapply Qlt_le_trans; [|exact Hd].
    unfold DoubleFacts.grid. change (2 ^ (-3)) with (1 # 8).
    unfold Qlt, Qmult, inject_Z. cbn [Qnum Qden Pos.mul]. lia. }
  pose proof (Qle_ceiling (to_double (inject_Z fs * literal_1_2))) as Hc.
  assert (Hn : (n <= Qceiling (to_double (inject_Z fs * literal_1_2)))%Z).
  { assert (Hlt' : inject_Z (n - 1)
                   < inject_Z
                       (Qceiling (to_double (inject_Z fs * literal_1_2))))
      by lra.
    rewrite <- Zlt_Qlt in Hlt'. lia. }
  rewrite Zle_Qle in Hn. lra.
Qed.

(** A sum of a double and an [int] is not under a whole number that the
    exact sum reaches. *)
Lemma rounded_sum_ge (x : Q) (n m : Z) :
  (Z.abs (m + n) < 2 ^ 53)%Z ->
  inject_Z m <= x -> inject_Z (m + n) <= to_double (x + inject_Z n).
Proof.
  intros Hm H. apply DoubleFacts.to_double_ge_Z; [exact Hm|].
  rewrite inject_Z_plus. lra.
Qed.

(** The sum the program computes for the content is within one pixel under
    the exact sum: the three additions are rounded, but never past a whole
    number. *)
Lemma rounded_content_covers (bearing extent : Q) (p t : Z) :
  (0 <= p <= 1073741823)%Z -> (0 <= t <= 1073741823)%Z ->
  0 <= extent -> Qabs bearing + extent <= 2147483647 ->
  Qabs bearing + extent + 2 * inject_Z p + 2 * inject_Z t - 1
  < to_double
      (to_double (to_double (Qabs bearing + extent) + inject_Z (p * 2))
       + inject_Z (t * 2)).
Proof.
  intros Hp Ht Hext Hmax.
  set (a := Qabs bearing + extent) in *.
  assert (Ha0 : 0 <= a).
  { unfold a. pose proof (Qabs_nonneg bearing). lra. }
  assert (HA0 : (0 <= Qfloor a)%Z).
  { change 0%Z with (Qfloor 0). now apply Qfloor_resp_le. }
  assert (HA1 : (Qfloor a <= 2147483647)%Z).
  { change 2147483647%Z with (Qfloor 2147483647).
    now apply Qfloor_resp_le. }
  pose proof (Qfloor_le a) as Hfl. pose proof (Qlt_floor a) as Hlt.
  assert (H1 : inject_Z (Qfloor a) <= to_double a).
  { apply DoubleFacts.to_double_ge_Z; [|exact Hfl].
    change (2 ^ 53)%Z with 9007199254740992%Z. lia. }
  assert (H2 : inject_Z (Qfloor a + p * 2)
               <= to_double (to_double a + inject_Z (p * 2))).
  { apply rounded_sum_ge; [|exact H1].
    change (2 ^ 53)%Z with 9007199254740992%Z. lia. }
  assert (H3 : inject_Z (Qfloor a + p * 2 + t * 2)
               <= to_double
                    (to_double (to_double a + inject_Z (p * 2))
                     + inject_Z (t * 2))).
  { apply rounded_sum_ge; [|exact H2].
    change (2 ^ 53)%Z with 9007199254740992%Z. lia. }
  set (c := to_double _) in H3 |- *. clearbody c.
  rewrite !inject_Z_plus, !inject_Z_mult in H3.
  rewrite inject_Z_plus in Hlt.
  change (inject_Z 2) with 2 in H3. change (inject_Z 1) with 1 in Hlt.
  lra.
Qed.

(** The exact sum itself need not be covered.  With the doubles nearest to
    0.1 and 14.9 as bearing and ink extent, a font size of 10 and neither
    padding nor outline, the exact sum is above 15 and the sum of the two
    doubles is the double 15: the canvas is 15 wide and 15 high. *)
Lemma rounded_content_can_miss_the_exact_sum :
  15 < Qabs (x_bearing MoreSamples.extents_01_149)
       + width MoreSamples.extents_01_149
  /\ content_width MoreSamples.extents_01_149 MoreSamples.size_10_bare == 15
  /\ canvas_width MoreSamples.extents_01_149 MoreSamples.size_10_bare = 15%Z
  /\ canvas_height MoreSamples.extents_01_149 MoreSamples.size_10_bare
     = 15%Z.
Proof.
  split; [reflexivity|]. split; [vm_compute; reflexivity|].
  split; vm_compute; reflexivity.
Qed.

Lemma x_pos_formula (e : cairo_text_extents_t) (opts : TextOptions) :
  x_pos e opts
  == inject_Z (padding opts) + 2 * inject_Z (outline_width opts)
     - x_bearing e.
Proof. unfold x_pos. rewrite inject_Z_plus, inject_Z_mult. ring. Qed.

Lemma y_pos_formula (e : cairo_text_extents_t) (opts : TextOptions) :
  y_pos e opts
  == inject_Z (padding opts) + 2 * inject_Z (outline_width opts)
     - y_bearing e + inject_Z (font_size opts).
Proof. unfold y_pos. rewrite inject_Z_plus, inject_Z_mult. ring. Qed.

(** Claim C1, where the code departs from it.  At font size 100 with no
    padding and no outline, a text whose ink box is 55 high on the baseline
    has a content height of 110; that is not below the font size, so the
    minimum is not applied, and the canvas is 110 high, under 1.2 times the
    font size. *)
Theorem canvas_height_misses_its_floor :
  content_height Samples.sample_extents Samples.size_100_bare == 110
  /\ canvas_height Samples.sample_extents Samples.size_100_bare = 110%Z
  /\ inject_Z (canvas_height Samples.sample_extents Samples.size_100_bare)
     < (6 # 5) * inject_Z (font_size Samples.size_100_bare)
  /\ map (fun f => (fst f, surface_width (snd f), surface_height (snd f)))
       (w_files
          (render_text_to_png Samples.all_fine "x" "out1.png"
             Samples.size_100_bare world0))
     = [("out1.png"%string, 150%Z, 110%Z)].
Proof.
  split; [reflexivity|]. split; [reflexivity|].
  split; [reflexivity|]. reflexivity.
Qed.

(** Claim C4.  When the text is drawn, the glyph run is placed by
    [cairo_move_to] right before [cairo_text_path], which puts the start of
    the baseline at that point, and the point is
    [(padding + 2 t - bearing_x, padding + 2 t - bearing_y + font size)]
    for the outline width [t] and the bearings measured for the text. *)
Theorem glyph_origin_is_on_the_baseline
    (b : Backend) (text filename : string) (opts : TextOptions) (w : World)
    (font_file : string) :
  FT_Init_FreeType b = true ->
  FcFontMatch_file b (font_name opts) = Some font_file ->
  FT_New_Face b font_file = true ->
  let e := cairo_text_extents b font_file (font_size opts) text in
  exists surface origin_x origin_y before after,
    render_text_to_png b text filename opts w
    = match cairo_surface_write_to_png b surface filename with
      | None => wrote_file filename surface w
      | Some status =>
          put_stderr ("Error writing PNG: " ++ status ++ NL) w
      end
    /\ surface_ops surface
       = (before ++ cairo_move_to origin_x origin_y
                 :: cairo_text_path text :: after)%list
    /\ origin_x
       == inject_Z (padding opts) + 2 * inject_Z (outline_width opts)
          - x_bearing e
    /\ origin_y
       == inject_Z (padding opts) + 2 * inject_Z (outline_width opts)
          - y_bearing e + inject_Z (font_size opts).
Proof.
  intros Hft Hfont Hface e. unfold render_text_to_png.
  rewrite Hft, Hfont, Hface. cbn [negb]. fold e.
  eexists. exists (x_pos e opts), (y_pos e opts).
  exists ((if Qltb 0 (bg_a opts)
           then [cairo_set_source_rgba (bg_r opts) (bg_g opts) (bg_b opts)
                   (bg_a opts); cairo_paint]
           else [cairo_set_source_rgba 0 0 0 0; cairo_paint])
          ++ [cairo_set_font_face font_file;
              cairo_set_font_size (font_size opts);
              cairo_set_font_options_default_antialias])%list.
  exists ((if (0 <? outline_width opts)%Z
           then [cairo_set_source_rgb (outline_r opts) (outline_g opts)
                   (outline_b opts);
                 cairo_set_line_width (outline_width opts);
                 cairo_stroke_preserve]
           else [])
          ++ [cairo_set_source_rgb (text_r opts) (text_g opts)
                (text_b opts);
              cairo_fill])%list.
  split; [reflexivity|]. split.
  - cbn [surface_ops]. rewrite <- app_assoc. reflexivity.
  - split; [apply x_pos_formula | apply y_pos_formula].
Qed.

Lemma glyph_origin_is_on_the_baseline_witness :
  exists surface origin_x origin_y before after,
    render_text_to_png Samples.all_fine "one" "out1.png" default_options
      world0
    = match cairo_surface_write_to_png Samples.all_fine surface "out1.png"
      with
      | None => wrote_file "out1.png" surface world0
      | Some status =>
          put_stderr ("Error writing PNG: " ++ status ++ NL) world0
      end
    /\ surface_ops surface
       = (before ++ cairo_move_to origin_x origin_y
                 :: cairo_text_path "one" :: after)%list
    /\ origin_x == inject_Z 20 + 2 * inject_Z 2 - 2
    /\ origin_y == inject_Z 20 + 2 * inject_Z 2 - (-55) + inject_Z 48.
Proof.
  apply (glyph_origin_is_on_the_baseline Samples.all_fine "one" "out1.png"
           default_options world0 "/fonts/DejaVuSans.ttf");
    reflexivity.
Defined.

End CanvasFacts.

(** ** Colour options of text2png *)

Module ColorFacts.
Import Cxx Text2png Spec.

Lemma hex_digit_range (c : ascii) (a : Z) :
  hex_digit c = Some a -> 0 <= a <= 15.
Proof.
  unfold hex_digit. set (n := Z.of_nat (nat_of_ascii c)).
  destruct ((48 <=? n) && (n <=? 57))%bool eqn:E1.
  { rewrite andb_true_iff, !Z.leb_le in E1.
    intros H. injection H as <-. lia. }
  destruct ((97 <=? n) && (n <=? 102))%bool eqn:E2.
  { rewrite andb_true_iff, !Z.leb_le in E2.
    intros H. injection H as <-. lia. }
  destruct ((65 <=? n) && (n <=? 70))%bool eqn:E3.
  { rewrite andb_true_iff, !Z.leb_le in E3.
    intros H. injection H as <-. lia. }
  discriminate.
Qed.

(** A text of [2 n] hexadecimal digits denotes [n] bytes. *)
Lemma hex_pairs_bytes (bytes : list Z) :
  forall s, hex_pairs s = Some bytes ->
    String.length s = (2 * List.length bytes)%nat
    /\ Forall (fun v => 0 <= v <= 255) bytes.
Proof.
  induction bytes as [|v bytes IH]; intros s H.
  - destruct s as [|c1 [|c2 s']]; cbn [hex_pairs] in H;
      [auto | discriminate |].
    destruct (hex_digit c1), (hex_digit c2), (hex_pairs s'); discriminate.
  - destruct s as [|c1 [|c2 s']]; cbn [hex_pairs] in H; try discriminate.
    destruct (hex_digit c1) as [a|] eqn:E1; [|discriminate].
    destruct (hex_digit c2) as [d|] eqn:E2; [|discriminate].
    destruct (hex_pairs s') as [l|] eqn:E3; [|discriminate].
    apply hex_digit_range in E1, E2.
    assert (Hv : 0 <= 16 * a + d <= 255) by lia.
    injection H as <- <-. destruct (IH s' E3) as [Hlen Hall]. split.
    + cbn [String.length List.length]. lia.
    + constructor; [exact Hv | exact Hall].
Qed.

(** The sample scanner does what the standard asks on hexadecimal texts. *)
Lemma scan_hex_conforms (bytes : list Z) :
  forall s, hex_pairs s = Some bytes ->
    Samples.scan_hex (List.length bytes) s = bytes.
Proof.
  induction bytes as [|v bytes IH]; intros s H; [reflexivity|].
  destruct s as [|c1 [|c2 s']]; cbn [hex_pairs] in H; try discriminate.
  destruct (hex_digit c1) as [a|] eqn:E1; [|discriminate].
  destruct (hex_digit c2) as [d|] eqn:E2; [|discriminate].
  destruct (hex_pairs s') as [l|] eqn:E3; [|discriminate].
  injection H as <- <-. cbn [List.length Samples.scan_hex].
  rewrite E1, E2. f_equal. now apply IH.
Qed.

Lemma all_fine_conforms : sscanf_conforms Samples.all_fine.
Proof. intros s bytes H. now apply scan_hex_conforms. Qed.

(** The steps of the option loop on the three colour options. *)
Lemma parse_text_color (b : Backend) (value : string) (rest : list string)
    (opts : TextOptions) (w : World) :
  parse_options b ("--text-color" :: value :: rest) opts w
  = parse_options b rest (fst (text_color_option b value opts w))
      (snd (text_color_option b value opts w)).
Proof.
  cbn [parse_options]. cbn [String.eqb Ascii.eqb Bool.eqb].
  destruct (text_color_option b value opts w). reflexivity.
Qed.

Lemma parse_outline_color (b : Backend) (value : string)
    (rest : list string) (opts : TextOptions) (w : World) :
  parse_options b ("--outline-color" :: value :: rest) opts w
  = parse_options b rest (fst (outline_color_option b value opts w))
      (snd (outline_color_option b value opts w)).
Proof.
  cbn [parse_options]. cbn [String.eqb Ascii.eqb Bool.eqb].
  destruct (outline_color_option b value opts w). reflexivity.
Qed.

Lemma parse_bg_color (b : Backend) (value : string) (rest : list string)
    (opts : TextOptions) (w : World) :
  parse_options b ("--bg-color" :: value :: rest) opts w
  = match bg_color_option b value opts w with
    | Normal (o, w') => parse_options b rest o w'
    | Aborted why w' => Aborted why w'
    end.
Proof.
  cbn [parse_options]. cbn [String.eqb Ascii.eqb Bool.eqb]. reflexivity.
Qed.

Lemma six_digits_scanned (b : Backend) (color : string) (r g bl : Z) :
  sscanf_conforms b -> hex_pairs color = Some [r; g; bl] ->
  (String.length color =? 6)%nat = true
  /\ (String.length color =? 8)%nat = false
  /\ sscanf_x2 b 3 color = [r; g; bl]
  /\ 0 <= r <= 255 /\ 0 <= g <= 255 /\ 0 <= bl <= 255.
Proof.
  intros Hb H. destruct (hex_pairs_bytes _ _ H) as [Hlen Hall].
  cbn [List.length] in Hlen. rewrite Hlen.
  split; [reflexivity|]. split; [reflexivity|].
  split; [exact (Hb color [r; g; bl] H)|].
  inversion Hall as [|? ? Hr Hall1]; subst.
  inversion Hall1 as [|? ? Hg Hall2]; subst.
  inversion Hall2 as [|? ? Hbl _]; subst. auto.
Qed.

Lemma eight_digits_scanned (b : Backend) (color : string) (r g bl a : Z) :
  sscanf_conforms b -> hex_pairs color = Some [r; g; bl; a] ->
  (String.length color =? 6)%nat = false
  /\ (String.length color =? 8)%nat = true
  /\ sscanf_x2 b 4 color = [r; g; bl; a]
  /\ 0 <= r <= 255 /\ 0 <= g <= 255 /\ 0 <= bl <= 255 /\ 0 <= a <= 255.
Proof.
  intros Hb H. destruct (hex_pairs_bytes _ _ H) as [Hlen Hall].
  cbn [List.length] in Hlen. rewrite Hlen.
  split; [reflexivity|]. split; [reflexivity|].
  split; [exact (Hb color [r; g; bl; a] H)|].
  inversion Hall as [|? ? Hr Hall1]; subst.
  inversion Hall1 as [|? ? Hg Hall2]; subst.
  inversion Hall2 as [|? ? Hbl Hall3]; subst.
  inversion Hall3 as [|? ? Ha _]; subst. auto.
Qed.

(** Claim C5, as the code has it.  A value of [--text-color] or
    [--outline-color] whose content, after one leading [#] is dropped, is
    not 6 characters long, or in which [sscanf] does not find three fields,
    does not stop the parsing: a warning with the content is written to the
    error stream, the options stay as they were, and the loop goes on with
    the next argument.  For a content of 6 hexadecimal digits, and also of
    8 for [--bg-color], each pair of digits is read as a byte, from 0 to
    255, and divided by 255; with 6 digits the alpha of the background is
    255 divided by 255. *)
Theorem malformed_color_warns_and_keeps_value :
  (forall b value rest opts w,
     let color := strip_hash value in
     String.length color <> 6%nat
     \/ List.length (sscanf_x2 b 3 color) <> 3%nat ->
     (exists warning,
        (warning = "Warning: Invalid text color format: " ++ color
                   ++ " (expected #RRGGBB)" ++ NL
         \/ warning = "Warning: Could not parse text color: " ++ color
                      ++ NL)
        /\ parse_options b ("--text-color" :: value :: rest) opts w
           = parse_options b rest opts (put_stderr warning w))
     /\
     (exists warning,
        (warning = "Warning: Invalid outline color format: " ++ color
                   ++ " (expected #RRGGBB)" ++ NL
         \/ warning = "Warning: Could not parse outline color: " ++ color
                      ++ NL)
        /\ parse_options b ("--outline-color" :: value :: rest) opts w
           = parse_options b rest opts (put_stderr warning w)))
  /\
  (forall b value opts w r g bl,
     sscanf_conforms b ->
     hex_pairs (strip_hash value) = Some [r; g; bl] ->
     (0 <= r <= 255 /\ 0 <= g <= 255 /\ 0 <= bl <= 255)
     /\ fst (text_color_option b value opts w)
        = set_text_rgb (inject_Z r / 255) (inject_Z g / 255)
            (inject_Z bl / 255) opts
     /\ fst (outline_color_option b value opts w)
        = set_outline_rgb (inject_Z r / 255) (inject_Z g / 255)
            (inject_Z bl / 255) opts
     /\ exists w',
          bg_color_option b value opts w
          = Normal (set_bg_rgba (inject_Z r / 255) (inject_Z g / 255)
                      (inject_Z bl / 255) (inject_Z 255 / 255) opts, w'))
  /\
  (forall b value opts w r g bl a,
     sscanf_conforms b ->
     hex_pairs (strip_hash value) = Some [r; g; bl; a] ->
     (0 <= r <= 255 /\ 0 <= g <= 255 /\ 0 <= bl <= 255 /\ 0 <= a <= 255)
     /\ exists w',
          bg_color_option b value opts w
          = Normal (set_bg_rgba (inject_Z r / 255) (inject_Z g / 255)
                      (inject_Z bl / 255) (inject_Z a / 255) opts, w')).
Proof.
  split; [|split].
  - intros b value rest opts w color H.
    rewrite parse_text_color, parse_outline_color.
    unfold text_color_option, outline_color_option. fold color.
    destruct (String.length color =? 6)%nat eqn:E.
    + destruct H as [H|H]; [apply Nat.eqb_eq in E; contradiction|].
      destruct (sscanf_x2 b 3 color) as [|r [|g [|bl [|x l]]]];
        try (cbn in H; contradiction);
        (split; eexists; (split; [right; reflexivity | reflexivity])).
    + split; eexists; (split; [left; reflexivity | reflexivity]).
  - intros b value opts w r g bl Hb H.
    destruct (six_digits_scanned b _ r g bl Hb H)
      as [E6 [E8 [Hs [Hr [Hg Hbl]]]]].
    split; [auto|].
    unfold text_color_option, outline_color_option, bg_color_option.
    rewrite E6, E8, Hs. cbn [orb fst].
    split; [reflexivity|]. split; [reflexivity|].
    eexists. reflexivity.
  - intros b value opts w r g bl a Hb H.
    destruct (eight_digits_scanned b _ r g bl a Hb H)
      as [E6 [E8 [Hs [Hr [Hg [Hbl Ha]]]]]].
    split; [auto|].
    unfold bg_color_option. rewrite E6, E8, Hs. cbn [orb].
    eexists. reflexivity.
Qed.

(** A value one digit short, and the values [#FF8000] and [#FF000080]. *)
Lemma malformed_color_warns_and_keeps_value_witness :
  (exists warning,
     (warning = "Warning: Invalid text color format: " ++ "12345"
                ++ " (expected #RRGGBB)" ++ NL
      \/ warning = "Warning: Could not parse text color: " ++ "12345" ++ NL)
     /\ parse_options Samples.all_fine ["--text-color"; "#12345"]
          default_options world0
        = parse_options Samples.all_fine [] default_options
            (put_stderr warning world0))
  /\ fst (text_color_option Samples.all_fine "#FF8000" default_options
            world0)
     = set_text_rgb (inject_Z 255 / 255) (inject_Z 128 / 255)
         (inject_Z 0 / 255) default_options
  /\ exists w',
       bg_color_option Samples.all_fine "#FF000080" default_options world0
       = Normal (set_bg_rgba (inject_Z 255 / 255) (inject_Z 0 / 255)
                   (inject_Z 0 / 255) (inject_Z 128 / 255) default_options,
                 w').
Proof.
  split; [|split].
  - apply (proj1 malformed_color_warns_and_keeps_value
             Samples.all_fine "#12345" [] default_options world0).
    left. cbn. discriminate.
  - apply (proj1 (proj2 malformed_color_warns_and_keeps_value)
             Samples.all_fine "#FF8000" default_options world0 255 128 0).
    + exact all_fine_conforms.
    + reflexivity.
  - apply (proj2 (proj2 malformed_color_warns_and_keeps_value)
             Samples.all_fine "#FF000080" default_options world0
             255 0 0 128).
    + exact all_fine_conforms.
    + reflexivity.
Defined.

(** Against claim C5 as stated: a text colour one digit short does not make
    the parsing fail, and the default colour, white, stays in effect. *)
Lemma short_text_color_is_not_a_failure :
  parse_options Samples.all_fine ["--text-color"; "#12345"] default_options
    world0
  = Normal (default_options,
            {| w_stdout := "";
               w_stderr := "Warning: Invalid text color format: 12345 (expected #RRGGBB)" ++ NL;
               w_files := [] |}).
Proof. vm_compute. reflexivity. Qed.

End ColorFacts.

(** ** Font listing *)

Module FontFacts.
Import Cxx Spec StringFacts JobFacts.

Lemma ascii_compare_lt_trans (a b c : ascii) :
  Ascii.compare a b = Lt -> Ascii.compare b c = Lt ->
  Ascii.compare a c = Lt.
Proof.
  unfold Ascii.compare. rewrite !N.compare_lt_iff. apply N.lt_trans.
Qed.

Lemma str_lt_irrefl (a : string) : ~ str_lt a a.
Proof.
  unfold str_lt. induction a as [|x a IH]; cbn; [discriminate|].
  unfold Ascii.compare. now rewrite N.compare_refl.
Qed.

Lemma str_lt_trans (a b c : string) : str_lt a b -> str_lt b c -> str_lt a c.
Proof.
  unfold str_lt. revert b c.
  induction a as [|x a IH]; intros [|y b] [|z c]; cbn; try discriminate;
    try reflexivity.
  destruct (Ascii.compare x y) eqn:Exy; try discriminate.
  - apply Ascii.compare_eq_iff in Exy. subst y.
    destruct (Ascii.compare x z); try discriminate; [apply IH | reflexivity].
  - intros _. destruct (Ascii.compare y z) eqn:Eyz; try discriminate.
    + apply Ascii.compare_eq_iff in Eyz. subst z. now rewrite Exy.
    + now rewrite (ascii_compare_lt_trans x y z Exy Eyz).
Qed.

Lemma compare_gt_lt (a b : string) :
  String.compare a b = Gt -> str_lt b a.
Proof.
  unfold str_lt. rewrite String.compare_antisym.
  destruct (String.compare b a); cbn; congruence.
Qed.

Lemma set_insert_in (x : string) (s : list string) (z : string) :
  In z (Text2png.set_insert x s) <-> z = x \/ In z s.
Proof.
  induction s as [|y s IH]; cbn [Text2png.set_insert].
  - cbn. intuition congruence.
  - destruct (String.compare x y) eqn:E.
    + apply String.compare_eq_iff in E. subst y. cbn. intuition congruence.
    + cbn. intuition congruence.
    + cbn [In]. rewrite IH. intuition congruence.
Qed.

Lemma set_insert_sorted (x : string) (s : list string) :
  StronglySorted str_lt s -> StronglySorted str_lt (Text2png.set_insert x s).
Proof.
  induction s as [|y s IH]; intros Hs; cbn [Text2png.set_insert].
  - repeat constructor.
  - inversion Hs as [|? ? Hs' Hy]; subst.
    destruct (String.compare x y) eqn:E; [exact Hs | |].
    + constructor; [exact Hs|]. constructor; [exact E|].
      rewrite Forall_forall in *. intros z Hz.
      apply (str_lt_trans x y z E). now apply Hy.
    + constructor; [now apply IH|].
      rewrite Forall_forall in *. intros z Hz.
      apply set_insert_in in Hz as [->|Hz]; [now apply compare_gt_lt|].
      now apply Hy.
Qed.

(** An ascending list is determined by its elements. *)
Lemma sorted_unique (l1 l2 : list string) :
  StronglySorted str_lt l1 -> StronglySorted str_lt l2 ->
  (forall x, In x l1 <-> In x l2) -> l1 = l2.
Proof.
  revert l2. induction l1 as [|a l1 IH]; intros l2 H1 H2 Hin.
  - destruct l2 as [|b l2]; [reflexivity|].
    exfalso. apply (Hin b). now left.
  - destruct l2 as [|b l2]; [exfalso; apply (Hin a); now left|].
    inversion H1 as [|? ? H1' Ha]; subst.
    inversion H2 as [|? ? H2' Hb]; subst.
    rewrite Forall_forall in Ha, Hb.
    assert (a = b) as <-.
    { destruct (proj1 (Hin a) (or_introl eq_refl)) as [E|E]; [auto|].
      destruct (proj2 (Hin b) (or_introl eq_refl)) as [E'|E']; [auto|].
      exfalso. apply (str_lt_irrefl a).
      apply (str_lt_trans a b a); auto. }
    f_equal. apply IH; try assumption.
    intros x. split; intros Hx.
    + destruct (proj1 (Hin x) (or_intror Hx)) as [E|E]; [|exact E].
      subst x. exfalso. apply (str_lt_irrefl a). now apply Ha.
    + destruct (proj2 (Hin x) (or_intror Hx)) as [E|E]; [|exact E].
      subst x. exfalso. apply (str_lt_irrefl a). now apply Hb.
Qed.

Lemma sorted_nodup (l : list string) : StronglySorted str_lt l -> NoDup l.
Proof.
  induction 1 as [|a l Hl IH Ha]; constructor; [|exact IH].
  intros Hin. rewrite Forall_forall in Ha.
  apply (str_lt_irrefl a). now apply Ha.
Qed.

Lemma insert_families_spec (families : list (option string))
    (acc : list string) :
  StronglySorted str_lt acc ->
  StronglySorted str_lt (Text2png.insert_families families acc)
  /\ forall x, In x (Text2png.insert_families families acc)
               <-> In (Some x) families \/ In x acc.
Proof.
  revert acc. induction families as [|f families IH]; intros acc Hacc.
  - cbn. split; [exact Hacc | intuition].
  - destruct f as [name|]; cbn [Text2png.insert_families].
    + destruct (IH (Text2png.set_insert name acc)
                  (set_insert_sorted name acc Hacc)) as [Hs Hin].
      split; [exact Hs|]. intros x. rewrite Hin, set_insert_in. cbn [In].
      intuition congruence.
    + destruct (IH acc Hacc) as [Hs Hin].
      split; [exact Hs|]. intros x. rewrite Hin. cbn [In].
      intuition congruence.
Qed.

Lemma print_indexed_listing (names : list string) (index : Z)
    (w : Text2png.World) :
  Text2png.w_stdout (Text2png.print_indexed names index w)
  = Text2png.w_stdout w ++ listing (numbered_from index names).
Proof.
  revert index w. induction names as [|n names IH]; intros index w.
  - cbn. now rewrite append_nil_r.
  - cbn [Text2png.print_indexed]. rewrite IH, numbered_from_cons.
    unfold listing. cbn [map concat_str fst snd Text2png.put_stdout
                           Text2png.w_stdout].
    assoc_str. reflexivity.
Qed.

Lemma print_fonts_listing (fonts : list string) (i : Z) (w : Txt2png.World) :
  Txt2png.w_stdout (Txt2png.print_fonts fonts i w)
  = Txt2png.w_stdout w ++ listing (numbered_from (i + 1) fonts).
Proof.
  revert i w. induction fonts as [|f fonts IH]; intros i w.
  - cbn. now rewrite append_nil_r.
  - cbn [Txt2png.print_fonts]. rewrite IH, numbered_from_cons.
    unfold listing. cbn [map concat_str fst snd Txt2png.put_stdout
                           Txt2png.w_stdout].
    assoc_str. reflexivity.
Qed.

Lemma existsb_eqb_in (f : string) (l : list string) :
  existsb (String.eqb f) l = true <-> In f l.
Proof.
  rewrite existsb_exists. split.
  - intros [x [Hx E]]. apply String.eqb_eq in E. now subst.
  - intros H. exists f. split; [exact H | apply String.eqb_refl].
Qed.

Lemma dedup_loop_spec (fonts dedup : list string) :
  NoDup dedup ->
  NoDup (Txt2png.dedup_loop fonts dedup)
  /\ forall x, In x (Txt2png.dedup_loop fonts dedup)
               <-> In x dedup \/ In x fonts.
Proof.
  revert dedup. induction fonts as [|f fonts IH]; intros dedup Hd.
  - cbn. split; [exact Hd | intuition].
  - cbn [Txt2png.dedup_loop].
    destruct (existsb (String.eqb f) dedup) eqn:E.
    + apply existsb_eqb_in in E. destruct (IH dedup Hd) as [Hn Hin].
      split; [exact Hn|]. intros x. rewrite Hin. cbn [In].
      intuition congruence.
    + assert (Hnot : ~ In f dedup).
      { intros H. apply existsb_eqb_in in H. congruence. }
      assert (Hd' : NoDup (dedup ++ [f])).
      { apply NoDup_app; [exact Hd | repeat constructor; intros [] |].
        intros x Hx [<-|[]]. contradiction. }
      destruct (IH _ Hd') as [Hn Hin].
      split; [exact Hn|]. intros x. rewrite Hin, in_app_iff. cbn [In].
      intuition congruence.
Qed.

Lemma list_fonts_listing (b : Text2png.Backend) (w : Text2png.World)
    (families : list (option string)) :
  Text2png.FcInitLoadConfigAndFonts b = true ->
  Text2png.FcFontList b = Some families ->
  Text2png.w_stdout (Text2png.list_fonts b w)
  = Text2png.w_stdout w
    ++ listing (numbered_from 1 (Text2png.insert_families families [])).
Proof.
  intros Hinit Hlist. unfold Text2png.list_fonts.
  rewrite Hinit, Hlist. cbn [negb]. apply print_indexed_listing.
Qed.

Lemma collect_fonts_fallback (env : Txt2png.Env) (exe : string) :
  Txt2png.collect_im_names
    (getlines (Txt2png.run_and_capture env (exe ++ " -list font"))) [] = [] ->
  NoDup (Txt2png.collect_fonts env exe).
Proof.
  intros H. unfold Txt2png.collect_fonts.
  destruct (String.eqb (Txt2png.run_and_capture env (exe ++ " -list font"))
              "").
  - destruct (String.eqb (Txt2png.run_and_capture env "fc-list : family")
                "");
      [constructor | apply dedup_loop_spec; constructor].
  - rewrite H.
    destruct (String.eqb (Txt2png.run_and_capture env "fc-list : family")
                "");
      [constructor | apply dedup_loop_spec; constructor].
Qed.

(** Where the listings are as claim C8 asks.  [list_fonts] of text2png
    prints the family names that FontConfig reports, each once, in
    ascending order of their bytes, numbered from 1; the listing depends on
    the set of names only, not on the order or the number of times they are
    reported.  [collect_fonts] of txt2png gives the names in the order of
    the output it reads, listed with numbers from 1; the names are distinct
    when they come from [fc-list], the source used when ImageMagick gives
    no name. *)
Lemma font_listing_is_distinct_where_deduplicated :
  (forall b w families,
     Text2png.FcInitLoadConfigAndFonts b = true ->
     Text2png.FcFontList b = Some families ->
     exists names,
       Text2png.w_stdout (Text2png.list_fonts b w)
       = Text2png.w_stdout w ++ listing (numbered_from 1 names)
       /\ StronglySorted str_lt names /\ NoDup names
       /\ forall x, In x names <-> In (Some x) families)
  /\
  (forall b1 b2 w families1 families2,
     Text2png.FcInitLoadConfigAndFonts b1 = true ->
     Text2png.FcInitLoadConfigAndFonts b2 = true ->
     Text2png.FcFontList b1 = Some families1 ->
     Text2png.FcFontList b2 = Some families2 ->
     (forall x, In (Some x) families1 <-> In (Some x) families2) ->
     Text2png.w_stdout (Text2png.list_fonts b1 w)
     = Text2png.w_stdout (Text2png.list_fonts b2 w))
  /\
  (forall env exe w,
     Txt2png.w_stdout
       (Txt2png.print_fonts (Txt2png.collect_fonts env exe) 0 w)
     = Txt2png.w_stdout w
       ++ listing (numbered_from 1 (Txt2png.collect_fonts env exe)))
  /\
  (forall env exe,
     Txt2png.collect_im_names
       (getlines (Txt2png.run_and_capture env (exe ++ " -list font"))) []
     = [] ->
     NoDup (Txt2png.collect_fonts env exe)).
Proof.
  split; [|split; [|split]].
  - intros b w families Hinit Hlist.
    destruct (insert_families_spec families [] (SSorted_nil _))
      as [Hs Hin].
    exists (Text2png.insert_families families []).
    split; [now apply list_fonts_listing|].
    split; [exact Hs|]. split; [now apply sorted_nodup|].
    intros x. rewrite Hin. cbn [In]. tauto.
  - intros b1 b2 w families1 families2 Hi1 Hi2 Hl1 Hl2 Hsame.
    rewrite (list_fonts_listing b1 w families1 Hi1 Hl1).
    rewrite (list_fonts_listing b2 w families2 Hi2 Hl2).
    destruct (insert_families_spec families1 [] (SSorted_nil _))
      as [Hs1 Hin1].
    destruct (insert_families_spec families2 [] (SSorted_nil _))
      as [Hs2 Hin2].
    rewrite (sorted_unique _ _ Hs1 Hs2); [reflexivity|].
    intros x. rewrite Hin1, Hin2, Hsame. tauto.
  - intros env exe w. apply print_fonts_listing.
  - intros env exe. apply collect_fonts_fallback.
Qed.

(** The families of the sample machine, reported with a repetition and in
    no order, and a machine where [fc-list] reports a family twice. *)
Lemma font_listing_is_distinct_on_samples :
  (exists names,
     Text2png.w_stdout (Text2png.list_fonts Samples.all_fine Text2png.world0)
     = Text2png.w_stdout Text2png.world0 ++ listing (numbered_from 1 names)
     /\ StronglySorted str_lt names /\ NoDup names
     /\ forall x, In x names
                  <-> In (Some x)
                        [Some "Noto Sans"; Some "DejaVu Sans"; None;
                         Some "Noto Sans"; Some "noto sans"])
  /\ NoDup (Txt2png.collect_fonts MoreSamples.fontconfig_only "magick").
Proof.
  split.
  - apply (proj1 font_listing_is_distinct_where_deduplicated
             Samples.all_fine Text2png.world0); reflexivity.
  - apply (proj2 (proj2 (proj2 font_listing_is_distinct_where_deduplicated))
             MoreSamples.fontconfig_only "magick"). reflexivity.
Defined.

(** When ImageMagick's list gives a name, the catalogue is that list as it
    is. *)
Lemma collect_fonts_from_imagemagick (env : Txt2png.Env) (exe : string) :
  Txt2png.collect_im_names
    (getlines (Txt2png.run_and_capture env (exe ++ " -list font"))) []
  <> [] ->
  Txt2png.collect_fonts env exe
  = Txt2png.collect_im_names
      (getlines (Txt2png.run_and_capture env (exe ++ " -list font"))) [].
Proof.
  intros H. unfold Txt2png.collect_fonts.
  destruct (String.eqb (Txt2png.run_and_capture env (exe ++ " -list font"))
              "") eqn:E.
  - apply String.eqb_eq in E. rewrite E in H. now contradiction H.
  - destruct (Txt2png.collect_im_names _ []); [contradiction | reflexivity].
Qed.

(** Claim C8, where the code departs from it.  The names that
    [collect_fonts] of txt2png reads from ImageMagick's list are not
    deduplicated: the loop that drops repeated names stands inside the
    [fc-list] fallback and is not reached once ImageMagick has given a
    name.  So whenever ImageMagick's list has a name twice the catalogue
    has it twice; on a machine whose list has the line [Font: Helvetica]
    twice, [--list-fonts] prints [1: Helvetica] and [2: Helvetica].  On a
    machine where the names come from [fc-list] the family reported twice
    is listed once. *)
Theorem imagemagick_listing_keeps_repeated_names :
  (forall env exe,
     ~ NoDup
         (Txt2png.collect_im_names
            (getlines (Txt2png.run_and_capture env (exe ++ " -list font")))
            []) ->
     Txt2png.collect_fonts env exe
     = Txt2png.collect_im_names
         (getlines (Txt2png.run_and_capture env (exe ++ " -list font"))) []
     /\ ~ NoDup (Txt2png.collect_fonts env exe))
  /\ Txt2png.collect_fonts Samples.font_listed_twice "magick"
     = ["Helvetica"; "Helvetica"]
  /\ ~ NoDup (Txt2png.collect_fonts Samples.font_listed_twice "magick")
  /\ Txt2png.main Samples.cos_at_0 Samples.sin_at_0
       Samples.font_listed_twice Samples.only_list_fonts
     = (0,
        {| Txt2png.w_stdout :=
             "1: Helvetica" ++ NL ++ "2: Helvetica" ++ NL;
           Txt2png.w_stderr := "";
           Txt2png.w_commands := [] |})
  /\ Txt2png.collect_fonts MoreSamples.fontconfig_only "magick"
     = ["DejaVu Sans"; "Noto Sans"].
Proof.
  assert (Hgen : forall env exe,
             ~ NoDup
                 (Txt2png.collect_im_names
                    (getlines
                       (Txt2png.run_and_capture env (exe ++ " -list font")))
                    []) ->
             Txt2png.collect_fonts env exe
             = Txt2png.collect_im_names
                 (getlines
                    (Txt2png.run_and_capture env (exe ++ " -list font")))
                 []
             /\ ~ NoDup (Txt2png.collect_fonts env exe)).
  { intros env exe H.
    assert (E : Txt2png.collect_fonts env exe
                = Txt2png.collect_im_names
                    (getlines
                       (Txt2png.run_and_capture env (exe ++ " -list font")))
                    []).
    { apply collect_fonts_from_imagemagick. intros Hnil. apply H.
      rewrite Hnil. constructor. }
    split; [exact E | now rewrite E]. }
  split; [exact Hgen|].
  split; [vm_compute; reflexivity|].
  split.
  - apply (Hgen Samples.font_listed_twice "magick").
    intros Hnd. vm_compute in Hnd.
    apply NoDup_cons_iff in Hnd as [Hin _]. apply Hin. left. reflexivity.
  - split; vm_compute; reflexivity.
Qed.

End FontFacts.

(** * Further properties *)

(** ** Trimming, once more *)

Module TrimMore.
Import Cxx Txt2png Spec StringFacts TrimFacts.

Lemma ltrim_chars_app_space (sp l : list ascii) :
  forallb isspace sp = true -> ltrim_chars (sp ++ l) = ltrim_chars l.
Proof.
  unfold ltrim_chars. induction sp as [|c sp IH]; intros H; [reflexivity|].
  cbn [forallb] in H. apply andb_true_iff in H as [Hc Hsp].
  cbn [app find_if_not_space]. rewrite Hc. cbn [skipn]. now apply IH.
Qed.

Lemma ltrim_chars_fixed (l : list ascii) :
  (forall c, hd_error l = Some c -> isspace c = false) -> ltrim_chars l = l.
Proof.
  unfold ltrim_chars. destruct l as [|c l]; intros H; [reflexivity|].
  cbn [find_if_not_space]. now rewrite (H c eq_refl).
Qed.

Lemma forallb_rev (f : ascii -> bool) (l : list ascii) :
  forallb f (rev l) = forallb f l.
Proof.
  destruct (forallb f l) eqn:E.
  - rewrite forallb_forall in *. intros x Hx. apply E. now apply in_rev.
  - destruct (forallb f (rev l)) eqn:E'; [|reflexivity].
    rewrite <- E. symmetry. rewrite forallb_forall in *.
    intros x Hx. apply E'. now apply in_rev in Hx.
Qed.

Lemma rtrim_chars_app_space (l sp : list ascii) :
  forallb isspace sp = true -> rtrim_chars (l ++ sp) = rtrim_chars l.
Proof.
  intros H. rewrite !rtrim_chars_rev, rev_app_distr.
  rewrite ltrim_chars_app_space; [reflexivity|]. now rewrite forallb_rev.
Qed.

Lemma rtrim_chars_fixed (l : list ascii) :
  (forall pre c, l = (pre ++ [c])%list -> isspace c = false) ->
  rtrim_chars l = l.
Proof.
  intros H. rewrite rtrim_chars_rev, ltrim_chars_fixed.
  - apply rev_involutive.
  - intros c Hc. destruct (rev l) as [|x r] eqn:E; [discriminate|].
    cbn in Hc. injection Hc as ->. apply (H (rev r) c).
    rewrite <- (rev_involutive l), E. reflexivity.
Qed.

Lemma last_char_app (pre : list ascii) (c : ascii) :
  last_char (string_of_list_ascii (pre ++ [c])) = Some c.
Proof.
  induction pre as [|x pre IH]; [reflexivity|].
  cbn [app string_of_list_ascii last_char]. rewrite IH.
  destruct (string_of_list_ascii (pre ++ [c])) eqn:E; [|reflexivity].
  destruct pre; discriminate.
Qed.

Lemma no_outer_space_chars (s : string) :
  no_outer_space s ->
  (forall c, hd_error (list_ascii_of_string s) = Some c -> isspace c = false)
  /\ (forall pre c, list_ascii_of_string s = (pre ++ [c])%list ->
                    isspace c = false).
Proof.
  intros [Hf Hl]. split.
  - intros c H. apply Hf. now rewrite first_char_list.
  - intros pre c H. apply Hl.
    rewrite (string_of_list_inj s _ H). apply last_char_app.
Qed.

Lemma trim_core (lead core trail : string) :
  all_space lead = true -> all_space trail = true ->
  no_outer_space core ->
  trim (lead ++ core ++ trail) = core.
Proof.
  intros Hlead Htrail Hcore.
  rewrite (string_of_list_inj _ _ (trim_list (lead ++ core ++ trail))).
  rewrite <- (string_of_list_ascii_of_string core) at 2. f_equal.
  rewrite !list_of_append. rewrite all_space_list in Hlead, Htrail.
  rewrite ltrim_chars_app_space by assumption.
  destruct (no_outer_space_chars core Hcore) as [Hhd Hlast].
  destruct (list_ascii_of_string core) as [|c k] eqn:E.
  - cbn [app]. rewrite (ltrim_chars_all_space _ Htrail). reflexivity.
  - rewrite ltrim_chars_fixed.
    + rewrite rtrim_chars_app_space by assumption.
      now apply rtrim_chars_fixed.
    + cbn. intros x Hx. now apply Hhd.
Qed.

Lemma trim_fixed (s : string) : no_outer_space s -> trim s = s.
Proof.
  intros H. pose proof (trim_core "" s "" eq_refl eq_refl H) as H'.
  cbn [append] in H'. now rewrite append_nil_r in H'.
Qed.

(** Extra X1.  [trim] takes away exactly the white space around a text:
    for a core that neither begins nor ends with white space, white space
    put before and after it is removed again.  So [trim] changes nothing
    when applied a second time, and it leaves a text as it is exactly when
    the text has no white space at its two ends. *)
Theorem trim_removes_exactly_the_outer_space :
  (forall lead core trail,
     all_space lead = true -> all_space trail = true ->
     no_outer_space core ->
     trim (lead ++ core ++ trail) = core)
  /\ (forall s, trim (trim s) = trim s)
  /\ (forall s, trim s = s <-> no_outer_space s).
Proof.
  split; [exact trim_core|]. split.
  - intros s. apply trim_fixed, trim_no_outer_space.
  - intros s. split.
    + intros <-. apply trim_no_outer_space.
    + apply trim_fixed.
Qed.

Lemma trim_removes_exactly_the_outer_space_witness :
  trim ("  " ++ "a b" ++ " ") = "a b".
Proof.
  apply (proj1 trim_removes_exactly_the_outer_space "  " "a b" " ").
  - reflexivity.
  - reflexivity.
  - split; intros c H; cbn in H; injection H as <-; reflexivity.
Defined.

End TrimMore.

(** ** Escaping, once more *)

Module EscapeMore.
Import Cxx Txt2png Spec Checks StringFacts EscapeFacts.

Lemma insert_backslashes_app (a b : string) :
  insert_backslashes (a ++ b)
  = insert_backslashes a ++ insert_backslashes b.
Proof.
  induction a as [|c a IH]; [reflexivity|].
  cbn [append insert_backslashes]. rewrite IH.
  destruct (needs_backslash c); reflexivity.
Qed.

(** Extra X2.  Escaping goes through concatenation, and two different
    texts never have the same escaped form. *)
Theorem escape_for_label_is_a_morphism_and_injective :
  (forall a b,
     escape_for_label (a ++ b) = escape_for_label a ++ escape_for_label b)
  /\ (forall a b, escape_for_label a = escape_for_label b -> a = b).
Proof.
  split.
  - intros a b. rewrite !escape_is_insert. apply insert_backslashes_app.
  - intros a b H. rewrite !escape_is_insert in H.
    apply (f_equal remove_backslashes) in H.
    now rewrite !remove_insert in H.
Qed.

(** Extra X3.  The escaped text never closes the double quotes it is put
    between: read from the left with a backslash taking the next character
    with it, it has no double quote outside such a pair and does not end
    inside one. *)
Theorem escaped_text_is_well_quoted (s : string) :
  well_quoted (escape_for_label s) = true.
Proof.
  rewrite escape_is_insert. induction s as [|c s IH]; [reflexivity|].
  cbn [insert_backslashes]. unfold needs_backslash.
  destruct (Ascii.eqb c backslash_char) eqn:Eb.
  - cbn [orb well_quoted]. now rewrite Ascii.eqb_refl.
  - destruct (Ascii.eqb c dquote_char) eqn:Eq.
    + cbn [orb well_quoted]. now rewrite Ascii.eqb_refl.
    + cbn [orb well_quoted]. now rewrite Eb, Eq.
Qed.

End EscapeMore.

(** ** The font catalogue of txt2png, once more *)

Module FontMore.
Import Cxx Txt2png Spec Checks StringFacts TrimFacts TrimMore FontFacts.

Lemma font_line_name_clean (line name : string) :
  font_line_name line = Some name ->
  name <> "" /\ no_outer_space name /\ has_line_terminator name = false.
Proof.
  unfold font_line_name.
  destruct (String.prefix "Font:" (ltrim line)); [|discriminate].
  set (t := trim _).
  destruct (String.eqb t "") eqn:E; [discriminate|].
  destruct (has_line_terminator t) eqn:E'; [discriminate|].
  intros H. injection H as <-. apply String.eqb_neq in E.
  split; [exact E|]. split; [apply trim_no_outer_space | exact E'].
Qed.

Lemma collect_im_names_in (lines acc : list string) (x : string) :
  In x (collect_im_names lines acc) ->
  In x acc \/ exists line, In line lines /\ font_line_name line = Some x.
Proof.
  revert acc. induction lines as [|l lines IH]; intros acc H; [now left|].
  cbn [collect_im_names] in H.
  destruct (font_line_name l) as [name|] eqn:E.
  - apply IH in H as [H|[line [Hin Hl]]].
    + apply in_app_iff in H as [H|[<-|[]]]; [now left|].
      right. exists l. split; [now left | exact E].
    + right. exists line. split; [now right | exact Hl].
  - apply IH in H as [H|[line [Hin Hl]]]; [now left|].
    right. exists line. split; [now right | exact Hl].
Qed.

Lemma collect_fc_families_in (lines acc : list string) (x : string) :
  In x (collect_fc_families lines acc) ->
  In x acc \/ exists line, In line lines /\ x = trim (before_colon line)
                           /\ x <> "".
Proof.
  revert acc. induction lines as [|l lines IH]; intros acc H; [now left|].
  cbn [collect_fc_families] in H.
  destruct (String.eqb (trim (before_colon l)) "") eqn:E.
  - apply IH in H as [H|[line [Hin Hl]]]; [now left|].
    right. exists line. split; [now right | exact Hl].
  - apply IH in H as [H|[line [Hin Hl]]].
    + apply in_app_iff in H as [H|[<-|[]]]; [now left|].
      right. exists l. apply String.eqb_neq in E. split; [now left | auto].
    + right. exists line. split; [now right | exact Hl].
Qed.

(** Extra X4.  Every name in the font catalogue is a trimmed, non-empty
    text: [collect_fonts] never returns an empty name nor one with white
    space at its ends, from ImageMagick or from [fc-list]. *)
Theorem collected_font_names_are_trimmed (env : Env) (exe name : string) :
  In name (collect_fonts env exe) ->
  name <> "" /\ no_outer_space name.
Proof.
  unfold collect_fonts.
  set (im := if String.eqb (run_and_capture env (exe ++ " -list font")) ""
             then [] else collect_im_names _ []).
  assert (Him : forall x, In x im -> x <> "" /\ no_outer_space x).
  { intros x Hx. subst im.
    destruct (String.eqb (run_and_capture env (exe ++ " -list font")) "");
      [destruct Hx|].
    apply collect_im_names_in in Hx as [[]|[line [_ Hl]]].
    apply font_line_name_clean in Hl. tauto. }
  destruct im as [|n ns]; [|intros H; now apply Him].
  destruct (String.eqb (run_and_capture env "fc-list : family") "");
    [intros []|].
  intros H. apply dedup_loop_spec in H; [|constructor].
  destruct H as [[]|H].
  apply collect_fc_families_in in H as [[]|[line [_ [-> Hne]]]].
  split; [exact Hne | apply trim_no_outer_space].
Qed.

Lemma collected_font_names_are_trimmed_witness :
  "Helvetica" <> "" /\ no_outer_space "Helvetica".
Proof.
  apply (collected_font_names_are_trimmed Samples.font_listed_twice "magick"
           "Helvetica").
  left. reflexivity.
Defined.

Lemma filter_filter (p q : string -> bool) (l : list string) :
  filter p (filter q l) = filter (fun y => (q y && p y)%bool) l.
Proof.
  induction l as [|x l IH]; [reflexivity|]. cbn [filter].
  destruct (q x); cbn [filter andb]; [|exact IH].
  destruct (p x); now rewrite IH.
Qed.

(** The loop started with [dedup]: what is there stays, and of the rest the
    first occurrences that are not there yet are added in order. *)
Lemma dedup_loop_first_occurrences (fonts dedup : list string) :
  dedup_loop fonts dedup
  = (dedup
     ++ filter (fun y => negb (existsb (String.eqb y) dedup))
          (first_occurrences fonts))%list.
Proof.
  revert dedup. induction fonts as [|f fonts IH]; intros dedup.
  - cbn. now rewrite app_nil_r.
  - cbn [dedup_loop first_occurrences filter].
    destruct (existsb (String.eqb f) dedup) eqn:E; cbn [negb].
    + rewrite IH. f_equal. rewrite filter_filter. apply filter_ext.
      intros y. destruct (String.eqb y f) eqn:Ey; [|reflexivity].
      apply String.eqb_eq in Ey. subst y. now rewrite E.
    + rewrite IH, <- app_assoc. cbn [app]. do 2 f_equal.
      rewrite filter_filter. apply filter_ext. intros y.
      rewrite existsb_app. cbn [existsb]. rewrite orb_false_r, negb_orb.
      apply andb_comm.
Qed.

(** Extra X5.  The source of the font catalogue: when ImageMagick's list
    gives at least one name the catalogue is that list of names as it is,
    and [fc-list] plays no part; when it gives none the catalogue is made
    of the families of [fc-list], each kept where it occurs first. *)
Theorem font_catalogue_source (env : Env) (exe : string) :
  let im_names :=
    collect_im_names
      (getlines (run_and_capture env (exe ++ " -list font"))) [] in
  let fc_families :=
    collect_fc_families
      (getlines (run_and_capture env "fc-list : family")) [] in
  (im_names <> [] -> collect_fonts env exe = im_names)
  /\ (im_names = [] -> collect_fonts env exe = first_occurrences fc_families).
Proof.
  intros im_names fc_families. unfold collect_fonts.
  assert (Him : (if String.eqb (run_and_capture env (exe ++ " -list font")) ""
                 then [] else im_names) = im_names).
  { destruct (String.eqb (run_and_capture env (exe ++ " -list font")) "")
      eqn:E; [|reflexivity].
    apply String.eqb_eq in E. subst im_names. now rewrite E. }
  fold im_names. rewrite Him. split; intros H.
  - destruct im_names; [contradiction | reflexivity].
  - rewrite H.
    destruct (String.eqb (run_and_capture env "fc-list : family") "") eqn:E.
    + apply String.eqb_eq in E. subst fc_families. now rewrite E.
    + fold fc_families. rewrite dedup_loop_first_occurrences.
      cbn [app existsb negb]. clear.
      induction (first_occurrences fc_families) as [|x l IH];
        [reflexivity|]. cbn [filter]. now rewrite IH.
Qed.

Lemma font_catalogue_source_witness :
  Txt2png.collect_fonts Samples.font_listed_twice "magick"
  = collect_im_names
      (getlines (run_and_capture Samples.font_listed_twice
                   ("magick" ++ " -list font"))) [].
Proof.
  apply (proj1 (font_catalogue_source Samples.font_listed_twice "magick")).
  vm_compute. discriminate.
Defined.

Lemma ltrim_app_space (sp s : string) :
  all_space sp = true -> ltrim (sp ++ s) = ltrim s.
Proof.
  intros H. unfold ltrim. rewrite list_of_append.
  rewrite ltrim_chars_app_space; [reflexivity|].
  now rewrite <- all_space_list.
Qed.

Lemma substring_all (s : string) : substring 0 (String.length s) s = s.
Proof. induction s as [|c s IH]; [reflexivity|]. cbn. now rewrite IH. Qed.

Lemma prefix_app (p s : string) : String.prefix p (p ++ s) = true.
Proof.
  induction p as [|c p IH]; cbn; [now destruct s|].
  destruct (Ascii.ascii_dec c c); [exact IH | contradiction].
Qed.

Lemma substring_after (p s : string) :
  substring (String.length p) (String.length (p ++ s) - String.length p)
    (p ++ s) = s.
Proof.
  rewrite length_append, Nat.add_comm, Nat.add_sub.
  induction p as [|c p IH]; cbn; [apply substring_all | exact IH].
Qed.

(** Extra X6.  A line of ImageMagick's list that is [Font:] and a name,
    with white space anywhere around the two, gives that name: the white
    space before [Font:], between it and the name and after the name is
    dropped. *)
Theorem font_line_gives_the_name (sp1 sp2 sp3 name : string) :
  all_space sp1 = true -> all_space sp2 = true -> all_space sp3 = true ->
  name <> "" -> no_outer_space name -> has_line_terminator name = false ->
  font_line_name (sp1 ++ "Font:" ++ sp2 ++ name ++ sp3) = Some name.
Proof.
  intros H1 H2 H3 Hne Hname Hterm. unfold font_line_name.
  rewrite ltrim_app_space by assumption.
  assert (Hl : ltrim ("Font:" ++ sp2 ++ name ++ sp3)
               = "Font:" ++ sp2 ++ name ++ sp3).
  { unfold ltrim. rewrite ltrim_chars_fixed.
    - apply string_of_list_ascii_of_string.
    - cbn. intros c H. injection H as <-. reflexivity. }
  rewrite Hl, (prefix_app "Font:").
  pose proof (substring_after "Font:" (sp2 ++ name ++ sp3)) as Hsub.
  change (String.length "Font:") with 5%nat in Hsub. rewrite Hsub.
  rewrite (trim_core sp2 name sp3) by assumption.
  apply String.eqb_neq in Hne. now rewrite Hne, Hterm.
Qed.

Lemma font_line_gives_the_name_witness :
  font_line_name ("  " ++ "Font:" ++ " " ++ "DejaVu-Sans" ++ "") 
  = Some "DejaVu-Sans".
Proof.
  apply (font_line_gives_the_name "  " " " "" "DejaVu-Sans");
    try reflexivity; try discriminate.
  split; intros c H; cbn in H; injection H as <-; reflexivity.
Defined.

End FontMore.

(** ** The whole of txt2png's main *)

Module Txt2pngMore.
Import Cxx Txt2png Spec StringFacts TrimFacts JobFacts FontFacts.

(** Closes the cases of [main]: the status is a number and the world is
    there to read. *)
#[local] Ltac settle :=
  cbn [fst snd In put_stderr print_fonts world0 w_commands w_stdout
       w_stderr];
  repeat split; intros;
  try reflexivity; try assumption; try lia; try discriminate.

Section Run.
Variables cos sin : Q -> Q.
Variable env : Env.

#[local] Abbreviation main := (Txt2png.main cos sin env).
#[local] Abbreviation line_loop := (Txt2png.line_loop cos sin env).

Lemma detect_cases :
  (detect_imagemagick env = "magick"
   /\ system env "magick -version > /dev/null 2>&1" = 0)
  \/ (detect_imagemagick env = "convert"
      /\ system env "magick -version > /dev/null 2>&1" <> 0
      /\ system env "convert -version > /dev/null 2>&1" = 0)
  \/ (detect_imagemagick env = ""
      /\ system env "magick -version > /dev/null 2>&1" <> 0
      /\ system env "convert -version > /dev/null 2>&1" <> 0).
Proof.
  unfold detect_imagemagick.
  change ("magick" ++ " -version > /dev/null 2>&1")
    with "magick -version > /dev/null 2>&1".
  change ("convert" ++ " -version > /dev/null 2>&1")
    with "convert -version > /dev/null 2>&1".
  destruct (system env "magick -version > /dev/null 2>&1" =? 0) eqn:E1.
  - left. apply Z.eqb_eq in E1. auto.
  - apply Z.eqb_neq in E1.
    destruct (system env "convert -version > /dev/null 2>&1" =? 0) eqn:E2.
    + right. left. apply Z.eqb_eq in E2. auto.
    + right. right. apply Z.eqb_neq in E2. auto.
Qed.

(** What the loop returns and what it leaves of the world it started
    from. *)
Lemma line_loop_result (opt : Options) (font : string)
    (lines : list string) (lineno made : Z) (w : World) :
  let r := line_loop opt font lines lineno made w in
  (fst (fst r) = None \/ (fst (fst r) = Some 7 /\ dry_run opt = false))
  /\ (dry_run opt = true -> w_commands (snd r) = w_commands w)
  /\ (dry_run opt = false -> w_stdout (snd r) = w_stdout w).
Proof.
  revert lineno made w.
  induction lines as [|line rest IH]; intros lineno made w.
  - cbn. auto.
  - cbn [Txt2png.line_loop].
    destruct (String.eqb (trim line) ""); [apply IH|].
    destruct (dry_run opt) eqn:Hdry.
    + destruct (IH (lineno + 1) made
                  (put_stdout
                     (line_command cos sin opt font (trim line) lineno
                      ++ NL) w)) as [H1 [H2 H3]].
      split; [exact H1|]. split; [|discriminate].
      intros _. now rewrite H2.
    + destruct (system env
                  (line_command cos sin opt font (trim line) lineno) =? 0);
        cbn [negb].
      * destruct (IH (lineno + 1) (made + 1)
                    (ran_command
                       (line_command cos sin opt font (trim line) lineno) w))
          as [H1 [H2 H3]].
        split; [exact H1|]. split; [discriminate|].
        intros _. now rewrite H3.
      * cbn. split; [right; auto|]. split; [discriminate | reflexivity].
Qed.

(** A loop that ran to the end of the input, outside a dry run, ran the
    command of every job and each returned 0. *)
Lemma line_loop_completed (opt : Options) (font : string)
    (lines : list string) (lineno made made' : Z) (w w' : World) :
  dry_run opt = false ->
  line_loop opt font lines lineno made w = (None, made', w') ->
  let jobs := jobs_by_position lineno lines in
  Forall (fun j => system env (job_command cos sin opt font j) = 0) jobs
  /\ made' = made + Z.of_nat (List.length jobs)
  /\ w' = {| w_stdout := w_stdout w; w_stderr := w_stderr w;
             w_commands := w_commands w
                           ++ map (job_command cos sin opt font) jobs |}.
Proof.
  intros Hdry. revert lineno made w.
  induction lines as [|line rest IH]; intros lineno made w H.
  - cbn in H. injection H as <- <-. cbn.
    split; [constructor|]. split; [lia|].
    destruct w; cbn. now rewrite app_nil_r.
  - cbn zeta. rewrite jobs_by_position_cons.
    cbn [Txt2png.line_loop] in H. rewrite trim_eqb_empty in H.
    destruct (all_space line); [now apply IH|].
    rewrite Hdry in H.
    destruct (system env
                (line_command cos sin opt font (trim line) lineno) =? 0)
      eqn:E; cbn [negb] in H; [|discriminate].
    apply IH in H as [Hall [Hmade Hw]]. apply Z.eqb_eq in E.
    split; [constructor; [exact E | exact Hall]|].
    split; [cbn [List.length]; lia|].
    rewrite Hw. cbn [ran_command w_stdout w_stderr w_commands map].
    rewrite <- app_assoc. reflexivity.
Qed.

Lemma resolve_font_complaint (opt : Options) (fonts : list string)
    (w w' : World) :
  resolve_font env opt fonts w = inr w' ->
  w_commands w' = w_commands w /\ w_stdout w' = w_stdout w
  /\ 0 < font_index opt.
Proof.
  unfold resolve_font. destruct (0 <? font_index opt) eqn:E; [|discriminate].
  apply Z.ltb_lt in E.
  destruct (_ || _)%bool; [|discriminate].
  intros H. injection H as <-. auto.
Qed.

(** Extra X7.  The exit status of txt2png's [main] is one of 0, 3, 4, 5,
    6 and 7; it is 3 exactly when neither [magick -version] nor
    [convert -version] returns 0; with 3, 4, 5 or 6 no render command was
    run and nothing was printed on the standard output; 7 is only returned
    outside a dry run and without [--list-fonts]. *)
Theorem txt2png_exit_statuses (opt : Options) :
  In (fst (main opt)) [0; 3; 4; 5; 6; 7]
  /\ (fst (main opt) = 3 <->
      system env "magick -version > /dev/null 2>&1" <> 0
      /\ system env "convert -version > /dev/null 2>&1" <> 0)
  /\ (In (fst (main opt)) [3; 4; 5; 6] ->
      w_commands (snd (main opt)) = [] /\ w_stdout (snd (main opt)) = "")
  /\ (fst (main opt) = 7 -> dry_run opt = false /\ list_fonts opt = false).
Proof.
  assert (Hno3 : detect_imagemagick env <> "" ->
                 In (fst (main opt)) [0; 4; 5; 6; 7]
                 /\ (In (fst (main opt)) [4; 5; 6] ->
                     w_commands (snd (main opt)) = []
                     /\ w_stdout (snd (main opt)) = "")
                 /\ (fst (main opt) = 7 ->
                     dry_run opt = false /\ list_fonts opt = false)).
  { intros Hne. unfold Txt2png.main.
    cbn [im_exe set_im_exe list_fonts input_path start_index].
    apply String.eqb_neq in Hne. rewrite Hne.
    fold (set_im_exe (detect_imagemagick env) opt).
    destruct (list_fonts opt) eqn:Hlist.
    { destruct (collect_fonts env (detect_imagemagick env)); settle. }
    destruct (resolve_font env _ _ world0) as [font|w'] eqn:Hfont.
    2:{ apply resolve_font_complaint in Hfont as [Hc [Hs _]]. settle. }
    destruct (ifstream env (input_path opt)) as [content|]; [|settle].
    pose proof (line_loop_result (set_im_exe (detect_imagemagick env) opt)
                  font (getlines content) (start_index opt) 0 world0)
      as [Hcode [_ _]].
    cbn zeta in Hcode.
    destruct (Txt2png.line_loop cos sin env _ font (getlines content)
                (start_index opt) 0 world0) as [[code made] w'].
    cbn [fst snd] in Hcode.
    destruct Hcode as [-> | [-> Hdry]]; cbn [finish];
      try (cbn in Hdry); settle. }
  destruct detect_cases as [[Hd H1]|[[Hd [H1 H2]]|[Hd [H1 H2]]]].
  - destruct Hno3 as [Hin [Hfatal H7]]; [rewrite Hd; discriminate|].
    cbn [In] in *. repeat split; intros; try tauto; try lia.
    + apply Hfatal. lia.
    + apply Hfatal. lia.
  - destruct Hno3 as [Hin [Hfatal H7]]; [rewrite Hd; discriminate|].
    cbn [In] in *. repeat split; intros; try tauto; try lia.
    + apply Hfatal. lia.
    + apply Hfatal. lia.
  - unfold Txt2png.main. cbn [im_exe set_im_exe]. rewrite Hd.
    cbn [String.eqb]. settle.
Qed.

Lemma main_to_loop (opt : Options) (code : Z) (w : World) :
  main opt = (code, w) -> list_fonts opt = false -> (code = 0 \/ code = 7) ->
  exists font content,
    detect_imagemagick env <> ""
    /\ resolve_font env (set_im_exe (detect_imagemagick env) opt)
         (collect_fonts env (detect_imagemagick env)) world0 = inl font
    /\ ifstream env (input_path opt) = Some content
    /\ finish (set_im_exe (detect_imagemagick env) opt)
         (line_loop (set_im_exe (detect_imagemagick env) opt) font
            (getlines content) (start_index opt) 0 world0) = (code, w).
Proof.
  unfold Txt2png.main.
  cbn [im_exe set_im_exe list_fonts input_path start_index].
  fold (set_im_exe (detect_imagemagick env) opt).
  intros H Hlist Hcode. rewrite Hlist in H.
  destruct (String.eqb (detect_imagemagick env) "") eqn:E.
  { injection H as <- _. lia. }
  apply String.eqb_neq in E.
  destruct (resolve_font env _ _ world0) as [font|w'] eqn:Hfont.
  2:{ injection H as <- _. lia. }
  destruct (ifstream env (input_path opt)) as [content|].
  2:{ injection H as <- _. lia. }
  exists font, content. auto.
Qed.

(** Extra X8.  When [main] returns 0 after rendering (no [--list-fonts],
    no [--dry-run]), the input file was read, the commands run are the
    commands of all the lines that are not blank, in order, every one of
    them returned 0, and the closing message counts them. *)
Theorem txt2png_success_means_every_line_rendered
    (opt : Options) (w : World) :
  main opt = (0, w) -> list_fonts opt = false -> dry_run opt = false ->
  exists font content,
    ifstream env (input_path opt) = Some content
    /\ let jobs := jobs_by_position (start_index opt) (getlines content) in
       w_commands w
       = map (job_command cos sin
                (set_im_exe (detect_imagemagick env) opt) font) jobs
       /\ Forall (fun cmd => system env cmd = 0) (w_commands w)
       /\ w_stderr w
          = "Wrote " ++ string_of_Z (Z.of_nat (List.length jobs))
            ++ " PNG files." ++ NL
       /\ w_stdout w = "".
Proof.
  intros H Hlist Hdry.
  destruct (main_to_loop opt 0 w H Hlist (or_introl eq_refl))
    as [font [content [_ [_ [Hfile Hloop]]]]].
  exists font, content. split; [exact Hfile|].
  destruct (Txt2png.line_loop cos sin env _ font (getlines content)
              (start_index opt) 0 world0) as [[code made] w'] eqn:E.
  destruct code as [code|]; cbn [finish] in Hloop.
  - injection Hloop as -> _.
    pose proof (line_loop_result (set_im_exe (detect_imagemagick env) opt)
                  font (getlines content) (start_index opt) 0 world0)
      as [Hc _].
    cbn zeta in Hc. rewrite E in Hc. cbn in Hc.
    destruct Hc as [Hc|[Hc _]]; discriminate.
  - cbn [dry_run set_im_exe] in Hloop. rewrite Hdry in Hloop.
    injection Hloop as <-.
    apply line_loop_completed in E; [|exact Hdry].
    destruct E as [Hall [-> ->]].
    cbn [put_stderr w_commands w_stderr w_stdout world0 app].
    split; [reflexivity|]. split; [rewrite Forall_map; exact Hall|].
    split; [now rewrite Z.add_0_l | reflexivity].
Qed.

(** Extra X9.  In a dry run no render command is run and the status is
    never 7; when the run reaches the input file, every command is printed
    on a line of its own, for all the lines that are not blank, and the
    status is 0 whatever the commands would return. *)
Theorem txt2png_dry_run_runs_nothing (opt : Options) :
  dry_run opt = true -> list_fonts opt = false ->
  w_commands (snd (main opt)) = []
  /\ fst (main opt) <> 7
  /\ forall font content,
       detect_imagemagick env <> "" ->
       resolve_font env (set_im_exe (detect_imagemagick env) opt)
         (collect_fonts env (detect_imagemagick env)) world0 = inl font ->
       ifstream env (input_path opt) = Some content ->
       main opt
       = (0,
          {| w_stdout :=
               concat_str
                 (map (fun j =>
                         job_command cos sin
                           (set_im_exe (detect_imagemagick env) opt) font j
                         ++ NL)
                    (jobs_by_position (start_index opt)
                       (getlines content)));
             w_stderr := "";
             w_commands := [] |}).
Proof.
  intros Hdry Hlist.
  assert (Hloop : forall font content,
            detect_imagemagick env <> "" ->
            resolve_font env (set_im_exe (detect_imagemagick env) opt)
              (collect_fonts env (detect_imagemagick env)) world0
            = inl font ->
            ifstream env (input_path opt) = Some content ->
            main opt
            = (0,
               {| w_stdout :=
                    concat_str
                      (map (fun j =>
                              job_command cos sin
                                (set_im_exe (detect_imagemagick env) opt)
                                font j ++ NL)
                         (jobs_by_position (start_index opt)
                            (getlines content)));
                  w_stderr := "";
                  w_commands := [] |})).
  { intros font content Hne Hfont Hfile.
    rewrite (DriverFacts.txt2png_main_is_loop cos sin env opt
               (detect_imagemagick env) font content)
      by (try reflexivity; assumption).
    rewrite Txt2pngFacts.line_loop_dry_run by exact Hdry.
    cbn [finish dry_run set_im_exe]. rewrite Hdry. reflexivity. }
  assert (Hshape : w_commands (snd (main opt)) = []
                   /\ fst (main opt) <> 7).
  { unfold Txt2png.main.
    cbn [im_exe set_im_exe list_fonts input_path start_index].
    fold (set_im_exe (detect_imagemagick env) opt). rewrite Hlist.
    destruct (String.eqb (detect_imagemagick env) ""); [settle|].
    destruct (resolve_font env _ _ world0) as [font|w'] eqn:Hfont.
    2:{ apply resolve_font_complaint in Hfont as [Hc _]. settle. }
    destruct (ifstream env (input_path opt)) as [content|]; [|settle].
    pose proof (line_loop_result
                  (set_im_exe (detect_imagemagick env) opt) font
                  (getlines content) (start_index opt) 0 world0)
      as [Hcode [Hc _]].
    cbn zeta in Hcode, Hc. specialize (Hc Hdry).
    destruct (Txt2png.line_loop cos sin env _ font (getlines content)
                (start_index opt) 0 world0) as [[c made] w'].
    cbn [fst snd] in Hcode, Hc.
    destruct Hcode as [-> | [_ Hno]];
      [|cbn in Hno; congruence].
    cbn [finish dry_run set_im_exe]. rewrite Hdry. settle. }
  destruct Hshape as [H1 H2]. auto.
Qed.

(** Extra X10.  The font given to the builders.  An index that is 0 or
    negative is passed over and the font name is used.  An index from 1 to
    the number of fonts of a catalogue that is not empty picks the font at
    that place, whatever the font name is.  With a larger index [main]
    returns 5 after a complaint, before the input file is read or a command
    is run. *)
Theorem txt2png_font_by_index (opt : Options) :
  (font_index opt <= 0 ->
   forall fonts w, resolve_font env opt fonts w = inl (font_name opt))
  /\ (forall fonts w,
        fonts <> [] ->
        1 <= font_index opt <= Z.of_nat (List.length fonts) ->
        exists font,
          resolve_font env opt fonts w = inl font
          /\ nth_error fonts (Z.to_nat (font_index opt - 1)) = Some font)
  /\ (detect_imagemagick env <> "" -> list_fonts opt = false ->
      0 < font_index opt ->
      Z.of_nat (List.length (collect_fonts env (detect_imagemagick env)))
      < font_index opt ->
      main opt
      = (5,
         {| w_stdout := "";
            w_stderr :=
              "Invalid --font-index " ++ string_of_Z (font_index opt)
              ++ " (have "
              ++ string_of_Z
                   (Z.of_nat
                      (List.length
                         (collect_fonts env (detect_imagemagick env))))
              ++ " fonts)" ++ NL;
            w_commands := [] |})).
Proof.
  split; [|split].
  - intros H fonts w. unfold resolve_font.
    replace (0 <? font_index opt) with false
      by (symmetry; apply Z.ltb_ge; lia).
    reflexivity.
  - intros fonts w Hne Hrange. unfold resolve_font.
    replace (0 <? font_index opt) with true
      by (symmetry; apply Z.ltb_lt; lia).
    destruct fonts as [|f fonts]; [contradiction|].
    replace (font_index opt <? 1) with false
      by (symmetry; apply Z.ltb_ge; lia).
    replace (Z.of_nat (List.length (f :: fonts)) <? font_index opt)
      with false by (symmetry; apply Z.ltb_ge; lia).
    cbn [orb]. eexists. split; [reflexivity|].
    apply nth_error_nth'. lia.
  - intros Hne Hlist Hpos Hbig. unfold Txt2png.main.
    cbn [im_exe set_im_exe list_fonts].
    apply String.eqb_neq in Hne. rewrite Hne, Hlist.
    unfold resolve_font. cbn [font_index im_exe set_im_exe].
    replace (0 <? font_index opt) with true
      by (symmetry; apply Z.ltb_lt; lia).
    replace (font_index opt <? 1) with false
      by (symmetry; apply Z.ltb_ge; lia).
    assert (Hsame : match collect_fonts env (detect_imagemagick env) with
                    | [] => collect_fonts env (detect_imagemagick env)
                    | _ :: _ => collect_fonts env (detect_imagemagick env)
                    end = collect_fonts env (detect_imagemagick env))
      by (destruct (collect_fonts env (detect_imagemagick env)); reflexivity).
    rewrite Hsame.
    replace (Z.of_nat (List.length
                         (collect_fonts env (detect_imagemagick env)))
             <? font_index opt) with true
      by (symmetry; apply Z.ltb_lt; lia).
    reflexivity.
Qed.

(** Extra X11.  With [--list-fonts], once ImageMagick is found, [main]
    prints the catalogue, one numbered line for each font from 1 on, and
    returns 0, or returns 4 with a complaint when the catalogue is empty; it
    runs no render command and what it does depends neither on the file
    reader nor on the other options. *)
Theorem txt2png_list_fonts_only_lists (opt : Options) :
  list_fonts opt = true -> detect_imagemagick env <> "" ->
  let fonts := collect_fonts env (detect_imagemagick env) in
  (fonts = [] ->
   main opt
   = (4, {| w_stdout := "";
            w_stderr := "No fonts found via ImageMagick or fontconfig."
                        ++ NL;
            w_commands := [] |}))
  /\ (fonts <> [] ->
      main opt
      = (0, {| w_stdout := listing (numbered_from 1 fonts);
               w_stderr := "";
               w_commands := [] |}))
  /\ (forall reader opt',
        list_fonts opt' = true ->
        Txt2png.main cos sin
          {| system := system env; popen := popen env; ifstream := reader |}
          opt'
        = main opt).
Proof.
  intros Hlist Hne fonts.
  assert (Hprint : forall l i w,
            print_fonts l i w
            = {| w_stdout := w_stdout w ++ listing (numbered_from (i + 1) l);
                 w_stderr := w_stderr w; w_commands := w_commands w |}).
  { induction l as [|f l IH]; intros i w.
    - cbn. destruct w; cbn. now rewrite append_nil_r.
    - cbn [print_fonts]. rewrite IH, numbered_from_cons.
      unfold listing. cbn [map concat_str fst snd put_stdout w_stdout
                             w_stderr w_commands].
      assoc_str. reflexivity. }
  split; [|split].
  - intros Hnil. unfold Txt2png.main. cbn [im_exe set_im_exe list_fonts].
    apply String.eqb_neq in Hne. rewrite Hne, Hlist. fold fonts.
    rewrite Hnil. reflexivity.
  - intros Hfonts. unfold Txt2png.main. cbn [im_exe set_im_exe list_fonts].
    apply String.eqb_neq in Hne. rewrite Hne, Hlist. fold fonts.
    destruct fonts as [|f l] eqn:E; [contradiction|].
    rewrite Hprint. reflexivity.
  - intros reader opt' Hlist'. unfold Txt2png.main.
    cbn [im_exe set_im_exe list_fonts].
    unfold detect_imagemagick, collect_fonts, run_and_capture.
    cbn [system popen]. rewrite Hlist, Hlist'. reflexivity.
Qed.

End Run.

Lemma txt2png_success_means_every_line_rendered_witness :
  exists font content,
    ifstream MoreSamples.all_succeed (input_path Samples.in_out)
    = Some content
    /\ let jobs :=
         jobs_by_position (start_index Samples.in_out) (getlines content) in
       w_commands
         (snd (Txt2png.main Samples.cos_at_0 Samples.sin_at_0
                 MoreSamples.all_succeed Samples.in_out))
       = map (job_command Samples.cos_at_0 Samples.sin_at_0
                (set_im_exe (detect_imagemagick MoreSamples.all_succeed)
                   Samples.in_out) font) jobs
       /\ Forall (fun cmd => system MoreSamples.all_succeed cmd = 0)
            (w_commands
               (snd (Txt2png.main Samples.cos_at_0 Samples.sin_at_0
                       MoreSamples.all_succeed Samples.in_out)))
       /\ w_stderr
            (snd (Txt2png.main Samples.cos_at_0 Samples.sin_at_0
                    MoreSamples.all_succeed Samples.in_out))
          = "Wrote " ++ string_of_Z (Z.of_nat (List.length jobs))
            ++ " PNG files." ++ NL
       /\ w_stdout
            (snd (Txt2png.main Samples.cos_at_0 Samples.sin_at_0
                    MoreSamples.all_succeed Samples.in_out)) = "".
Proof.
  apply (txt2png_success_means_every_line_rendered
           Samples.cos_at_0 Samples.sin_at_0 MoreSamples.all_succeed
           Samples.in_out).
  - vm_compute. reflexivity.
  - reflexivity.
  - reflexivity.
Defined.

Lemma txt2png_dry_run_runs_nothing_witness :
  w_commands
    (snd (Txt2png.main Samples.cos_at_0 Samples.sin_at_0
            Samples.second_fails MoreSamples.in_out_dry)) = []
  /\ fst (Txt2png.main Samples.cos_at_0 Samples.sin_at_0
            Samples.second_fails MoreSamples.in_out_dry) <> 7.
Proof.
  destruct (txt2png_dry_run_runs_nothing
              Samples.cos_at_0 Samples.sin_at_0 Samples.second_fails
              MoreSamples.in_out_dry eq_refl eq_refl) as [H1 [H2 _]].
  split; [exact H1 | exact H2].
Defined.

Lemma txt2png_font_by_index_witness :
  (exists font,
     resolve_font MoreSamples.two_fonts MoreSamples.in_out_font_2
       ["Courier"; "Helvetica"] world0 = inl font
     /\ nth_error ["Courier"; "Helvetica"]
          (Z.to_nat (font_index MoreSamples.in_out_font_2 - 1)) = Some font)
  /\ fst (Txt2png.main Samples.cos_at_0 Samples.sin_at_0
            MoreSamples.two_fonts MoreSamples.in_out_font_3) = 5.
Proof.
  split.
  - apply (proj1 (proj2 (txt2png_font_by_index
                           Samples.cos_at_0 Samples.sin_at_0
                           MoreSamples.two_fonts MoreSamples.in_out_font_2))).
    + discriminate.
    + cbn. lia.
  - rewrite (proj2 (proj2 (txt2png_font_by_index
                             Samples.cos_at_0 Samples.sin_at_0
                             MoreSamples.two_fonts
                             MoreSamples.in_out_font_3))).
    + reflexivity.
    + vm_compute. discriminate.
    + reflexivity.
    + reflexivity.
    + vm_compute. reflexivity.
Defined.

Lemma txt2png_list_fonts_only_lists_witness :
  Txt2png.main Samples.cos_at_0 Samples.sin_at_0 MoreSamples.two_fonts
    Samples.only_list_fonts
  = (0, {| w_stdout :=
             listing
               (numbered_from 1
                  (collect_fonts MoreSamples.two_fonts
                     (detect_imagemagick MoreSamples.two_fonts)));
           w_stderr := "";
           w_commands := [] |}).
Proof.
  apply (proj1 (proj2 (txt2png_list_fonts_only_lists
                         Samples.cos_at_0 Samples.sin_at_0
                         MoreSamples.two_fonts Samples.only_list_fonts
                         eq_refl ltac:(vm_compute; discriminate)))).
  vm_compute. discriminate.
Defined.

End Txt2pngMore.

(** ** Output files of a run *)

Module FilesMore.
Import Cxx Spec Checks StringFacts JobFacts NameFacts.

Lemma position_numbers_from (start : Z) (lines : list string) (n : Z) :
  In n (map fst (jobs_by_position start lines)) -> start <= n.
Proof.
  intros H. apply position_numbers in H as [i [l [_ [_ ->]]]]. lia.
Qed.

Lemma position_numbers_nodup (start : Z) (lines : list string) :
  NoDup (map fst (jobs_by_position start lines)).
Proof.
  revert start. induction lines as [|l lines IH]; intros start.
  - constructor.
  - rewrite jobs_by_position_cons. destruct (all_space l); [apply IH|].
    cbn [map fst]. constructor; [|apply IH].
    intros H. apply position_numbers_from in H. lia.
Qed.

Lemma consecutive_numbers_nodup (start : Z) (lines : list string) :
  NoDup (map fst (jobs_consecutive start lines)).
Proof.
  revert start. induction lines as [|l lines IH]; intros start.
  - constructor.
  - rewrite jobs_consecutive_cons. destruct (String.eqb l ""); [apply IH|].
    cbn [map fst]. constructor; [|apply IH].
    intros H. apply consecutive_numbers in H. lia.
Qed.

Lemma names_nodup (prefix : string) (jobs : list (Z * string)) :
  NoDup (map fst jobs) ->
  NoDup (map (fun j => output_name prefix (fst j)) jobs).
Proof.
  induction jobs as [|j jobs IH]; intros H; [constructor|].
  cbn [map] in *. inversion H as [|? ? Hnot Hrest]; subst.
  constructor; [|now apply IH].
  intros Hin. apply Hnot. apply in_map_iff in Hin as [j' [Hname Hj']].
  apply output_name_inj in Hname. rewrite <- Hname.
  now apply in_map.
Qed.

Lemma render_adds (b : Text2png.Backend) (text filename : string)
    (opts : Text2png.TextOptions) (w : Text2png.World) :
  Text2png.w_files (Text2png.render_text_to_png b text filename opts w)
  = (Text2png.w_files w
     ++ Text2png.w_files
          (Text2png.render_text_to_png b text filename opts
             Text2png.world0))%list
  /\ (Text2png.w_files
        (Text2png.render_text_to_png b text filename opts Text2png.world0)
      = []
      \/ exists s,
           Text2png.w_files
             (Text2png.render_text_to_png b text filename opts
                Text2png.world0) = [(filename, s)]).
Proof.
  unfold Text2png.render_text_to_png.
  destruct (Text2png.FT_Init_FreeType b); cbn [negb];
    [|cbn; rewrite app_nil_r; auto].
  destruct (Text2png.FcFontMatch_file b (Text2png.font_name opts));
    [|cbn; rewrite app_nil_r; auto].
  destruct (Text2png.FT_New_Face b s); cbn [negb];
    [|cbn; rewrite app_nil_r; auto].
  destruct (Text2png.cairo_surface_write_to_png b _ filename);
    [cbn; rewrite app_nil_r; auto|].
  cbn. split; [reflexivity|]. right. eexists. reflexivity.
Qed.

Lemma line_loop_files (b : Text2png.Backend) (opts : Text2png.TextOptions)
    (lines : list string) (n : Z) (w : Text2png.World) :
  Text2png.w_files (Text2png.line_loop b opts lines n w)
  = (Text2png.w_files w
     ++ flat_map (added b opts (Text2png.output_prefix opts))
          (jobs_consecutive n lines))%list.
Proof.
  revert n w. induction lines as [|line rest IH]; intros n w.
  - cbn. now rewrite app_nil_r.
  - rewrite jobs_consecutive_cons. cbn [Text2png.line_loop].
    destruct (String.eqb line ""); cbn [negb]; [apply IH|].
    rewrite IH. cbn [Text2png.put_stdout Text2png.w_files flat_map].
    rewrite (proj1 (render_adds b line _ opts w)), <- app_assoc.
    reflexivity.
Qed.

Lemma added_names (b : Text2png.Backend) (opts : Text2png.TextOptions)
    (prefix : string) (jobs : list (Z * string)) :
  map fst (flat_map (added b opts prefix) jobs)
  = map (fun j => output_name prefix (fst j))
      (filter (fun j => match added b opts prefix j with
                        | [] => false
                        | _ => true
                        end) jobs).
Proof.
  induction jobs as [|j jobs IH]; [reflexivity|].
  cbn [flat_map filter]. rewrite map_app, IH.
  destruct (proj2 (render_adds b (snd j) (output_name prefix (fst j)) opts
                     Text2png.world0)) as [H|[s H]];
    unfold added at 1 3; rewrite H; reflexivity.
Qed.

Lemma map_filter_nodup (f : Z * string -> string) (p : Z * string -> bool)
    (l : list (Z * string)) :
  NoDup (map f l) -> NoDup (map f (filter p l)).
Proof.
  induction l as [|x l IH]; intros H; [constructor|].
  cbn [map filter] in *. inversion H as [|? ? Hnot Hrest]; subst.
  destruct (p x); [|now apply IH].
  cbn [map]. constructor; [|now apply IH].
  intros Hin. apply Hnot. apply in_map_iff in Hin as [y [Hy Hin]].
  apply filter_In in Hin as [Hin _]. rewrite <- Hy. now apply in_map.
Qed.

(** Extra X12.  Within one run no output file name is used twice, with
    either way of numbering; in text2png the files written by the loop have
    distinct names, each the name of a non-empty line, so no file of the
    run is written over by a later line. *)
Theorem output_names_are_unique :
  (forall prefix start lines,
     NoDup (map (fun j => output_name prefix (fst j))
              (jobs_by_position start lines)))
  /\ (forall prefix start lines,
        NoDup (map (fun j => output_name prefix (fst j))
                 (jobs_consecutive start lines)))
  /\ (forall b opts lines n,
        NoDup (map fst
                 (Text2png.w_files
                    (Text2png.line_loop b opts lines n Text2png.world0)))
        /\ forall name,
             In name
               (map fst
                  (Text2png.w_files
                     (Text2png.line_loop b opts lines n Text2png.world0)))
             -> exists j,
                  In j (jobs_consecutive n lines)
                  /\ name
                     = output_name (Text2png.output_prefix opts) (fst j)).
Proof.
  split; [|split].
  - intros. apply names_nodup, position_numbers_nodup.
  - intros. apply names_nodup, consecutive_numbers_nodup.
  - intros b opts lines n. rewrite line_loop_files. cbn [Text2png.w_files
      Text2png.world0 app]. rewrite added_names. split.
    + apply map_filter_nodup, names_nodup, consecutive_numbers_nodup.
    + intros name H. apply in_map_iff in H as [j [Hj Hin]].
      apply filter_In in Hin as [Hin _]. exists j. auto.
Qed.

(** Extra X13.  When FreeType starts, the font of the options is found and
    loads, and every PNG can be written, text2png writes exactly one file
    for each non-empty line, in order, named with consecutive numbers, and
    each on a surface of the size computed from the extents of its line. *)
Theorem text2png_one_file_per_line (b : Text2png.Backend)
    (opts : Text2png.TextOptions) (font_file : string)
    (lines : list string) (n : Z) :
  Text2png.FT_Init_FreeType b = true ->
  Text2png.FcFontMatch_file b (Text2png.font_name opts) = Some font_file ->
  Text2png.FT_New_Face b font_file = true ->
  (forall s name, Text2png.cairo_surface_write_to_png b s name = None) ->
  map (fun f => (fst f, Text2png.surface_width (snd f),
                 Text2png.surface_height (snd f)))
    (Text2png.w_files (Text2png.line_loop b opts lines n Text2png.world0))
  = map (fun j =>
           let e := Text2png.cairo_text_extents b font_file
                      (Text2png.font_size opts) (snd j) in
           (output_name (Text2png.output_prefix opts) (fst j),
            Text2png.canvas_width e opts, Text2png.canvas_height e opts))
      (jobs_consecutive n lines).
Proof.
  intros Hft Hfont Hface Hwrite. rewrite line_loop_files.
  cbn [Text2png.w_files Text2png.world0 app].
  induction (jobs_consecutive n lines) as [|j jobs IH]; [reflexivity|].
  cbn [flat_map map]. rewrite map_app, IH. unfold added at 1.
  unfold Text2png.render_text_to_png.
  rewrite Hft, Hfont, Hface, Hwrite. reflexivity.
Qed.

Lemma text2png_one_file_per_line_witness :
  map (fun f => (fst f, Text2png.surface_width (snd f),
                 Text2png.surface_height (snd f)))
    (Text2png.w_files
       (Text2png.line_loop Samples.all_fine Text2png.default_options
          ["one"; ""; "two"] 1 Text2png.world0))
  = map (fun j =>
           let e := Text2png.cairo_text_extents Samples.all_fine
                      "/fonts/DejaVuSans.ttf"
                      (Text2png.font_size Text2png.default_options)
                      (snd j) in
           (output_name (Text2png.output_prefix Text2png.default_options)
              (fst j),
            Text2png.canvas_width e Text2png.default_options,
            Text2png.canvas_height e Text2png.default_options))
      (jobs_consecutive 1 ["one"; ""; "two"]).
Proof.
  apply (text2png_one_file_per_line Samples.all_fine
           Text2png.default_options "/fonts/DejaVuSans.ttf");
    reflexivity.
Defined.

End FilesMore.

(** ** Rendering in text2png, once more *)

Module RenderMore.
Import Cxx Text2png Spec.

(** Extra X14.  One call of [render_text_to_png] either writes one file,
    under the name it was given, and no diagnostic, or writes no file and
    one line of diagnostic on the error stream; it never prints on the
    standard output and never touches the files written before. *)
Theorem render_writes_a_file_or_a_diagnostic
    (b : Backend) (text filename : string) (opts : TextOptions) (w : World) :
  let w' := render_text_to_png b text filename opts w in
  w_stdout w' = w_stdout w
  /\ ((exists s, w_files w' = (w_files w ++ [(filename, s)])%list
                 /\ w_stderr w' = w_stderr w)
      \/ (w_files w' = w_files w
          /\ exists message,
               message <> ""
               /\ w_stderr w' = w_stderr w ++ message ++ NL)).
Proof.
  unfold render_text_to_png.
  destruct (FT_Init_FreeType b); cbn [negb].
  2:{ cbn [put_stderr w_stdout w_stderr w_files].
      split; [reflexivity|]. right. split; [reflexivity|].
      exists "Could not init FreeType". split; [discriminate | reflexivity]. }
  destruct (FcFontMatch_file b (font_name opts)) as [font_file|].
  2:{ cbn [put_stderr w_stdout w_stderr w_files].
      split; [reflexivity|]. right. split; [reflexivity|].
      exists ("Could not find font: " ++ font_name opts).
      split; [discriminate|]. now rewrite StringFacts.append_assoc. }
  destruct (FT_New_Face b font_file); cbn [negb].
  2:{ cbn [put_stderr w_stdout w_stderr w_files].
      split; [reflexivity|]. right. split; [reflexivity|].
      exists ("Could not load font file: " ++ font_file).
      split; [discriminate|]. now rewrite StringFacts.append_assoc. }
  destruct (cairo_surface_write_to_png b _ filename) as [status|];
    cbn [put_stderr wrote_file w_stdout w_stderr w_files].
  - split; [reflexivity|]. right. split; [reflexivity|].
    exists ("Error writing PNG: " ++ status).
    split; [discriminate|]. now rewrite StringFacts.append_assoc.
  - split; [reflexivity|]. left. eexists. split; reflexivity.
Qed.

(** Extra X15.  What is drawn on the surface of a file that is written.
    The drawing starts by painting the whole surface, with the background
    colour when its alpha is positive and with transparent black otherwise.
    It ends by filling the path of the text with the text colour.  With a
    positive outline width the path is stroked once, in the outline colour
    and with that width, after the path is made and before the fill; with
    an outline width of 0 or less nothing is stroked. *)
Theorem drawing_of_a_written_file
    (b : Backend) (text filename : string) (opts : TextOptions)
    (s : Surface) :
  w_files (render_text_to_png b text filename opts world0)
  = [(filename, s)] ->
  (exists rest,
     surface_ops s
     = (if Qltb 0 (bg_a opts)
        then cairo_set_source_rgba (bg_r opts) (bg_g opts) (bg_b opts)
               (bg_a opts)
        else cairo_set_source_rgba 0 0 0 0) :: cairo_paint :: rest)
  /\ (exists before,
        surface_ops s
        = (before
           ++ [cairo_set_source_rgb (text_r opts) (text_g opts)
                 (text_b opts);
               cairo_fill])%list)
  /\ (0 < outline_width opts ->
      exists before,
        surface_ops s
        = (before
           ++ [cairo_text_path text;
               cairo_set_source_rgb (outline_r opts) (outline_g opts)
                 (outline_b opts);
               cairo_set_line_width (outline_width opts);
               cairo_stroke_preserve;
               cairo_set_source_rgb (text_r opts) (text_g opts)
                 (text_b opts);
               cairo_fill])%list)
  /\ (outline_width opts <= 0 ->
      ~ In cairo_stroke_preserve (surface_ops s)
      /\ forall width, ~ In (cairo_set_line_width width) (surface_ops s)).
Proof.
  unfold render_text_to_png.
  destruct (FT_Init_FreeType b); cbn [negb]; [|discriminate].
  destruct (FcFontMatch_file b (font_name opts)) as [font_file|];
    [|discriminate].
  destruct (FT_New_Face b font_file); cbn [negb]; [|discriminate].
  destruct (cairo_surface_write_to_png b _ filename); [discriminate|].
  cbn [wrote_file w_files world0 app]. intros H. injection H as <-.
  cbn [surface_ops].
  split; [|split; [|split]].
  - destruct (Qltb 0 (bg_a opts)); eexists; reflexivity.
  - destruct (Qltb 0 (bg_a opts)), (0 <? outline_width opts);
      cbn [app];
      match goal with
      | |- exists before, ?l = _ =>
          exists (removelast (removelast l)); reflexivity
      end.
  - intros Hpos. apply Z.ltb_lt in Hpos. rewrite Hpos.
    destruct (Qltb 0 (bg_a opts)); cbn [app];
      match goal with
      | |- exists before, ?l = _ =>
          exists (firstn 6 l); reflexivity
      end.
  - intros Hle.
    replace (0 <? outline_width opts) with false
      by (symmetry; apply Z.ltb_ge; lia).
    destruct (Qltb 0 (bg_a opts)); cbn [app In]; split;
      try intros width; intuition discriminate.
Qed.

Lemma drawing_of_a_written_file_witness :
  exists before,
    surface_ops
      {| surface_width := canvas_width Samples.sample_extents default_options;
         surface_height :=
           canvas_height Samples.sample_extents default_options;
         surface_ops :=
           [cairo_set_source_rgba 0 0 0 0; cairo_paint;
            cairo_set_font_face "/fonts/DejaVuSans.ttf";
            cairo_set_font_size 48;
            cairo_set_font_options_default_antialias;
            cairo_move_to (x_pos Samples.sample_extents default_options)
              (y_pos Samples.sample_extents default_options);
            cairo_text_path "one";
            cairo_set_source_rgb 0 0 0; cairo_set_line_width 2;
            cairo_stroke_preserve;
            cairo_set_source_rgb 1 1 1; cairo_fill] |}
    = (before
       ++ [cairo_set_source_rgb (text_r default_options)
             (text_g default_options) (text_b default_options);
           cairo_fill])%list.
Proof.
  apply (proj1 (proj2 (drawing_of_a_written_file Samples.all_fine "one"
                         "out1.png" default_options _ eq_refl))).
Defined.

End RenderMore.

(** ** Canvas sizing and colours, once more *)

Module CanvasMore.
Import Cxx Text2png Spec CanvasFacts ColorFacts.

(** Extra X16.  What the size of the canvas covers, with the additions
    rounded as the program rounds them.  The font size, the padding and the
    outline width are [int]s that are not negative, twice the padding and
    twice the outline width are [int]s too, the ink extent is not negative
    and the content fits an [int].  Then the canvas is less than one pixel
    short of the exact content (bearing, ink extent, padding and outline on
    both sides) in each direction, the width is at least 1.5 times the font
    size and the height at least the font size.  For a font size of 1 or
    more the canvas is at least 2 pixels wide and 1 pixel high. *)
Theorem canvas_covers_content_and_font_size
    (e : cairo_text_extents_t) (opts : TextOptions) :
  (0 <= font_size opts <= 2147483647)%Z ->
  (0 <= padding opts <= 1073741823)%Z ->
  (0 <= outline_width opts <= 1073741823)%Z ->
  0 <= width e -> 0 <= height e ->
  Qabs (x_bearing e) + width e <= 2147483647 ->
  Qabs (y_bearing e) + height e <= 2147483647 ->
  (Qabs (x_bearing e) + width e + 2 * inject_Z (padding opts)
   + 2 * inject_Z (outline_width opts) - 1 < inject_Z (canvas_width e opts)
   /\ (3 # 2) * inject_Z (font_size opts) <= inject_Z (canvas_width e opts)
   /\ Qabs (y_bearing e) + height e + 2 * inject_Z (padding opts)
      + 2 * inject_Z (outline_width opts) - 1
      < inject_Z (canvas_height e opts)
   /\ inject_Z (font_size opts) <= inject_Z (canvas_height e opts))
  /\ ((1 <= font_size opts)%Z ->
      (2 <= canvas_width e opts)%Z /\ (1 <= canvas_height e opts)%Z).
Proof.
  intros Hfs Hp Ht Hw Hh Hcw Hch.
  destruct (canvas_width_bounds e opts) as [Hw1 Hw2]; [lia|].
  destruct (canvas_height_bounds e opts Hfs) as [Hh1 Hh2].
  pose proof (rounded_content_covers (x_bearing e) (width e) (padding opts)
                (outline_width opts) Hp Ht Hw Hcw) as Hcx.
  pose proof (rounded_content_covers (y_bearing e) (height e) (padding opts)
                (outline_width opts) Hp Ht Hh Hch) as Hcy.
  fold (content_width e opts) in Hcx. fold (content_height e opts) in Hcy.
  split.
  - split; [lra|]. split; [exact Hw2|]. split; [lra | exact Hh2].
  - intros H1. split.
    + unfold Qle, Qmult, inject_Z in Hw2. cbn [Qnum Qden Pos.mul] in Hw2.
      lia.
    + rewrite <- Zle_Qle in Hh2. lia.
Qed.

Lemma canvas_covers_content_and_font_size_witness :
  (Qabs 2 + 40 + 2 * inject_Z 20 + 2 * inject_Z 2 - 1
   < inject_Z (canvas_width Samples.sample_extents default_options)
   /\ (3 # 2) * inject_Z 48
      <= inject_Z (canvas_width Samples.sample_extents default_options)
   /\ Qabs (-55) + 55 + 2 * inject_Z 20 + 2 * inject_Z 2 - 1
      < inject_Z (canvas_height Samples.sample_extents default_options)
   /\ inject_Z 48
      <= inject_Z (canvas_height Samples.sample_extents default_options))
  /\ ((1 <= 48)%Z ->
      (2 <= canvas_width Samples.sample_extents default_options)%Z
      /\ (1 <= canvas_height Samples.sample_extents default_options)%Z).
Proof.
  apply (canvas_covers_content_and_font_size Samples.sample_extents
           default_options); cbn; try lia; discriminate.
Defined.

Lemma channel_in_unit (r : Z) :
  (0 <= r <= 255)%Z -> 0 <= channel_of r <= 1.
Proof.
  intros H. unfold channel_of, Qle, Qdiv, Qmult, Qinv. cbn. lia.
Qed.

(** Extra X17.  For a value of six hexadecimal digits the three channels
    stored by [--text-color], [--outline-color] and [--bg-color] lie between
    0 and 1, and the alpha of the background is exactly 1; for a value of
    eight digits the four channels of the background lie between 0 and
    1. *)
Theorem parsed_channels_are_between_0_and_1
    (b : Backend) (value : string) (opts : TextOptions) (w : World) :
  sscanf_conforms b ->
  (forall r g bl,
     hex_pairs (strip_hash value) = Some [r; g; bl] ->
     let t := fst (text_color_option b value opts w) in
     let o := fst (outline_color_option b value opts w) in
     (0 <= text_r t <= 1 /\ 0 <= text_g t <= 1 /\ 0 <= text_b t <= 1)
     /\ (0 <= outline_r o <= 1 /\ 0 <= outline_g o <= 1
         /\ 0 <= outline_b o <= 1)
     /\ exists g' w',
          bg_color_option b value opts w = Normal (g', w')
          /\ 0 <= bg_r g' <= 1 /\ 0 <= bg_g g' <= 1 /\ 0 <= bg_b g' <= 1
          /\ bg_a g' == 1)
  /\ (forall r g bl a,
        hex_pairs (strip_hash value) = Some [r; g; bl; a] ->
        exists g' w',
          bg_color_option b value opts w = Normal (g', w')
          /\ 0 <= bg_r g' <= 1 /\ 0 <= bg_g g' <= 1 /\ 0 <= bg_b g' <= 1
          /\ 0 <= bg_a g' <= 1).
Proof.
  intros Hb. split.
  - intros r g bl H.
    destruct (six_digits_scanned b _ r g bl Hb H)
      as [E6 [E8 [Hs [Hr [Hg Hbl]]]]].
    unfold text_color_option, outline_color_option, bg_color_option.
    rewrite E6, E8, Hs. cbn [orb fst]. cbn [text_r text_g text_b
      outline_r outline_g outline_b set_text_rgb set_outline_rgb].
    split; [auto using channel_in_unit|].
    split; [auto using channel_in_unit|].
    eexists. eexists. split; [reflexivity|].
    cbn [bg_r bg_g bg_b bg_a set_bg_rgba].
    repeat split; try (apply channel_in_unit; assumption).
  - intros r g bl a H.
    destruct (eight_digits_scanned b _ r g bl a Hb H)
      as [E6 [E8 [Hs [Hr [Hg [Hbl Ha]]]]]].
    unfold bg_color_option. rewrite E6, E8, Hs. cbn [orb].
    eexists. eexists. split; [reflexivity|].
    cbn [bg_r bg_g bg_b bg_a set_bg_rgba].
    repeat split; try (apply channel_in_unit; assumption).
Qed.

Lemma parsed_channels_are_between_0_and_1_witness :
  exists g' w',
    bg_color_option Samples.all_fine "#FF000080" default_options world0
    = Normal (g', w')
    /\ 0 <= bg_r g' <= 1 /\ 0 <= bg_g g' <= 1 /\ 0 <= bg_b g' <= 1
    /\ 0 <= bg_a g' <= 1.
Proof.
  apply (proj2 (parsed_channels_are_between_0_and_1 Samples.all_fine
                  "#FF000080" default_options world0 all_fine_conforms)
           255 0 0 128)%Z.
  reflexivity.
Defined.

End CanvasMore.

(** ** The option loop of text2png, once more *)

Module OptionsMore.
Import Cxx Text2png Spec Checks.

Lemma eqb_not_in (a f : string) (l : list string) :
  ~ In a l -> In f l -> String.eqb a f = false.
Proof.
  intros Hn Hf. apply String.eqb_neq. intros ->. contradiction.
Qed.

Lemma eqb_not_member (a f : string) (args : list string) :
  In a args -> ~ In f args -> String.eqb a f = false.
Proof.
  intros Ha Hf. apply String.eqb_neq. intros ->. contradiction.
Qed.

Lemma text_color_keeps (b : Backend) (value : string) (opts : TextOptions)
    (w : World) :
  output_prefix (fst (text_color_option b value opts w)) = output_prefix opts
  /\ w_files (snd (text_color_option b value opts w)) = w_files w.
Proof.
  unfold text_color_option.
  destruct (String.length (strip_hash value) =? 6)%nat; [|auto].
  destruct (sscanf_x2 b 3 (strip_hash value)) as [|r [|g [|bl [|x l]]]];
    auto.
  cbn [fst snd set_text_rgb output_prefix].
  destruct (verbose opts); auto.
Qed.

Lemma outline_color_keeps (b : Backend) (value : string)
    (opts : TextOptions) (w : World) :
  output_prefix (fst (outline_color_option b value opts w))
  = output_prefix opts
  /\ w_files (snd (outline_color_option b value opts w)) = w_files w.
Proof.
  unfold outline_color_option.
  destruct (String.length (strip_hash value) =? 6)%nat; [|auto].
  destruct (sscanf_x2 b 3 (strip_hash value)) as [|r [|g [|bl [|x l]]]];
    auto.
  cbn [fst snd set_outline_rgb output_prefix].
  destruct (verbose opts); auto.
Qed.

Lemma unknown_arguments_skipped (b : Backend) (args : list string) :
  (forall a, In a args -> ~ In a text2png_flags) ->
  forall opts w, parse_options b args opts w = Normal (opts, w).
Proof.
  induction args as [|a rest IH]; intros Hun opts w; [reflexivity|].
  assert (Ha : ~ In a text2png_flags) by (apply Hun; now left).
  assert (Hrest : forall x, In x rest -> ~ In x text2png_flags)
    by (intros x Hx; apply Hun; now right).
  assert (E : forall f, In f text2png_flags -> String.eqb a f = false)
    by (intros f Hf; now apply (eqb_not_in a f text2png_flags)).
  cbn [parse_options].
  rewrite (E "-v"), (E "--verbose") by (cbn; tauto). cbn [orb].
  destruct rest as [|v rest']; [reflexivity|].
  rewrite (E "--font-name"), (E "--font-size"), (E "--text-color"),
    (E "--outline-color"), (E "--bg-color"), (E "--outline-width"),
    (E "--padding") by (cbn; tauto).
  now apply IH.
Qed.

Lemma options_never_abort (b : Backend) (n : nat) :
  forall args, (List.length args <= n)%nat ->
  ~ In "--font-size" args -> ~ In "--outline-width" args ->
  ~ In "--padding" args -> ~ In "--bg-color" args ->
  forall opts w,
  exists o w',
    parse_options b args opts w = Normal (o, w')
    /\ output_prefix o = output_prefix opts /\ w_files w' = w_files w.
Proof.
  induction n as [|n IH]; intros args Hlen H1 H2 H3 H4 opts w.
  { destruct args; [|cbn in Hlen; lia]. exists opts, w. auto. }
  destruct args as [|a rest]; [exists opts, w; auto|].
  cbn [List.length] in Hlen.
  assert (Hrest : forall f, ~ In f (a :: rest) -> ~ In f rest)
    by (intros f Hf Hin; apply Hf; now right).
  assert (Hskip : forall o' w0,
            output_prefix o' = output_prefix opts ->
            w_files w0 = w_files w ->
            exists o w',
              parse_options b rest o' w0 = Normal (o, w')
              /\ output_prefix o = output_prefix opts
              /\ w_files w' = w_files w).
  { intros o' w0 Ho Hw.
    destruct (IH rest ltac:(lia) (Hrest _ H1) (Hrest _ H2) (Hrest _ H3)
                (Hrest _ H4) o' w0) as [o [w' [Hp [Hpre Hf]]]].
    exists o, w'. split; [exact Hp|]. split; congruence. }
  assert (Hflag :
            exists o w',
              (if (String.eqb a "-v" || String.eqb a "--verbose")%bool
               then parse_options b rest (set_verbose true opts)
                      (put_stdout ("Verbose mode enabled" ++ NL) w)
               else parse_options b rest opts w) = Normal (o, w')
              /\ output_prefix o = output_prefix opts
              /\ w_files w' = w_files w).
  { destruct (String.eqb a "-v" || String.eqb a "--verbose")%bool;
      apply Hskip; reflexivity. }
  cbn [parse_options]. destruct rest as [|v rest']; [exact Hflag|].
  cbn [List.length] in Hlen.
  assert (Hrest' : forall f, ~ In f (a :: v :: rest') -> ~ In f rest')
    by (intros f Hf Hin; apply Hf; right; now right).
  assert (Hnext : forall o' w0,
            output_prefix o' = output_prefix opts ->
            w_files w0 = w_files w ->
            exists o w',
              parse_options b rest' o' w0 = Normal (o, w')
              /\ output_prefix o = output_prefix opts
              /\ w_files w' = w_files w).
  { intros o' w0 Ho Hw.
    destruct (IH rest' ltac:(lia) (Hrest' _ H1) (Hrest' _ H2)
                (Hrest' _ H3) (Hrest' _ H4) o' w0)
      as [o [w' [Hp [Hpre Hf]]]].
    exists o, w'. split; [exact Hp|]. split; congruence. }
  assert (Ea : forall f, ~ In f (a :: v :: rest') -> String.eqb a f = false)
    by (intros f Hf; apply (eqb_not_member a f (a :: v :: rest'));
        [now left | exact Hf]).
  rewrite (Ea _ H1), (Ea _ H2), (Ea _ H3), (Ea _ H4).
  destruct (String.eqb a "--font-name").
  { apply Hnext; [reflexivity|]. destruct (verbose opts); reflexivity. }
  destruct (String.eqb a "--text-color").
  { destruct (text_color_keeps b v opts w) as [Ho Hw].
    destruct (text_color_option b v opts w) as [o' w0].
    now apply Hnext. }
  destruct (String.eqb a "--outline-color").
  { destruct (outline_color_keeps b v opts w) as [Ho Hw].
    destruct (outline_color_option b v opts w) as [o' w0].
    now apply Hnext. }
  exact Hflag.
Qed.

(** Extra X18.  The option loop of text2png passes over what it does not
    know: arguments none of which is one of its options leave the options
    and the world as they are, with no message.  It can only end without a
    result through [--font-size], [--outline-width], [--padding] (when
    [std::stoi] throws) or [--bg-color]: arguments without these four always
    give options, with the output prefix untouched and no file written. *)
Theorem text2png_options_skip_the_unknown (b : Backend) (args : list string)
    (opts : TextOptions) (w : World) :
  ((forall a, In a args -> ~ In a text2png_flags) ->
   parse_options b args opts w = Normal (opts, w))
  /\ (~ In "--font-size" args -> ~ In "--outline-width" args ->
      ~ In "--padding" args -> ~ In "--bg-color" args ->
      exists o w',
        parse_options b args opts w = Normal (o, w')
        /\ output_prefix o = output_prefix opts
        /\ w_files w' = w_files w).
Proof.
  split.
  - intros H. now apply unknown_arguments_skipped.
  - intros H1 H2 H3 H4.
    now apply (options_never_abort b (List.length args) args (le_n _)).
Qed.

Lemma text2png_options_skip_the_unknown_witness :
  parse_options Samples.all_fine ["--size"; "12"; "--dry-run"]
    default_options world0
  = Normal (default_options, world0)
  /\ exists o w',
       parse_options Samples.all_fine ["--font-name"; "--bogus"; "-v"]
         default_options world0 = Normal (o, w')
       /\ output_prefix o = output_prefix default_options
       /\ w_files w' = w_files world0.
Proof.
  split.
  - apply (proj1 (text2png_options_skip_the_unknown Samples.all_fine
                    ["--size"; "12"; "--dry-run"] default_options world0)).
    intros a [<-|[<-|[<-|[]]]]; cbn; intuition discriminate.
  - apply (proj2 (text2png_options_skip_the_unknown Samples.all_fine
                    ["--font-name"; "--bogus"; "-v"] default_options
                    world0));
      cbn; intuition discriminate.
Defined.

End OptionsMore.

(** ** The command line of txt2png *)

Module CliMore.
Import Cxx Txt2png Txt2pngCli Spec Checks.

#[local] Ltac need_value rest H :=
  let v := fresh "v" in
  let rest' := fresh "rest'" in
  destruct rest as [|v rest']; [discriminate H|].

#[local] Ltac need_number stoi v H :=
  let n := fresh "n" in
  destruct (stoi v) as [n|]; [|discriminate H].

Lemma parse_true (stoi : string -> option Z) (argv0 : string) (n : nat) :
  forall args, (List.length args <= n)%nat ->
  forall opt w opt' w',
  parse_args stoi argv0 args opt w = Parsed true opt' w' ->
  w' = w
  /\ (input_path opt' <> "" \/ list_fonts opt' = true)
  /\ im_exe opt' = im_exe opt
  /\ accepted args.
Proof.
  induction n as [|n IH]; intros args Hlen opt w opt' w' H.
  { destruct args; [|cbn in Hlen; lia]. cbn [parse_args] in H.
    destruct (String.eqb (input_path opt) "") eqn:E.
    - destruct (list_fonts opt) eqn:El; cbn [negb andb] in H;
        [|discriminate]. injection H as <- <-.
      repeat split; auto. constructor.
    - cbn [andb] in H. injection H as <- <-. apply String.eqb_neq in E.
      repeat split; auto. constructor. }
  destruct args as [|a rest].
  { apply (IH [] ltac:(cbn; lia) opt w opt' w' H). }
  cbn [List.length] in Hlen. cbn [parse_args] in H.
  destruct (String.eqb a "--help" || String.eqb a "-h")%bool;
    [discriminate|].
  assert (Hval : forall v rest' o,
            rest = v :: rest' -> In a txt2png_value_flags ->
            im_exe o = im_exe opt ->
            parse_args stoi argv0 rest' o w = Parsed true opt' w' ->
            w' = w /\ (input_path opt' <> "" \/ list_fonts opt' = true)
            /\ im_exe opt' = im_exe opt /\ accepted (a :: rest)).
  { intros v rest' o -> Hin Hexe Hp. cbn [List.length] in Hlen.
    apply IH in Hp as [Hw [Hpost [Hi Hacc]]]; [|lia].
    repeat split; auto; [congruence | now constructor]. }
  assert (Hsw : forall o,
            In a txt2png_switches -> im_exe o = im_exe opt ->
            parse_args stoi argv0 rest o w = Parsed true opt' w' ->
            w' = w /\ (input_path opt' <> "" \/ list_fonts opt' = true)
            /\ im_exe opt' = im_exe opt /\ accepted (a :: rest)).
  { intros o Hin Hexe Hp.
    apply IH in Hp as [Hw [Hpost [Hi Hacc]]]; [|lia].
    repeat split; auto; [congruence | now constructor]. }
  destruct (String.eqb a "--input") eqn:E1.
  { apply String.eqb_eq in E1. need_value rest H.
    eapply Hval; [reflexivity | subst a; cbn; tauto | | exact H].
    reflexivity. }
  destruct (String.eqb a "--prefix") eqn:E2.
  { apply String.eqb_eq in E2. need_value rest H.
    eapply Hval; [reflexivity | subst a; cbn; tauto | | exact H].
    reflexivity. }
  destruct (String.eqb a "--start-index") eqn:E3.
  { apply String.eqb_eq in E3. need_value rest H. need_number stoi v H.
    eapply Hval; [reflexivity | subst a; cbn; tauto | | exact H].
    reflexivity. }
  destruct (String.eqb a "--font") eqn:E4.
  { apply String.eqb_eq in E4. need_value rest H.
    eapply Hval; [reflexivity | subst a; cbn; tauto | | exact H].
    reflexivity. }
  destruct (String.eqb a "--font-index") eqn:E5.
  { apply String.eqb_eq in E5. need_value rest H. need_number stoi v H.
    eapply Hval; [reflexivity | subst a; cbn; tauto | | exact H].
    reflexivity. }
  destruct (String.eqb a "--size") eqn:E6.
  { apply String.eqb_eq in E6. need_value rest H. need_number stoi v H.
    eapply Hval; [reflexivity | subst a; cbn; tauto | | exact H].
    reflexivity. }
  destruct (String.eqb a "--color") eqn:E7.
  { apply String.eqb_eq in E7. need_value rest H.
    eapply Hval; [reflexivity | subst a; cbn; tauto | | exact H].
    reflexivity. }
  destruct (String.eqb a "--outline-color") eqn:E8.
  { apply String.eqb_eq in E8. need_value rest H.
    eapply Hval; [reflexivity | subst a; cbn; tauto | | exact H].
    reflexivity. }
  destruct (String.eqb a "--outline") eqn:E9.
  { apply String.eqb_eq in E9. need_value rest H. need_number stoi v H.
    eapply Hval; [reflexivity | subst a; cbn; tauto | | exact H].
    reflexivity. }
  destruct (String.eqb a "--list-fonts") eqn:E10.
  { apply String.eqb_eq in E10.
    eapply Hsw; [subst a; cbn; tauto | | exact H]. reflexivity. }
  destruct (String.eqb a "--outline-method") eqn:E11.
  { apply String.eqb_eq in E11. subst a. need_value rest H.
    cbn [List.length] in Hlen.
    destruct (String.eqb v "stroke") eqn:Es.
    - apply String.eqb_eq in Es. subst v.
      apply IH in H as [Hw [Hpost [Hi Hacc]]]; [|lia].
      repeat split; auto. constructor; [cbn; tauto | exact Hacc].
    - destruct (String.eqb v "offset") eqn:Eo; [|discriminate].
      apply String.eqb_eq in Eo. subst v.
      apply IH in H as [Hw [Hpost [Hi Hacc]]]; [|lia].
      repeat split; auto. constructor; [cbn; tauto | exact Hacc]. }
  destruct (String.eqb a "--offset-directions") eqn:E12.
  { apply String.eqb_eq in E12. need_value rest H. need_number stoi v H.
    eapply Hval; [reflexivity | subst a; cbn; tauto | | exact H].
    reflexivity. }
  destruct (String.eqb a "--dry-run") eqn:E13; [|discriminate].
  apply String.eqb_eq in E13.
  eapply Hsw; [subst a; cbn; tauto | | exact H]. reflexivity.
Qed.

(** [parse_args] writes nothing when it returns [true]. *)
Lemma parse_args_true_is_silent (stoi : string -> option Z)
    (argv0 : string) (args : list string) (opt opt' : Options)
    (w w' : World) :
  parse_args stoi argv0 args opt w = Parsed true opt' w' -> w' = w.
Proof.
  intros H.
  now apply (parse_true stoi argv0 (List.length args) args (le_n _)) in H.
Qed.

(** Extra X19.  [parse_args] returns [true] only for a well-formed command
    line: every argument is an option it knows, or the value that follows
    an option taking one, and [--outline-method] is followed by [stroke] or
    [offset].  Then an input file was named or [--list-fonts] was given,
    nothing was written on either stream, and the name of the ImageMagick
    program is as it was. *)
Theorem parse_args_accepts_well_formed_lines_only
    (stoi : string -> option Z) (argv0 : string) (args : list string)
    (opt opt' : Options) (w w' : World) :
  parse_args stoi argv0 args opt w = Parsed true opt' w' ->
  accepted args
  /\ (input_path opt' <> "" \/ list_fonts opt' = true)
  /\ w' = w
  /\ im_exe opt' = im_exe opt.
Proof.
  intros H.
  apply (parse_true stoi argv0 (List.length args) args (le_n _)) in H.
  tauto.
Qed.

Lemma parse_args_accepts_well_formed_lines_only_witness :
  accepted ["--input"; "in.txt"; "--size"; "64"; "--outline-method";
            "offset"; "--dry-run"].
Proof.
  apply (parse_args_accepts_well_formed_lines_only MoreSamples.stoi_2_64
           "txt2png"
           ["--input"; "in.txt"; "--size"; "64"; "--outline-method";
            "offset"; "--dry-run"]
           default_options
           (set_dry_run true
              (set_use_offset_outline true
                 (set_point_size 64
                    (set_input_path "in.txt" default_options))))
           world0 world0).
  reflexivity.
Defined.

Lemma kept_refl (args : list string) (opt : Options) : kept args opt opt.
Proof. unfold kept. repeat split; intros; reflexivity. Qed.

(** A field not touched by the round that was just made is kept through
    the rest of the line. *)
#[local] Ltac keep_field :=
  match goal with
  | |- ~ In _ _ -> _ =>
      let Hn := fresh "Hn" in
      intros Hn;
      first
        [ exfalso; apply Hn; left; reflexivity
        | match goal with
          | Hk : ~ In _ _ -> ?f ?o' = _ |- ?f ?o' = _ =>
              rewrite Hk;
              [ reflexivity
              | let Hin := fresh "Hin" in
                intros Hin; apply Hn;
                first [ right; right; exact Hin | right; exact Hin ] ]
          end ]
  | H1 : im_exe ?o' = _ |- im_exe ?o' = _ => rewrite H1; reflexivity
  end.

#[local] Ltac keep_through IH :=
  unfold kept in IH; unfold kept;
  destruct IH as (? & ? & ? & ? & ? & ? & ? & ? & ? & ? & ? & ? & ? & ?);
  repeat apply conj; keep_field.

(** The rest of the line after one round of [parse_args]. *)
#[local] Ltac go_on IH Hlen :=
  match goal with
  | |- context [parse_args ?stoi ?argv0 ?r ?o ?w] =>
      let Hr := fresh "Hr" in
      let n := match type of IH with
               | forall args, (_ <= ?n)%nat -> _ => n
               end in
      assert (Hr : (List.length r <= n)%nat)
        by (cbn [List.length] in Hlen; lia);
      let IH' := fresh "IH'" in
      pose proof (IH r Hr o w) as IH';
      destruct (parse_args stoi argv0 r o w); try exact IH';
      let Hc := fresh "Hc" in
      destruct IH' as [IH' Hc]; split; [|exact Hc];
      keep_through IH'
  end.

Lemma parse_args_frame (stoi : string -> option Z) (argv0 : string)
    (n : nat) :
  forall args, (List.length args <= n)%nat ->
  forall opt w,
  match parse_args stoi argv0 args opt w with
  | Parsed _ opt' w' => kept args opt opt' /\ w_commands w' = w_commands w
  | HelpExit w' => w_commands w' = w_commands w
  | StoiThrew w' => w_commands w' = w_commands w
  end.
Proof.
  induction n as [|n IH]; intros args Hlen opt w.
  { destruct args; [|cbn in Hlen; lia]. cbn [parse_args].
    destruct (_ && _)%bool; (split; [apply kept_refl | reflexivity]). }
  destruct args as [|a rest].
  { apply (IH [] ltac:(cbn; lia)). }
  cbn [List.length] in Hlen. cbn [parse_args].
  assert (Hstop : forall msg,
            kept (a :: rest) opt opt
            /\ w_commands (put_stderr msg w) = w_commands w)
    by (intros msg; split; [apply kept_refl | reflexivity]).
  destruct (String.eqb a "--help" || String.eqb a "-h")%bool;
    [reflexivity|].
  destruct (String.eqb a "--input") eqn:E1;
    [apply String.eqb_eq in E1; subst a; destruct rest as [|v rest'];
     [apply Hstop | go_on IH Hlen] |].
  destruct (String.eqb a "--prefix") eqn:E2;
    [apply String.eqb_eq in E2; subst a; destruct rest as [|v rest'];
     [apply Hstop | go_on IH Hlen] |].
  destruct (String.eqb a "--start-index") eqn:E3;
    [apply String.eqb_eq in E3; subst a; destruct rest as [|v rest'];
     [apply Hstop | destruct (stoi v); [go_on IH Hlen | reflexivity]] |].
  destruct (String.eqb a "--font") eqn:E4;
    [apply String.eqb_eq in E4; subst a; destruct rest as [|v rest'];
     [apply Hstop | go_on IH Hlen] |].
  destruct (String.eqb a "--font-index") eqn:E5;
    [apply String.eqb_eq in E5; subst a; destruct rest as [|v rest'];
     [apply Hstop | destruct (stoi v); [go_on IH Hlen | reflexivity]] |].
  destruct (String.eqb a "--size") eqn:E6;
    [apply String.eqb_eq in E6; subst a; destruct rest as [|v rest'];
     [apply Hstop | destruct (stoi v); [go_on IH Hlen | reflexivity]] |].
  destruct (String.eqb a "--color") eqn:E7;
    [apply String.eqb_eq in E7; subst a; destruct rest as [|v rest'];
     [apply Hstop | go_on IH Hlen] |].
  destruct (String.eqb a "--outline-color") eqn:E8;
    [apply String.eqb_eq in E8; subst a; destruct rest as [|v rest'];
     [apply Hstop | go_on IH Hlen] |].
  destruct (String.eqb a "--outline") eqn:E9;
    [apply String.eqb_eq in E9; subst a; destruct rest as [|v rest'];
     [apply Hstop | destruct (stoi v); [go_on IH Hlen | reflexivity]] |].
  destruct (String.eqb a "--list-fonts") eqn:E10;
    [apply String.eqb_eq in E10; subst a; go_on IH Hlen |].
  destruct (String.eqb a "--outline-method") eqn:E11;
    [apply String.eqb_eq in E11; subst a; destruct rest as [|v rest'];
     [apply Hstop
     | destruct (String.eqb v "stroke");
       [go_on IH Hlen
       | destruct (String.eqb v "offset"); [go_on IH Hlen | apply Hstop]]]
    |].
  destruct (String.eqb a "--offset-directions") eqn:E12;
    [apply String.eqb_eq in E12; subst a; destruct rest as [|v rest'];
     [apply Hstop | destruct (stoi v); [go_on IH Hlen | reflexivity]] |].
  destruct (String.eqb a "--dry-run") eqn:E13;
    [apply String.eqb_eq in E13; subst a; go_on IH Hlen | apply Hstop].
Qed.

(** Extra X20.  An option leaves the other fields alone: whatever
    [parse_args] returns, a field of the options has the value it had
    before unless the option of that field occurs among the arguments.  In
    particular every default stays in effect until its option is given. *)
Theorem parse_args_keeps_fields_without_their_option
    (stoi : string -> option Z) (argv0 : string) (args : list string)
    (opt opt' : Options) (w w' : World) (ok : bool) :
  parse_args stoi argv0 args opt w = Parsed ok opt' w' ->
  kept args opt opt'.
Proof.
  intros H.
  pose proof (parse_args_frame stoi argv0 (List.length args) args (le_n _)
                opt w) as Hf.
  rewrite H in Hf. apply Hf.
Qed.

Lemma parse_args_keeps_fields_without_their_option_witness :
  kept ["--input"; "in.txt"; "--size"; "64"] default_options
    (set_point_size 64 (set_input_path "in.txt" default_options)).
Proof.
  apply (parse_args_keeps_fields_without_their_option MoreSamples.stoi_2_64
           "txt2png" ["--input"; "in.txt"; "--size"; "64"] default_options
           _ world0 world0 true).
  reflexivity.
Defined.

End CliMore.

(** ** txt2png from its command line *)

Module ProgramMore.
Import Cxx Txt2png Txt2pngCli Spec Checks.

Lemma main_status_not_2 (cos sin : Q -> Q) (env : Env) (opt : Options) :
  fst (Txt2png.main cos sin env opt) <> 2.
Proof.
  unfold Txt2png.main.
  cbn [im_exe set_im_exe list_fonts input_path start_index].
  fold (set_im_exe (detect_imagemagick env) opt).
  destruct (String.eqb (detect_imagemagick env) ""); [discriminate|].
  destruct (list_fonts opt).
  { destruct (collect_fonts env (detect_imagemagick env)); discriminate. }
  destruct (resolve_font env _ _ world0); [|discriminate].
  destruct (ifstream env (input_path opt)) as [content|]; [|discriminate].
  pose proof (Txt2pngMore.line_loop_result cos sin env
                (set_im_exe (detect_imagemagick env) opt) s
                (getlines content) (start_index opt) 0 world0)
    as [Hcode _].
  cbn zeta in Hcode.
  destruct (Txt2png.line_loop cos sin env _ s (getlines content)
              (start_index opt) 0 world0) as [[code made] w'].
  cbn [fst snd] in Hcode.
  destruct Hcode as [-> | [-> _]]; discriminate.
Qed.

(** Extra X21.  The status 2 belongs to the command line: the program
    ends with 2 exactly when [parse_args] returns [false], and [main] never
    returns 2 for another reason.  On a command line that is not well
    formed no render command is run, and the program ends with status 2,
    or with 0 after printing the help, or by the exception of
    [std::stoi]. *)
Theorem txt2png_status_2_is_a_usage_error
    (stoi : string -> option Z) (cos sin : Q -> Q) (env : Env)
    (argv0 : string) (args : list string) :
  let r := main_argv stoi cos sin env argv0 args in
  (fst r = Exit 2 <->
   exists opt w,
     parse_args stoi argv0 args default_options world0 = Parsed false opt w)
  /\ (~ accepted args ->
      w_commands (snd r) = []
      /\ (fst r = Exit 2 \/ fst r = Exit 0 \/ fst r = Terminate)).
Proof.
  cbn zeta. unfold main_argv.
  pose proof (CliMore.parse_args_frame stoi argv0 (List.length args) args
                (le_n _) default_options world0) as Hframe.
  destruct (parse_args stoi argv0 args default_options world0)
    as [ok opt w|w|w] eqn:E.
  - destruct ok.
    + pose proof (main_status_not_2 cos sin env opt) as Hn2.
      destruct (Txt2png.main cos sin env opt) as [code w1].
      cbn [fst snd] in *. split.
      * split; [intros H; injection H as ->; contradiction|].
        intros [o [w2 H]]. discriminate.
      * intros Hacc. exfalso. apply Hacc.
        now apply (CliMore.parse_true stoi argv0 (List.length args) args
                     (le_n _)) in E.
    + cbn [fst snd]. split.
      * split; [intros _; eauto | reflexivity].
      * intros _. destruct Hframe as [_ Hc]. cbn [put_stderr w_commands].
        split; [exact Hc | now left].
  - cbn [fst snd]. split.
    + split; [discriminate | intros [o [w2 H]]; discriminate].
    + intros _. split; [exact Hframe | right; now left].
  - cbn [fst snd]. split.
    + split; [discriminate | intros [o [w2 H]]; discriminate].
    + intros _. split; [exact Hframe | right; now right].
Qed.

Lemma txt2png_status_2_is_a_usage_error_witness :
  w_commands
    (snd (main_argv MoreSamples.stoi_2_64 Samples.cos_at_0 Samples.sin_at_0
            MoreSamples.all_succeed "txt2png" ["--input"; "in.txt"; "--bogus"]))
  = []
  /\ (fst (main_argv MoreSamples.stoi_2_64 Samples.cos_at_0 Samples.sin_at_0
             MoreSamples.all_succeed "txt2png"
             ["--input"; "in.txt"; "--bogus"]) = Exit 2
      \/ fst (main_argv MoreSamples.stoi_2_64 Samples.cos_at_0
                Samples.sin_at_0 MoreSamples.all_succeed "txt2png"
                ["--input"; "in.txt"; "--bogus"]) = Exit 0
      \/ fst (main_argv MoreSamples.stoi_2_64 Samples.cos_at_0
                Samples.sin_at_0 MoreSamples.all_succeed "txt2png"
                ["--input"; "in.txt"; "--bogus"]) = Terminate).
Proof.
  apply (proj2 (txt2png_status_2_is_a_usage_error MoreSamples.stoi_2_64
                  Samples.cos_at_0 Samples.sin_at_0 MoreSamples.all_succeed
                  "txt2png" ["--input"; "in.txt"; "--bogus"])).
  intros H. inversion H as [| a rest Hin Hacc | a v rest Hin Hacc | ]; subst.
  - cbn in Hin. intuition discriminate.
  - inversion Hacc as [| a rest Hin' _ | |]; subst.
    cbn in Hin'. intuition discriminate.
Defined.

End ProgramMore.
